(** * synothumb: thumbnail generation for Synology photo libraries

    A shallow embedding of [synothumb.py] (version 6.2) and the properties
    of its discovery, dispatch, skip test and per-file processors.

    Conventions of the model.
    - A [pathlib.Path] is the list of its components; [str] joins them with
      a slash.  The empty list is the anchor (the current directory).
    - Python strings are held as their UTF-8 bytes: [strip] acts on the
      ASCII range, [lower] on the letters that can lower to an ASCII one.
    - The file system, the log, the progress bar and the record of external
      effects form the [World] that every function threads.  The records of
      [logging] are the log; the entry of the log file in the file system
      tells that the file was created, not what it holds.
    - The image codec, the RAW library and the [ffmpeg] executable are the
      fields of an environment [Env]: each one answers from its arguments
      and the current file system, success or exception.
    - Exceptions are values; [try_except] is Python's [try]/[except]. *)

From stdpp Require Import gmap strings list fin_maps pretty.
From Stdlib Require Import ZArith Lia Ascii String.

Open Scope string_scope.
Open Scope list_scope.
Open Scope Z_scope.

(** ** Strings *)

Module Str.

(** [c.lower()] on one character of the ASCII range. *)
Definition lower_ascii (c : ascii) : ascii :=
  let n := nat_of_ascii c in
  if ((65 <=? n) && (n <=? 90))%nat then ascii_of_nat (n + 32) else c.

(** The three bytes of U+212A (KELVIN SIGN) in UTF-8. *)
Definition is_kelvin (c1 c2 c3 : ascii) : bool :=
  ((nat_of_ascii c1 =? 226) && (nat_of_ascii c2 =? 132) &&
   (nat_of_ascii c3 =? 170))%nat.

(** The two bytes of U+0130 (LATIN CAPITAL LETTER I WITH DOT ABOVE). *)
Definition is_dotted_I (c1 c2 : ascii) : bool :=
  ((nat_of_ascii c1 =? 196) && (nat_of_ascii c2 =? 176))%nat.

(** U+0307 (COMBINING DOT ABOVE) in UTF-8. *)
Definition combining_dot : string :=
  String (ascii_of_nat 204) (String (ascii_of_nat 135) EmptyString).

(** [s.lower()] on a string held as its UTF-8 bytes.  The letters A to Z
    are lowered, and so are the two letters outside the ASCII range whose
    lower case has an ASCII letter: the KELVIN SIGN, which becomes [k],
    and the dotted capital I, which becomes [i] followed by a combining
    dot.  The other bytes above 127 are left as they are: Python lowers
    some of those letters too, to letters that are again outside the ASCII
    range, so the result is one of the extensions of the tables below
    exactly when Python's is. *)
Fixpoint lower (s : string) : string :=
  match s with
  | EmptyString => EmptyString
  | String c s1 =>
      match s1 with
      | String c2 s2 =>
          if is_dotted_I c c2 then String "i" (combining_dot +:+ lower s2)
          else
            match s2 with
            | String c3 s3 =>
                if is_kelvin c c2 c3 then String "k" (lower s3)
                else String (lower_ascii c) (lower s1)
            | EmptyString => String (lower_ascii c) (lower s1)
            end
      | EmptyString => String (lower_ascii c) (lower s1)
      end
  end.

Fixpoint rfind (c : ascii) (s : string) : option nat :=
  match s with
  | EmptyString => None
  | String a s' =>
      match rfind c s' with
      | Some i => Some (S i)
      | None => if Ascii.eqb a c then Some O else None
      end
  end.

Fixpoint is_prefix (p s : string) : bool :=
  match p, s with
  | EmptyString, _ => true
  | String a p', String b s' => Ascii.eqb a b && is_prefix p' s'
  | String _ _, EmptyString => false
  end.

(** [needle in hay] on strings: some suffix of [hay] starts with [needle]. *)
Fixpoint contains (needle hay : string) : bool :=
  is_prefix needle hay ||
  match hay with
  | EmptyString => false
  | String _ hay' => contains needle hay'
  end.

(** [sep.join(l)]. *)
Fixpoint join (sep : string) (l : list string) : string :=
  match l with
  | [] => ""
  | [x] => x
  | x :: l' => x +:+ sep +:+ join sep l'
  end.

(** Python's [str.isspace] on the ASCII range: tab to carriage return,
    the four separators 28..31 and the space. *)
Definition is_space (c : ascii) : bool :=
  let n := nat_of_ascii c in
  ((9 <=? n) && (n <=? 13) || (28 <=? n) && (n <=? 32))%nat.

Fixpoint lstrip (s : string) : string :=
  match s with
  | EmptyString => EmptyString
  | String c s' => if is_space c then lstrip s' else s
  end.

Fixpoint rstrip (s : string) : string :=
  match s with
  | EmptyString => EmptyString
  | String c s' =>
      match rstrip s' with
      | EmptyString => if is_space c then EmptyString else String c EmptyString
      | r => String c r
      end
  end.

Definition strip (s : string) : string := rstrip (lstrip s).

End Str.

(** ** Paths ([pathlib.PurePath]) *)

Definition Path := list string.

Module PathOps.

(** [str(p)]. *)
Definition str (p : Path) : string :=
  match p with
  | [] => "."
  | _ => Str.join "/" p
  end.

(** [p.name]: the final component. *)
Definition name (p : Path) : string := List.last p "".

(** [p.parent]. *)
Definition parent (p : Path) : Path := List.removelast p.

(** [p / child]. *)
Definition child (p : Path) (c : string) : Path := p ++ [c].

(** The index [i] of [name.rfind('.')] when [0 < i < len(name) - 1]. *)
Definition suffix_index (nm : string) : option nat :=
  match Str.rfind "."%char nm with
  | Some i =>
      if ((0 <? i) && (i <? String.length nm - 1))%nat then Some i else None
  | None => None
  end.

(** [p.suffix]: the last dot-separated portion of the final component,
    empty when the only dot is leading or trailing. *)
Definition suffix (p : Path) : string :=
  let nm := name p in
  match suffix_index nm with
  | Some i => String.substring i (String.length nm - i) nm
  | None => ""
  end.

(** [p.stem]: the final component without its suffix. *)
Definition stem (p : Path) : string :=
  let nm := name p in
  match suffix_index nm with
  | Some i => String.substring 0 i nm
  | None => nm
  end.

End PathOps.

Notation "p </> c" := (PathOps.child p c) (at level 40, left associativity).

(** ** Configuration *)

(** [THUMBNAIL_CONFIG]: a dict literal, kept in insertion order. *)
Definition THUMBNAIL_CONFIG : list (string * (Z * Z)) :=
  [ ("SYNOPHOTO_THUMB_XL.jpg", (1280, 1280));
    ("SYNOPHOTO_THUMB_L.jpg", (800, 800));
    ("SYNOPHOTO_THUMB_B.jpg", (640, 640));
    ("SYNOPHOTO_THUMB_M.jpg", (320, 320));
    ("SYNOPHOTO_THUMB_S.jpg", (160, 160)) ].

Record PreviewConfig := { p_name : string; p_size : Z * Z }.

Definition PREVIEW_CONFIG : PreviewConfig :=
  {| p_name := "SYNOPHOTO_THUMB_PREVIEW.jpg"; p_size := (120, 120) |}.

Definition IMAGE_EXTENSIONS : list string :=
  [".jpg"; ".jpeg"; ".png"; ".bmp"; ".tif"; ".tiff"].

Definition RAW_EXTENSIONS : list string :=
  [".arw"; ".cr2"; ".cr3"; ".crw"; ".dng"; ".erf"; ".nef"; ".nrw";
   ".orf"; ".pef"; ".raf"; ".raw"; ".rw2"; ".sr2"; ".srf"; ".x3f"].

Definition VIDEO_EXTENSIONS : list string :=
  [".mov"; ".m4v"; ".mp4"; ".avi"; ".mkv"; ".mpg"; ".mpeg"; ".wmv";
   ".3gp"; ".flv"].

(** [x in l] for a list of strings. *)
Definition str_in (x : string) (l : list string) : bool :=
  bool_decide (x ∈ l).

(** [f.suffix.lower()]. *)
Definition suffix_lower (p : Path) : string := Str.lower (PathOps.suffix p).


(** ** Images (the Pillow objects the script handles) *)

Definition Color := (Z * Z * Z)%type.

(** An in-memory raster: its mode, its size and its pixels. *)
Record Image := {
  mode : string;
  width : Z;
  height : Z;
  px : Z → Z → Color
}.

Module PIL.

(** Ceiling of [a / b] for [0 < b]. *)
Definition ceil_div (a b : Z) : Z := - ((- a) / b).

(** [preserve_aspect_ratio] of [Image.thumbnail] for an image of size
    [(w, h)] and a requested box [(x, y)].  Pillow computes
    [aspect = w / h] in floating point and picks, between the floor and
    the ceiling of the scaled side, the one whose ratio is closest to
    [aspect]; the comparisons are done here on exact fractions, cross
    multiplied.  [None] is Pillow's early return for an image that already
    fits. *)
Definition preserve_aspect_ratio (w h x y : Z) : option (Z * Z) :=
  if (x >=? w) && (y >=? h) then None
  else if x * h >=? w * y then
    let f := (y * w) / h in
    let c := ceil_div (y * w) h in
    let n := if Z.abs (w * y - f * h) <=? Z.abs (w * y - c * h) then f else c in
    Some (Z.max n 1, y)
  else
    let f := (x * h) / w in
    let c := ceil_div (x * h) w in
    let n :=
      if f =? 0 then f
      else if Z.abs (w * f - x * h) * c <=? Z.abs (w * c - x * h) * f then f
      else c in
    Some (x, Z.max n 1).

(** The size [im.thumbnail(size)] leaves the image with. *)
Definition thumbnail_size (w h : Z) (size : Z * Z) : Z * Z :=
  match preserve_aspect_ratio w h (fst size) (snd size) with
  | None => (w, h)
  | Some s => s
  end.

(** [Image.new("RGB", size, color)]. *)
Definition new (size : Z * Z) (color : Color) : Image :=
  {| mode := "RGB"; width := fst size; height := snd size;
     px := fun _ _ => color |}.

(** [canvas.paste(im, pos)]: the pixels of [im] replace those of the
    canvas in the rectangle at [pos]. *)
Definition paste (canvas im : Image) (pos : Z * Z) : Image :=
  {| mode := mode canvas; width := width canvas; height := height canvas;
     px := fun x y =>
       if (fst pos <=? x) && (x <? fst pos + width im) &&
          (snd pos <=? y) && (y <? snd pos + height im)
       then px im (x - fst pos) (y - snd pos)
       else px canvas x y |}.

End PIL.

(** ** The world: file system, log, progress bar, effects *)

Inductive Content :=
| Jpeg (quality : Z) (im : Image)
| Blob (data : string).

Inductive Node :=
| Dir
| File (c : Content).

Inductive Level := INFO | ERROR.

Inductive Event :=
| EvMkdir (p : Path)
| EvRun (cmd : list string)
| EvSave (p : Path) (quality : Z)
| EvUnlink (p : Path).

Record World := {
  fs : gmap Path Node;
  log : list (Level * string);
  pbar : nat;
  trace : list Event
}.

Definition set_fs (f : gmap Path Node → gmap Path Node) (w : World) : World :=
  {| fs := f (fs w); log := log w; pbar := pbar w; trace := trace w |}.

Definition add_event (e : Event) (w : World) : World :=
  {| fs := fs w; log := log w; pbar := pbar w; trace := trace w ++ [e] |}.

Definition add_log (l : Level) (msg : string) (w : World) : World :=
  {| fs := fs w; log := log w ++ [(l, msg)]; pbar := pbar w; trace := trace w |}.

Definition add_pbar (n : nat) (w : World) : World :=
  {| fs := fs w; log := log w; pbar := (pbar w + n)%nat; trace := trace w |}.

(** ** Exceptions and the monad of the script *)

(** The exceptions a worker can see, all subclasses of [Exception]:
    [subprocess.CalledProcessError] with the attributes the handler reads,
    and any other, by class name and message. *)
Inductive Exn :=
| CalledProcessError (returncode : Z) (cmd : list string) (stderr : string)
| PyException (cls : string) (msg : string).

(** [str(e)].  For [CalledProcessError] the command is printed as a list of
    quoted words, without Python's escaping of special characters. *)
Definition exn_str (e : Exn) : string :=
  match e with
  | CalledProcessError rc cmd _ =>
      "Command '[" +:+ Str.join ", " (List.map (fun a => "'" +:+ a +:+ "'") cmd)
      +:+ "]' returned non-zero exit status " +:+ pretty rc +:+ "."
  | PyException _ msg => msg
  end.

Inductive Result (A : Type) :=
| Ok (a : A)
| Raise (e : Exn).
Arguments Ok {A} a.
Arguments Raise {A} e.

Definition M (A : Type) : Type := World → Result A * World.

Definition ret {A} (a : A) : M A := fun w => (Ok a, w).

Definition raise {A} (e : Exn) : M A := fun w => (Raise e, w).

Definition bind {A B} (k : A → M B) (c : M A) : M B :=
  fun w =>
    match c w with
    | (Ok a, w') => k a w'
    | (Raise e, w') => (Raise e, w')
    end.

#[global] Instance M_ret : MRet M := @ret.
#[global] Instance M_bind : MBind M := @bind.

(** [try: c except Exception as e: h e]. *)
Definition try_except {A} (c : M A) (h : Exn → M A) : M A :=
  fun w =>
    match c w with
    | (Ok a, w') => (Ok a, w')
    | (Raise e, w') => h e w'
    end.

(** [for x in l: body x]. *)
Fixpoint for_each {A} (l : list A) (body : A → M unit) : M unit :=
  match l with
  | [] => ret tt
  | x :: l' => body x;; for_each l' body
  end.

Definition modify (f : World → World) : M unit := fun w => (Ok tt, f w).

(** [logging.error(msg)] and [logging.info(msg)].  The records go to the
    [log] of the world, which stands for what the handlers have written:
    the contents of the log file (and, for the errors, of the console).
    The entry of the log file in [fs] records that the file was created,
    not what has been appended to it since; the statements about [fs]
    leave the paths of log files out. *)
Definition logging_error (msg : string) : M unit := modify (add_log ERROR msg).
Definition logging_info (msg : string) : M unit := modify (add_log INFO msg).

(** ** The external collaborators *)

(** What a subprocess call can do: fail to start ([FileNotFoundError] when
    the executable is missing), or exit with a return code and the text of
    its standard error, having written its output file or not. *)
Inductive SubprocResult :=
| SpawnError (msg : string)
| Exited (returncode : Z) (stderr : string) (out : option Content).

Record Env := {
  (** An error of [os.mkdir] other than "exists" and "no parent". *)
  mkdir_error : Path → gmap Path Node → option Exn;
  (** [rawpy.imread(path)], [raw.postprocess(use_camera_wb=True,
      output_bps=8)] and [Image.fromarray]. *)
  rawpy_imread : Path → gmap Path Node → Exn + Image;
  (** [Image.open(path)]. *)
  Image_open : Path → gmap Path Node → Exn + Image;
  (** [img.convert('RGB')]. *)
  Image_convert : Image → Exn + Image;
  (** [ImageOps.exif_transpose(img)]. *)
  exif_transpose : Image → Exn + Image;
  (** The pixels the LANCZOS filter computes for a resize to a given size. *)
  resample : Image → Z → Z → Z → Z → Color;
  (** An error of [img.save(path, "JPEG", quality=q)]. *)
  save_error : Path → Image → gmap Path Node → option Exn;
  (** The [ffmpeg] executable on a command line. *)
  ffmpeg : list string → gmap Path Node → SubprocResult;
  (** An error of [path.unlink()] other than "no such file". *)
  unlink_error : Path → gmap Path Node → option Exn;
  (** [os.cpu_count()]. *)
  cpu_count : option nat
}.

Definition lift {A} (r : Exn + A) : M A :=
  match r with
  | inl e => raise e
  | inr a => ret a
  end.

(** A call that reads the file system. *)
Definition lift_fs {A} (f : gmap Path Node → Exn + A) : M A :=
  fun w => lift (f (fs w)) w.

(** The non-empty prefixes of a path, shortest first. *)
Fixpoint prefixes (p : Path) : list Path :=
  match p with
  | [] => []
  | c :: p' => [c] :: List.map (cons c) (prefixes p')
  end.

Inductive Func := Fprocess_image | Fprocess_video.

Definition Task := (Func * Path)%type.

Inductive MainResult :=
| SysExit (code : Z)
| Completed.

Section Program.

Variable E : Env.

(** [path.exists()]. *)
Definition path_exists (p : Path) : M bool :=
  fun w => (Ok (bool_decide (is_Some (fs w !! p))), w).

(** One [os.mkdir] under [exist_ok=True]: an existing directory is kept,
    an existing file is an error. *)
Definition mkdir_one (q : Path) : M unit :=
  fun w =>
    match fs w !! q with
    | Some Dir => (Ok tt, w)
    | Some (File _) => (Raise (PyException "FileExistsError" (PathOps.str q)), w)
    | None =>
        match mkdir_error E q (fs w) with
        | Some e => (Raise e, w)
        | None => (Ok tt, add_event (EvMkdir q) (set_fs (insert q Dir) w))
        end
    end.

(** [path.mkdir(parents=True, exist_ok=True)]: every missing directory on
    the way is created, from the top. *)
Definition mkdir_parents (p : Path) : M unit :=
  for_each (prefixes p) mkdir_one.

(** [im.resize(size, LANCZOS)]. *)
Definition resize (im : Image) (size : Z * Z) : Image :=
  {| mode := mode im; width := fst size; height := snd size;
     px := resample E im (fst size) (snd size) |}.

(** [im.thumbnail(size, Image.Resampling.LANCZOS)] on a copy: the image
    is returned as it is when it fits, else resized to
    [PIL.thumbnail_size]; the aspect ratio of an image of height 0 is a
    division by zero.  The call reads and writes no file. *)
Definition thumbnail (im : Image) (size : Z * Z) : Exn + Image :=
  if (fst size >=? width im) && (snd size >=? height im) then inr im
  else if height im =? 0 then
    inl (PyException "ZeroDivisionError" "division by zero")
  else
    let s := PIL.thumbnail_size (width im) (height im) size in
    if (fst s =? width im) && (snd s =? height im) then inr im
    else inr (resize im s).

(** [im.save(path, "JPEG", quality=q)]. *)
Definition save (im : Image) (p : Path) (q : Z) : M unit :=
  fun w =>
    match fs w !! p with
    | Some Dir => (Raise (PyException "IsADirectoryError" (PathOps.str p)), w)
    | _ =>
        match save_error E p im (fs w) with
        | Some e => (Raise e, w)
        | None =>
            (Ok tt, add_event (EvSave p q) (set_fs (insert p (File (Jpeg q im))) w))
        end
    end.

(** [subprocess.run(cmd, check=True, capture_output=True)] for an
    [ffmpeg] command whose output file is [out]. *)
Definition subprocess_run (cmd : list string) (out : Path) : M unit :=
  fun w =>
    match ffmpeg E cmd (fs w) with
    | SpawnError msg => (Raise (PyException "FileNotFoundError" msg), w)
    | Exited rc err written =>
        let w1 :=
          match written with
          | Some c => set_fs (insert out (File c)) w
          | None => w
          end in
        let w2 := add_event (EvRun cmd) w1 in
        if rc =? 0 then (Ok tt, w2)
        else (Raise (CalledProcessError rc cmd err), w2)
    end.

(** [path.unlink()]. *)
Definition unlink (p : Path) : M unit :=
  fun w =>
    match fs w !! p with
    | None => (Raise (PyException "FileNotFoundError" (PathOps.str p)), w)
    | Some Dir => (Raise (PyException "IsADirectoryError" (PathOps.str p)), w)
    | Some (File _) =>
        match unlink_error E p (fs w) with
        | Some e => (Raise e, w)
        | None => (Ok tt, add_event (EvUnlink p) (set_fs (delete p) w))
        end
    end.

(** [list(THUMBNAIL_CONFIG.keys())[0]]. *)
Definition first_key : M string :=
  match List.map fst THUMBNAIL_CONFIG with
  | k :: _ => ret k
  | [] => raise (PyException "IndexError" "list index out of range")
  end.

(** [file_path.parent / "@eaDir" / file_path.name]. *)
Definition thumb_dir_of (file_path : Path) : Path :=
  PathOps.parent file_path </> "@eaDir" </> PathOps.name file_path.

(** The loop over [THUMBNAIL_CONFIG.items()] (lines 120-123, 176-179). *)
Definition standard_thumbnails (img : Image) (thumb_dir : Path) : M unit :=
  for_each THUMBNAIL_CONFIG (fun '(name, size) =>
    img_copy ← lift (thumbnail img size);
    save img_copy (thumb_dir </> name) 95).

(** The path the skip test looks at:
    [thumb_dir / list(THUMBNAIL_CONFIG.keys())[0]] once the key is read. *)
Definition marker_path (file_path : Path) : Path :=
  thumb_dir_of file_path </> "SYNOPHOTO_THUMB_XL.jpg".

(** [process_image] past the skip test (lines 102-137). *)
Definition render_image (file_path : Path) : M string :=
  let thumb_dir := thumb_dir_of file_path in
  mkdir_parents thumb_dir;;
  img ← (if str_in (suffix_lower file_path) RAW_EXTENSIONS
         then lift_fs (rawpy_imread E file_path)
         else
           img ← lift_fs (Image_open E file_path);
           if bool_decide (mode img ≠ "RGB")
           then lift (Image_convert E img)
           else mret img);
  img ← lift (exif_transpose E img);
  standard_thumbnails img thumb_dir;;
  let p_name := p_name PREVIEW_CONFIG in
  let p_size := p_size PREVIEW_CONFIG in
  img_copy ← lift (thumbnail img p_size);
  let padded_img := PIL.new p_size (0, 0, 0) in
  let paste_pos := ((fst p_size - width img_copy) / 2,
                    (snd p_size - height img_copy) / 2) in
  let padded_img := PIL.paste padded_img img_copy paste_pos in
  save padded_img (thumb_dir </> p_name) 90;;
  mret ("Image processed: " +:+ PathOps.name file_path).

(** The body of the [try] of [process_image] (lines 96-137). *)
Definition process_image_body (file_path : Path) : M string :=
  let thumb_dir := thumb_dir_of file_path in
  marker ← first_key;
  skip ← path_exists (thumb_dir </> marker);
  if skip : bool then
    mret ("Skipped (already exists): " +:+ PathOps.name file_path)
  else render_image file_path.

(** [process_image] (lines 93-141). *)
Definition process_image (file_path : Path) : M string :=
  try_except (process_image_body file_path) (fun e =>
    logging_error ("Error processing image " +:+ PathOps.str file_path
                   +:+ ": " +:+ exn_str e);;
    ret ("Error: " +:+ PathOps.name file_path)).

Definition flv_cmd (file_path film_flv_path : Path) : list string :=
  ["ffmpeg"; "-y"; "-i"; PathOps.str file_path; "-loglevel"; "panic";
   "-ar"; "44100"; "-r"; "12"; "-ac"; "2"; "-f"; "flv";
   "-qscale"; "5"; "-s"; "320x180"; PathOps.str film_flv_path].

Definition thumb_cmd (file_path temp_thumb_path : Path) : list string :=
  ["ffmpeg"; "-y"; "-ss"; "00:00:01"; "-i"; PathOps.str file_path;
   "-loglevel"; "panic"; "-vframes"; "1"; PathOps.str temp_thumb_path].

(** [thumb_dir / f"{file_path.stem}_temp.jpg"]. *)
Definition temp_thumb_path_of (file_path : Path) : Path :=
  thumb_dir_of file_path </> (PathOps.stem file_path +:+ "_temp.jpg").

(** Steps 2 and 3 of [process_video] and the removal of the frame
    (lines 163-182). *)
Definition extract_and_resize (file_path : Path) : M unit :=
  let thumb_dir := thumb_dir_of file_path in
  let temp_thumb_path := temp_thumb_path_of file_path in
  subprocess_run (thumb_cmd file_path temp_thumb_path) temp_thumb_path;;
  found ← path_exists temp_thumb_path;
  if negb found then
    raise (PyException "FileNotFoundError"
             "FFmpeg failed to extract a thumbnail frame.")
  else
    img ← lift_fs (Image_open E temp_thumb_path);
    standard_thumbnails img thumb_dir;;
    unlink temp_thumb_path.

(** [process_video] past the skip test (lines 152-184). *)
Definition render_video (file_path : Path) : M string :=
  let thumb_dir := thumb_dir_of file_path in
  mkdir_parents thumb_dir;;
  let film_flv_path := thumb_dir </> "SYNOPHOTO:FILM.flv" in
  subprocess_run (flv_cmd file_path film_flv_path) film_flv_path;;
  extract_and_resize file_path;;
  mret ("Video processed: " +:+ PathOps.name file_path).

(** The body of the [try] of [process_video] (lines 146-184). *)
Definition process_video_body (file_path : Path) : M string :=
  let thumb_dir := thumb_dir_of file_path in
  marker ← first_key;
  skip ← path_exists (thumb_dir </> marker);
  if skip : bool then
    mret ("Skipped (already exists): " +:+ PathOps.name file_path)
  else render_video file_path.

(** The two handlers of [process_video] (lines 186-192): the first
    [except] clause that matches runs. *)
Definition process_video_handler (file_path : Path) (e : Exn) : M string :=
  match e with
  | CalledProcessError _ _ err =>
      let error_message := Str.strip err in
      logging_error ("FFmpeg error while processing video "
                     +:+ PathOps.str file_path +:+ ": " +:+ error_message);;
      ret ("FFmpeg Error: " +:+ PathOps.name file_path)
  | PyException _ _ =>
      logging_error ("Error processing video " +:+ PathOps.str file_path
                     +:+ ": " +:+ exn_str e);;
      ret ("Error: " +:+ PathOps.name file_path)
  end.

(** [process_video] (lines 143-192). *)
Definition process_video (file_path : Path) : M string :=
  try_except (process_video_body file_path) (process_video_handler file_path).

(** ** Discovery and scheduling ([main], lines 211-247) *)

(** [root_dir.rglob('*')]: every entry, file or directory, below the
    root, in the order the file system lists them. *)
Definition rglob (root_dir : Path) (m : gmap Path Node) : list Path :=
  List.filter
    (fun p => bool_decide (root_dir `prefix_of` p) && negb (bool_decide (p = root_dir)))
    (List.map fst (map_to_list m)).

Definition all_extensions : list string :=
  IMAGE_EXTENSIONS ++ RAW_EXTENSIONS ++ VIDEO_EXTENSIONS.

(** The condition of the comprehension of line 215. *)
Definition is_media (f : Path) : bool :=
  str_in (suffix_lower f) all_extensions &&
  negb (Str.contains "@eaDir" (PathOps.str (PathOps.parent f))).

(** [media_files] (lines 213-216). *)
Definition media_files (root_dir : Path) (m : gmap Path Node) : list Path :=
  List.filter is_media (rglob root_dir m).

(** One iteration of the loop of lines 231-235. *)
Definition task_of (file_path : Path) : Task :=
  if str_in (suffix_lower file_path) VIDEO_EXTENSIONS
  then (Fprocess_video, file_path)
  else (Fprocess_image, file_path).

Definition make_tasks (files : list Path) : list Task :=
  List.map task_of files.

Definition call (t : Task) : M string :=
  match fst t with
  | Fprocess_image => process_image (snd t)
  | Fprocess_video => process_video (snd t)
  end.

(** A submitted task run by a worker: what it returns or raises is kept
    in its future. *)
Definition run_future (t : Task) : M (Result string) :=
  fun w => let '(r, w') := call t w in (Ok r, w').

Fixpoint run_futures (ts : list Task) : M (list (Result string)) :=
  match ts with
  | [] => ret []
  | t :: ts' =>
      r ← run_future t;
      rs ← run_futures ts';
      ret (r :: rs)
  end.

(** [future.result()]: the value, or the exception raised again. *)
Definition future_result (r : Result string) : M string :=
  match r with
  | Ok s => ret s
  | Raise e => raise e
  end.

(** The loop over [as_completed] (lines 241-244). *)
Definition collect (futures : list (Result string)) : M unit :=
  for_each futures (fun future =>
    result ← future_result future;
    logging_info result;;
    modify (add_pbar 1)).

(** [min(32, (os.cpu_count() or 1) + 4)]. *)
Definition max_workers : nat :=
  Nat.min 32 (match cpu_count E with
              | Some O | None => 1
              | Some n => n
              end + 4).

(** [main] from the discovery on (lines 211-247).  The thread pool is
    modelled at the granularity of tasks: [schedule] gives the order in
    which the submitted tasks run and complete. *)
Definition main (root_dir : Path) (schedule : list Task → list Task)
  : M MainResult :=
  files ← (fun w => (Ok (media_files root_dir (fs w)), w));
  if bool_decide (files = []) then
    logging_info "No media files found.";;
    ret (SysExit 0)
  else
    logging_info ("Found " +:+ pretty (List.length files)
                  +:+ " media files to process.");;
    logging_info ("Using " +:+ pretty max_workers +:+ " threads.");;
    let tasks := make_tasks files in
    futures ← run_futures (schedule tasks);
    collect futures;;
    logging_info "Script finished successfully.";;
    ret Completed.

End Program.

(** * Vocabulary of the properties and concrete inputs *)

(** [steps T c]: whatever [c] returns or raises, the world it leaves is
    related by [T] to the world it started in. *)
Definition steps {A} (T : relation World) (c : M A) : Prop :=
  ∀ w, T w (c w).2.

(** The entry at path [x] is the same before and after. *)
Definition same_at (x : Path) : relation World :=
  fun w w' => fs w' !! x = fs w !! x.

(** [x] is neither the sidecar directory [d], nor one of the directories
    above it, nor an entry directly inside it. *)
Definition outside (d x : Path) : Prop :=
  (x ∉ prefixes d) ∧ ∀ c, x ≠ d </> c.

(** The three outcomes of the specification, read off the string a
    processor returns. *)
Definition is_skipped (p : Path) (r : string) : Prop :=
  r = "Skipped (already exists): " +:+ PathOps.name p.

Definition is_processed (p : Path) (r : string) : Prop :=
  r = "Image processed: " +:+ PathOps.name p ∨
  r = "Video processed: " +:+ PathOps.name p.

Definition is_failed (p : Path) (r : string) : Prop :=
  r = "Error: " +:+ PathOps.name p ∨
  r = "FFmpeg Error: " +:+ PathOps.name p.

(** [t] is the tail of [u]. *)
Fixpoint ends_with (t u : string) : bool :=
  String.eqb t u ||
  match u with
  | EmptyString => false
  | String _ u' => ends_with t u'
  end.

(** [thumb_dir / PREVIEW_CONFIG['name']]. *)
Definition preview_path (p : Path) : Path :=
  thumb_dir_of p </> "SYNOPHOTO_THUMB_PREVIEW.jpg".

(** [padded_img] of lines 132-134 for a fitted copy [im]. *)
Definition padded (im : Image) : Image :=
  PIL.paste (PIL.new (120, 120) (0, 0, 0)) im
            ((120 - width im) / 2, (120 - height im) / 2).

(** The size of the image [thumbnail] returns. *)
Definition fits_spec (w h bw bh w' h' : Z) : Prop :=
  w' ≤ bw ∧ h' ≤ bh ∧ 0 < w' ≤ w ∧ 0 < h' ≤ h ∧
  ((w' = w ∧ h' = h) ∨
   (h' = bh ∧ Z.abs (w' * h - bh * w) < h) ∨
   (w' = bw ∧ Z.abs (h' * w - bw * h) < w)).

(** The raster the thumbnails of a task are made from: the decoded and
    transposed image, or the frame [ffmpeg] extracted from the video. *)
Definition base_raster (E : Env) (t : Task) (img : Image) : Prop :=
  match t.1 with
  | Fprocess_image => ∃ img0, exif_transpose E img0 = inr img
  | Fprocess_video => ∃ m, Image_open E (temp_thumb_path_of t.2) m = inr img
  end.

(** The effects recorded between two worlds all satisfy [P]. *)
Definition trace_by (P : Event → Prop) : relation World :=
  fun w w' => ∃ evs, trace w' = trace w ++ evs ∧ Forall P evs.

(** The effect is the creation of a directory. *)
Definition is_mkdir (e : Event) : Prop :=
  match e with EvMkdir _ => True | _ => False end.

(** The log is the same before and after. *)
Definition same_log : relation World := fun w w' => log w' = log w.

(** [film_flv_path] of line 155. *)
Definition film_flv_path_of (p : Path) : Path :=
  thumb_dir_of p </> "SYNOPHOTO:FILM.flv".

(** The image [process_image] decodes from the file (lines 105-114), as a
    function of the file system it reads: the RAW library for a RAW
    extension, else the codec, followed by the conversion to RGB when the
    mode is another one. *)
Definition decoded (E : Env) (file_path : Path) (m : gmap Path Node)
  : Exn + Image :=
  if str_in (suffix_lower file_path) RAW_EXTENSIONS
  then rawpy_imread E file_path m
  else match Image_open E file_path m with
       | inl e => inl e
       | inr img =>
           if bool_decide (mode img ≠ "RGB") then Image_convert E img
           else inr img
       end.

(** [img] is the raster that a run of the task [t] from the world [w]
    makes its thumbnails from.  For an image it is the image decoded from
    the file itself, read once the sidecar directory is made, and
    transposed as its EXIF orientation says; for a video it is the frame
    decoded from the temporary file once the sidecar directory is made and
    the two [ffmpeg] commands have run. *)
Definition source_raster (E : Env) (t : Task) (w : World) (img : Image) : Prop :=
  match t.1 with
  | Fprocess_image =>
      ∃ w1 dec,
        mkdir_parents E (thumb_dir_of t.2) w = (Ok tt, w1) ∧
        decoded E t.2 (fs w1) = inr dec ∧
        exif_transpose E dec = inr img
  | Fprocess_video =>
      ∃ w1 w2 w3,
        mkdir_parents E (thumb_dir_of t.2) w = (Ok tt, w1) ∧
        subprocess_run E (flv_cmd t.2 (film_flv_path_of t.2))
          (film_flv_path_of t.2) w1 = (Ok tt, w2) ∧
        subprocess_run E (thumb_cmd t.2 (temp_thumb_path_of t.2))
          (temp_thumb_path_of t.2) w2 = (Ok tt, w3) ∧
        is_Some (fs w3 !! temp_thumb_path_of t.2) ∧
        Image_open E (temp_thumb_path_of t.2) (fs w3) = inr img
  end.

(** The effect is the writing of an image file. *)
Definition is_save (e : Event) : Prop :=
  match e with EvSave _ _ => True | _ => False end.

(** Later runs of [process_image] on the same file, each in its own
    environment: the results and the world at the end. *)
Fixpoint run_again (Es : list Env) (p : Path) (w : World)
  : list (Result string) * World :=
  match Es with
  | [] => ([], w)
  | E :: Es' =>
      let '(r, w1) := process_image E p w in
      let '(rs, w2) := run_again Es' p w1 in
      (r :: rs, w2)
  end.

(** The [try] block of the processor a task names. *)
Definition try_body (E : Env) (t : Task) : M string :=
  match t.1 with
  | Fprocess_image => process_image_body E t.2
  | Fprocess_video => process_video_body E t.2
  end.

(** The text about an exception that the handler puts in the log. *)
Definition summary_of (f : Func) (e : Exn) : string :=
  match f, e with
  | Fprocess_video, CalledProcessError _ _ err => Str.strip err
  | _, _ => exn_str e
  end.

(** The INFO records of a log, in order. *)
Definition info_records (l : list (Level * string)) : list string :=
  omap (fun '(lv, msg) => match lv with INFO => Some msg | ERROR => None end) l.

(** Neither the INFO records nor the progress bar change. *)
Definition quiet : relation World :=
  fun w w' => info_records (log w') = info_records (log w) ∧ pbar w' = pbar w.

(** The world after the results [rs] have been forwarded to the log and
    the progress bar. *)
Definition forwarded (rs : list string) (w : World) : World :=
  foldl (fun w r => add_pbar 1 (add_log INFO r w)) w rs.

(** The outcome a task can produce. *)
Definition outcome_of (t : Task) (r : string) : Prop :=
  is_skipped t.2 r ∨ is_processed t.2 r ∨ is_failed t.2 r.

(** The files of the specification: below the root, with a known
    extension, and with no directory named [@eaDir] on their path. *)
Definition spec_discovered (root : Path) (m : gmap Path Node) (f : Path) : Prop :=
  (∃ c, m !! f = Some (File c)) ∧
  root `prefix_of` f ∧ f ≠ root ∧
  suffix_lower f ∈ all_extensions ∧
  "@eaDir" ∉ PathOps.parent f.

(** The processor the specification gives a file, by its lower-cased
    extension: the video processor for the video set, the image processor
    for the plain and RAW sets, none for any other file. *)
Definition processor_of (E : Env) (f : Path) : option (M string) :=
  if bool_decide (suffix_lower f ∈ VIDEO_EXTENSIONS)
  then Some (process_video E f)
  else if bool_decide (suffix_lower f ∈ IMAGE_EXTENSIONS ++ RAW_EXTENSIONS)
       then Some (process_image E f)
       else None.

(** The files of [order] processed one after the other, each by the
    processor of the specification; a file that has none is passed over. *)
Fixpoint run_each (E : Env) (order : list Path) (w : World)
  : list (Result string) * World :=
  match order with
  | [] => ([], w)
  | f :: rest =>
      match processor_of E f with
      | Some c =>
          let '(r, w1) := c w in
          let '(rs, w2) := run_each E rest w1 in
          (r :: rs, w2)
      | None => run_each E rest w
      end
  end.

(** A video whose extension is written with the KELVIN SIGN, [.m<U+212A>v]. *)
Definition clip_kelvin : Path :=
  ["photos";
   "clip.m" +:+ String (ascii_of_nat 226) (String (ascii_of_nat 132)
                  (String (ascii_of_nat 170) "v"))].

(** A 2000 by 1000 raster. *)
Definition img_2000x1000 : Image :=
  {| mode := "RGB"; width := 2000; height := 1000; px := fun _ _ => (10, 20, 30) |}.

(** An environment in which every collaborator succeeds. *)
Definition E_ok : Env :=
  {| mkdir_error := fun _ _ => None;
     rawpy_imread := fun _ _ => inr img_2000x1000;
     Image_open := fun _ _ => inr img_2000x1000;
     Image_convert := fun im => inr im;
     exif_transpose := fun im => inr im;
     resample := fun im _ _ x y => px im x y;
     save_error := fun _ _ _ => None;
     ffmpeg := fun _ _ => Exited 0 "" (Some (Blob "ffmpeg output"));
     unlink_error := fun _ _ => None;
     cpu_count := Some 4%nat |}.

(** [ffmpeg] exits with code 1 on every command. *)
Definition E_film_fails : Env :=
  {| mkdir_error := mkdir_error E_ok; rawpy_imread := rawpy_imread E_ok;
     Image_open := Image_open E_ok; Image_convert := Image_convert E_ok;
     exif_transpose := exif_transpose E_ok; resample := resample E_ok;
     save_error := save_error E_ok;
     ffmpeg := fun _ _ => Exited 1 "moov atom not found" None;
     unlink_error := unlink_error E_ok; cpu_count := cpu_count E_ok |}.

(** The command that seeks to a timestamp is the frame extraction. *)
Definition is_extraction (cmd : list string) : bool :=
  match cmd with
  | _ :: _ :: "-ss" :: _ => true
  | _ => false
  end.

(** The filmstrip is written; the frame extraction ends as [r] says. *)
Definition E_extraction (r : SubprocResult) : Env :=
  {| mkdir_error := mkdir_error E_ok; rawpy_imread := rawpy_imread E_ok;
     Image_open := Image_open E_ok; Image_convert := Image_convert E_ok;
     exif_transpose := exif_transpose E_ok; resample := resample E_ok;
     save_error := save_error E_ok;
     ffmpeg := fun cmd _ =>
       if is_extraction cmd then r else Exited 0 "" (Some (Blob "filmstrip"));
     unlink_error := unlink_error E_ok; cpu_count := cpu_count E_ok |}.

(** The extracted frame cannot be decoded. *)
Definition E_bad_frame : Env :=
  {| mkdir_error := mkdir_error E_ok; rawpy_imread := rawpy_imread E_ok;
     Image_open := fun _ _ =>
       inl (PyException "UnidentifiedImageError" "cannot identify image file");
     Image_convert := Image_convert E_ok;
     exif_transpose := exif_transpose E_ok; resample := resample E_ok;
     save_error := save_error E_ok; ffmpeg := ffmpeg E_ok;
     unlink_error := unlink_error E_ok; cpu_count := cpu_count E_ok |}.

(** The disk is full once the first thumbnail has been written. *)
Definition E_disk_full : Env :=
  {| mkdir_error := mkdir_error E_ok; rawpy_imread := rawpy_imread E_ok;
     Image_open := Image_open E_ok; Image_convert := Image_convert E_ok;
     exif_transpose := exif_transpose E_ok; resample := resample E_ok;
     save_error := fun p _ _ =>
       if bool_decide (PathOps.name p = "SYNOPHOTO_THUMB_XL.jpg") then None
       else Some (PyException "OSError" "[Errno 28] No space left on device");
     ffmpeg := ffmpeg E_ok;
     unlink_error := unlink_error E_ok; cpu_count := cpu_count E_ok |}.

(** A photo and a video of the library below. *)
Definition a_jpg : Path := ["photos"; "a.jpg"].
Definition c_mp4 : Path := ["photos"; "c.mp4"].

(** A library with a photo, a video and a text file. *)
Definition w0 : World :=
  {| fs := {[ ["photos"] := Dir;
              a_jpg := File (Blob "jpeg data");
              c_mp4 := File (Blob "mp4 data");
              ["photos"; "notes.txt"] := File (Blob "text") ]};
     log := []; pbar := 0; trace := [] |}.

(** * Start-up: [setup_logging] and the head of [main] *)

(** [path.is_dir()]; the anchor is a directory. *)
Definition path_is_dir (p : Path) : M bool :=
  fun w =>
    (Ok (bool_decide (p = []) ||
         match fs w !! p with
         | Some Dir => true
         | _ => false
         end), w).

(** The file a [logging.FileHandler] opens with [filemode='w']: created, or
    emptied when it exists; [err] is the error the open can meet. *)
Definition open_write (p : Path) (err : option Exn) : M unit :=
  fun w =>
    match fs w !! p with
    | Some Dir => (Raise (PyException "IsADirectoryError" (PathOps.str p)), w)
    | _ =>
        match err with
        | Some e => (Raise e, w)
        | None => (Ok tt, set_fs (insert p (File (Blob ""))) w)
        end
    end.

(** [f"synothumb_{timestamp}.log"] below [Path("logs")] (lines 73-76). *)
Definition log_filename_of (timestamp : string) : Path :=
  ["logs"] </> ("synothumb_" +:+ timestamp +:+ ".log").

(** [x] is the path of a log file of the script, whatever the time it
    was started at.  What the script appends to its log file is in the
    [log] of the world, not in [fs]. *)
Definition is_log_file (x : Path) : Prop :=
  ∃ timestamp, x = log_filename_of timestamp.

(** [setup_logging] (lines 71-89).  [timestamp] is what
    [datetime.now().strftime("%Y%m%d_%H%M%S")] returned.  The handler that
    copies the errors to the console is outside the model. *)
Definition setup_logging (E : Env) (timestamp : string)
    (open_error : option Exn) : M Path :=
  let log_dir := ["logs"] in
  mkdir_one E log_dir;;
  let log_filename := log_filename_of timestamp in
  open_write log_filename open_error;;
  mret log_filename.

(** [main] as the script runs it (lines 196-247): the checks of the
    arguments, the logging set-up, then the discovery and the pool.
    [to_path] is the constructor [Path] of [pathlib]. *)
Definition script (E : Env) (to_path : string → Path) (argv : list string)
    (timestamp : string) (open_error : option Exn)
    (schedule : list Task → list Task) : M MainResult :=
  match argv with
  | _ :: arg :: _ =>
      let root_dir := to_path arg in
      ok ← path_is_dir root_dir;
      if negb ok then mret (SysExit 1)
      else
        _ ← setup_logging E timestamp open_error;
        logging_info ("Script started in directory: " +:+ PathOps.str root_dir);;
        main E root_dir schedule
  | _ => mret (SysExit 1)
  end.

(** * Vocabulary of the further properties *)

(** An entry that exists at [x] is the same before and after. *)
Definition kept (x : Path) : relation World :=
  fun w w' => is_Some (fs w !! x) → fs w' !! x = fs w !! x.

(** The environment [E] with another image opener and converter. *)
Definition with_codec (E : Env) (open : Path → gmap Path Node → Exn + Image)
    (convert : Image → Exn + Image) : Env :=
  {| mkdir_error := mkdir_error E; rawpy_imread := rawpy_imread E;
     Image_open := open; Image_convert := convert;
     exif_transpose := exif_transpose E; resample := resample E;
     save_error := save_error E; ffmpeg := ffmpeg E;
     unlink_error := unlink_error E; cpu_count := cpu_count E |}.

(** The environment [E] with another RAW library. *)
Definition with_rawpy (E : Env) (imread : Path → gmap Path Node → Exn + Image)
    : Env :=
  {| mkdir_error := mkdir_error E; rawpy_imread := imread;
     Image_open := Image_open E; Image_convert := Image_convert E;
     exif_transpose := exif_transpose E; resample := resample E;
     save_error := save_error E; ffmpeg := ffmpeg E;
     unlink_error := unlink_error E; cpu_count := cpu_count E |}.

(** The saves of the loop over [THUMBNAIL_CONFIG], in order. *)
Definition standard_saves (d : Path) : list Event :=
  List.map (fun '(name, _) => EvSave (d </> name) 95) THUMBNAIL_CONFIG.

(** A library in which a regular file sits where the sidecar directories
    of [photos] should be. *)
Definition w_blocked : World :=
  {| fs := {[ ["photos"] := Dir;
              ["photos"; "@eaDir"] := File (Blob "not a directory");
              a_jpg := File (Blob "jpeg data");
              c_mp4 := File (Blob "mp4 data") ]};
     log := []; pbar := 0; trace := [] |}.

(** A working directory in which [logs] is a regular file. *)
Definition w_logs_is_file : World :=
  {| fs := {[ ["logs"] := File (Blob "old notes");
              ["photos"] := Dir;
              a_jpg := File (Blob "jpeg data") ]};
     log := []; pbar := 0; trace := [] |}.

(** * Properties *)

(** ** The monad *)

Lemma bind_ok {A B} (c : M A) (k : A → M B) w a w1 :
  c w = (Ok a, w1) → (c ≫= k) w = k a w1.
Proof. intros H. unfold mbind, M_bind, bind. by rewrite H. Qed.

Lemma bind_raise {A B} (c : M A) (k : A → M B) w e w1 :
  c w = (Raise e, w1) → (c ≫= k) w = (Raise e, w1).
Proof. intros H. unfold mbind, M_bind, bind. by rewrite H. Qed.

Lemma bind_inv {A B} (c : M A) (k : A → M B) w r w2 :
  (c ≫= k) w = (r, w2) →
  (∃ a w1, c w = (Ok a, w1) ∧ k a w1 = (r, w2)) ∨
  (∃ e, c w = (Raise e, w2) ∧ r = Raise e).
Proof.
  unfold mbind, M_bind, bind. destruct (c w) as [[a|e] w1]; intros H.
  - left. eauto.
  - right. exists e. by inversion H.
Qed.

Lemma bind_inv_ok {A B} (c : M A) (k : A → M B) w b w2 :
  (c ≫= k) w = (Ok b, w2) →
  ∃ a w1, c w = (Ok a, w1) ∧ k a w1 = (Ok b, w2).
Proof.
  intros H. apply bind_inv in H as [H | (e & _ & H)]; [done | discriminate].
Qed.

(** ** Computations that move the world along a preorder *)

Section Steps.

Context (T : relation World) `{!PreOrder T}.

Lemma steps_ret {A} (a : A) : steps T (mret a).
Proof. intros w. simpl. reflexivity. Qed.

Lemma steps_raise {A} e : steps T (@raise A e).
Proof. intros w. simpl. reflexivity. Qed.

Lemma steps_bind {A B} (c : M A) (k : A → M B) :
  steps T c → (∀ a, steps T (k a)) → steps T (c ≫= k).
Proof.
  intros Hc Hk w. specialize (Hc w).
  unfold mbind, M_bind, bind. destruct (c w) as [[a|e] w1]; simpl in *.
  - etrans; [exact Hc | apply Hk].
  - exact Hc.
Qed.

Lemma steps_try_except {A} (c : M A) (h : Exn → M A) :
  steps T c → (∀ e, steps T (h e)) → steps T (try_except c h).
Proof.
  intros Hc Hh w. specialize (Hc w).
  unfold try_except. destruct (c w) as [[a|e] w1]; simpl in *.
  - exact Hc.
  - etrans; [exact Hc | apply Hh].
Qed.

Lemma steps_for_each {A} (l : list A) (body : A → M unit) :
  (∀ x, x ∈ l → steps T (body x)) → steps T (for_each l body).
Proof.
  induction l as [|x l IH]; intros H; simpl.
  - apply steps_ret.
  - apply steps_bind.
    + apply H. left.
    + intros _. apply IH. intros y Hy. apply H. by right.
Qed.

Lemma steps_lift {A} (r : Exn + A) : steps T (lift r).
Proof. destruct r; [apply steps_raise | apply steps_ret]. Qed.

Lemma steps_lift_fs {A} (f : gmap Path Node → Exn + A) : steps T (lift_fs f).
Proof. intros w. unfold lift_fs. apply steps_lift. Qed.

Lemma steps_path_exists p : steps T (path_exists p).
Proof. intros w. simpl. reflexivity. Qed.

Lemma steps_first_key : steps T first_key.
Proof. apply steps_ret. Qed.

Lemma steps_future_result r : steps T (future_result r).
Proof. destruct r; [apply steps_ret | apply steps_raise]. Qed.

End Steps.

(** ** Frame: what a processor leaves untouched *)

#[global] Instance same_at_preorder x : PreOrder (same_at x).
Proof.
  split.
  - by intros w.
  - intros w1 w2 w3 H1 H2. unfold same_at in *. congruence.
Qed.

Section Frame.

Variable E : Env.
Variable x : Path.

Lemma same_at_modify_log (f : World → World) :
  (∀ w, fs (f w) = fs w) → steps (same_at x) (modify f).
Proof. intros H w. unfold same_at. simpl. by rewrite H. Qed.

Lemma same_at_logging_error msg : steps (same_at x) (logging_error msg).
Proof. by apply same_at_modify_log. Qed.

Lemma same_at_logging_info msg : steps (same_at x) (logging_info msg).
Proof. by apply same_at_modify_log. Qed.

Lemma same_at_mkdir_one q : x ≠ q → steps (same_at x) (mkdir_one E q).
Proof.
  intros Hne w. unfold same_at, mkdir_one.
  destruct (fs w !! q) as [[|c]|]; simpl; [done | done |].
  destruct (mkdir_error E q (fs w)); simpl; [done |].
  by rewrite lookup_insert_ne.
Qed.

Lemma same_at_mkdir_parents p :
  x ∉ prefixes p → steps (same_at x) (mkdir_parents E p).
Proof.
  intros Hx. apply steps_for_each; [apply _ |].
  intros q Hq. apply same_at_mkdir_one. intros ->. by apply Hx.
Qed.

Lemma same_at_save im p q : x ≠ p → steps (same_at x) (save E im p q).
Proof.
  intros Hne w. unfold same_at, save.
  destruct (fs w !! p) as [[|c]|]; simpl; [done | |];
    (destruct (save_error E p im (fs w)); simpl; [done |]);
    by rewrite lookup_insert_ne.
Qed.

Lemma same_at_subprocess_run cmd out :
  x ≠ out → steps (same_at x) (subprocess_run E cmd out).
Proof.
  intros Hne w. unfold same_at, subprocess_run.
  destruct (ffmpeg E cmd (fs w)) as [msg | rc err [c|]]; simpl; [done | |];
    destruct (rc =? 0); simpl; try done; by rewrite lookup_insert_ne.
Qed.

Lemma same_at_unlink p : x ≠ p → steps (same_at x) (unlink E p).
Proof.
  intros Hne w. unfold same_at, unlink.
  destruct (fs w !! p) as [[|c]|]; simpl; [done | | done].
  destruct (unlink_error E p (fs w)); simpl; [done |].
  by rewrite lookup_delete_ne.
Qed.

Lemma same_at_standard_thumbnails img d :
  (∀ c, x ≠ d </> c) → steps (same_at x) (standard_thumbnails E img d).
Proof.
  intros Hx. apply steps_for_each; [apply _ |].
  intros [name size] _. apply steps_bind; [apply _ | apply steps_lift; apply _ |].
  intros im. by apply same_at_save.
Qed.

Lemma same_at_render_image p :
  outside (thumb_dir_of p) x → steps (same_at x) (render_image E p).
Proof.
  intros [Hpre Hch]. unfold render_image.
  apply steps_bind; [apply _ | by apply same_at_mkdir_parents |]. intros _.
  apply steps_bind; [apply _ | |].
  { case_match; [apply steps_lift_fs; apply _ |].
    apply steps_bind; [apply _ | apply steps_lift_fs; apply _ |]. intros img.
    case_match; [apply steps_lift | apply steps_ret]; apply _. }
  intros img0.
  apply steps_bind; [apply _ | apply steps_lift; apply _ |]. intros img.
  apply steps_bind; [apply _ | by apply same_at_standard_thumbnails |]. intros _.
  apply steps_bind; [apply _ | apply steps_lift; apply _ |]. intros im.
  apply steps_bind; [apply _ | by apply same_at_save |]. intros _.
  apply steps_ret; apply _.
Qed.

Lemma same_at_process_image_body p :
  outside (thumb_dir_of p) x → steps (same_at x) (process_image_body E p).
Proof.
  intros Hx. unfold process_image_body.
  apply steps_bind; [apply _ | apply steps_first_key; apply _ |]. intros marker.
  apply steps_bind; [apply _ | apply steps_path_exists; apply _ |]. intros [|].
  - apply steps_ret; apply _.
  - by apply same_at_render_image.
Qed.

Lemma same_at_process_image p :
  outside (thumb_dir_of p) x → steps (same_at x) (process_image E p).
Proof.
  intros Hx. apply steps_try_except; [apply _ | by apply same_at_process_image_body |].
  intros e. apply steps_bind; [apply _ | apply same_at_logging_error |].
  intros _. apply steps_ret; apply _.
Qed.

Lemma same_at_extract_and_resize p :
  (∀ c, x ≠ thumb_dir_of p </> c) → steps (same_at x) (extract_and_resize E p).
Proof.
  intros Hch. unfold extract_and_resize, temp_thumb_path_of.
  apply steps_bind; [apply _ | by apply same_at_subprocess_run |]. intros _.
  apply steps_bind; [apply _ | apply steps_path_exists; apply _ |]. intros [|]; simpl.
  - apply steps_bind; [apply _ | apply steps_lift_fs; apply _ |]. intros img.
    apply steps_bind; [apply _ | by apply same_at_standard_thumbnails |]. intros _.
    by apply same_at_unlink.
  - apply steps_raise; apply _.
Qed.

Lemma same_at_render_video p :
  outside (thumb_dir_of p) x → steps (same_at x) (render_video E p).
Proof.
  intros [Hpre Hch]. unfold render_video.
  apply steps_bind; [apply _ | by apply same_at_mkdir_parents |]. intros _.
  apply steps_bind; [apply _ | by apply same_at_subprocess_run |]. intros _.
  apply steps_bind; [apply _ | by apply same_at_extract_and_resize |]. intros _.
  apply steps_ret; apply _.
Qed.

Lemma same_at_process_video_body p :
  outside (thumb_dir_of p) x → steps (same_at x) (process_video_body E p).
Proof.
  intros Hx. unfold process_video_body.
  apply steps_bind; [apply _ | apply steps_first_key; apply _ |]. intros marker.
  apply steps_bind; [apply _ | apply steps_path_exists; apply _ |]. intros [|].
  - apply steps_ret; apply _.
  - by apply same_at_render_video.
Qed.

Lemma same_at_process_video_handler p e :
  steps (same_at x) (process_video_handler p e).
Proof.
  destruct e; simpl;
    (apply steps_bind; [apply _ | apply same_at_logging_error |]);
    intros _; apply steps_ret; apply _.
Qed.

Lemma same_at_process_video p :
  outside (thumb_dir_of p) x → steps (same_at x) (process_video E p).
Proof.
  intros Hx. apply steps_try_except; [apply _ | by apply same_at_process_video_body |].
  intros e. apply same_at_process_video_handler.
Qed.

Lemma same_at_call t :
  outside (thumb_dir_of (snd t)) x → steps (same_at x) (call E t).
Proof.
  destruct t as [[|] p]; simpl; intros Hx.
  - by apply same_at_process_image.
  - by apply same_at_process_video.
Qed.

End Frame.

(** ** The skip test *)

Lemma process_image_body_skip E p w :
  is_Some (fs w !! marker_path p) →
  process_image_body E p w =
    (Ok ("Skipped (already exists): " +:+ PathOps.name p), w).
Proof.
  intros H. unfold process_image_body.
  rewrite (bind_ok first_key _ w "SYNOPHOTO_THUMB_XL.jpg" w); [| done].
  rewrite (bind_ok (path_exists _) _ w true w); [done |].
  unfold path_exists. by rewrite bool_decide_eq_true_2.
Qed.

Lemma process_image_body_render E p w :
  fs w !! marker_path p = None →
  process_image_body E p w = render_image E p w.
Proof.
  intros H. unfold process_image_body.
  rewrite (bind_ok first_key _ w "SYNOPHOTO_THUMB_XL.jpg" w); [| done].
  rewrite (bind_ok (path_exists _) _ w false w); [done |].
  unfold path_exists. rewrite bool_decide_eq_false_2; [done |].
  fold (marker_path p). rewrite H. by intros [? ?].
Qed.

Lemma process_video_body_skip E p w :
  is_Some (fs w !! marker_path p) →
  process_video_body E p w =
    (Ok ("Skipped (already exists): " +:+ PathOps.name p), w).
Proof.
  intros H. unfold process_video_body.
  rewrite (bind_ok first_key _ w "SYNOPHOTO_THUMB_XL.jpg" w); [| done].
  rewrite (bind_ok (path_exists _) _ w true w); [done |].
  unfold path_exists. by rewrite bool_decide_eq_true_2.
Qed.

Lemma process_video_body_render E p w :
  fs w !! marker_path p = None →
  process_video_body E p w = render_video E p w.
Proof.
  intros H. unfold process_video_body.
  rewrite (bind_ok first_key _ w "SYNOPHOTO_THUMB_XL.jpg" w); [| done].
  rewrite (bind_ok (path_exists _) _ w false w); [done |].
  unfold path_exists. rewrite bool_decide_eq_false_2; [done |].
  fold (marker_path p). rewrite H. by intros [? ?].
Qed.

Lemma call_skip E t w :
  is_Some (fs w !! marker_path t.2) →
  call E t w = (Ok ("Skipped (already exists): " +:+ PathOps.name t.2), w).
Proof.
  destruct t as [[|] p]; intros H; cbn [snd] in *.
  - change (call E (Fprocess_image, p)) with (process_image E p).
    unfold process_image, try_except. by rewrite process_image_body_skip.
  - change (call E (Fprocess_video, p)) with (process_video E p).
    unfold process_video, try_except. by rewrite process_video_body_skip.
Qed.

(** ** What a successful run has written *)

Lemma lift_inv_ok {A} (r : Exn + A) w a w' :
  lift r w = (Ok a, w') → r = inr a ∧ w' = w.
Proof. destruct r; simpl; intros H; by inversion H. Qed.

Lemma lift_fs_inv_ok {A} (f : gmap Path Node → Exn + A) w a w' :
  lift_fs f w = (Ok a, w') → f (fs w) = inr a ∧ w' = w.
Proof. unfold lift_fs. apply lift_inv_ok. Qed.

Lemma save_inv_ok E im p q w u w' :
  save E im p q w = (Ok u, w') →
  w' = add_event (EvSave p q) (set_fs (insert p (File (Jpeg q im))) w).
Proof.
  unfold save. intros H.
  destruct (fs w !! p) as [[|c]|]; [done | |];
    destruct (save_error E p im (fs w)); by inversion H.
Qed.

Lemma child_inj (d : Path) a b : d </> a = d </> b → a = b.
Proof. unfold PathOps.child. intros H. apply app_inv_head in H. by inversion H. Qed.

(** The loop over a table of distinct names leaves, for every entry, the
    thumbnail of the base image under the entry's name, at quality 95. *)
Lemma thumbnail_loop_ok E img d (l : list (string * (Z * Z))) w u w' :
  NoDup l.*1 →
  for_each l (fun '(name, size) =>
     img_copy ← lift (thumbnail E img size);
     save E img_copy (d </> name) 95) w = (Ok u, w') →
  ∀ name size, (name, size) ∈ l →
    ∃ im, thumbnail E img size = inr im ∧
          fs w' !! (d </> name) = Some (File (Jpeg 95 im)).
Proof.
  revert w. induction l as [|[n s] l IH]; intros w Hnd H name size Hin.
  { by apply elem_of_nil in Hin. }
  simpl in H. apply NoDup_cons in Hnd as [Hn Hnd].
  apply bind_inv_ok in H as ([] & w1 & Hhead & Hrest).
  apply bind_inv_ok in Hhead as (im & w0 & Hth & Hsave).
  apply lift_inv_ok in Hth as [Hth ->].
  apply save_inv_ok in Hsave.
  apply elem_of_cons in Hin as [Heq | Hin].
  - inversion Heq; subst name size. exists im. split; [done |].
    assert (Hsame : same_at (d </> n) w1 w').
    { pose proof (steps_for_each (same_at (d </> n)) l
        (fun '(name, size) =>
           img_copy ← lift (thumbnail E img size);
           save E img_copy (d </> name) 95)) as Hs.
      unfold steps in Hs. specialize (Hs ltac:(
        intros [n' s'] Hin'; apply steps_bind; [apply _ | apply steps_lift; apply _ |];
        intros im'; apply same_at_save; intros Heq'; apply child_inj in Heq';
        subst n'; apply Hn; apply (list_elem_of_fmap_2 fst _ _ Hin')) w1).
      by rewrite Hrest in Hs. }
    unfold same_at in Hsame. rewrite Hsame, Hsave. simpl.
    apply lookup_insert_eq.
  - by apply (IH w1).
Qed.

Lemma THUMBNAIL_CONFIG_NoDup : NoDup THUMBNAIL_CONFIG.*1.
Proof. apply (bool_decide_unpack _). by vm_compute. Qed.

Lemma standard_thumbnails_ok E img d w u w' :
  standard_thumbnails E img d w = (Ok u, w') →
  ∀ name size, (name, size) ∈ THUMBNAIL_CONFIG →
    ∃ im, thumbnail E img size = inr im ∧
          fs w' !! (d </> name) = Some (File (Jpeg 95 im)).
Proof. apply thumbnail_loop_ok, THUMBNAIL_CONFIG_NoDup. Qed.

Lemma ends_with_app s t : ends_with t (s +:+ t) = true.
Proof.
  induction s as [|a s IH]; simpl.
  - destruct t; simpl; by rewrite ?String.eqb_refl, ?Ascii.eqb_refl.
  - rewrite IH. apply orb_true_r.
Qed.

(** The temporary frame of a video is none of the standard thumbnails. *)
Lemma temp_name_not_standard stem name :
  name ∈ THUMBNAIL_CONFIG.*1 → stem +:+ "_temp.jpg" ≠ name.
Proof.
  intros Hin Heq. pose proof (ends_with_app stem "_temp.jpg") as H.
  rewrite Heq in H. clear Heq.
  repeat (apply elem_of_cons in Hin as [-> | Hin]; [by vm_compute in H |]).
  by apply elem_of_nil in Hin.
Qed.

Lemma render_image_inv_ok E p w r w' :
  render_image E p w = (Ok r, w') →
  r = "Image processed: " +:+ PathOps.name p ∧
  ∃ img0 img im w1 w2,
    mkdir_parents E (thumb_dir_of p) w = (Ok tt, w1) ∧
    exif_transpose E img0 = inr img ∧
    standard_thumbnails E img (thumb_dir_of p) w1 = (Ok tt, w2) ∧
    thumbnail E img (120, 120) = inr im ∧
    w' = add_event (EvSave (preview_path p) 90)
           (set_fs (insert (preview_path p) (File (Jpeg 90 (padded im)))) w2).
Proof.
  unfold render_image. intros H.
  apply bind_inv_ok in H as ([] & w1 & Hmk & H).
  apply bind_inv_ok in H as (img0 & w1' & Hdec & H).
  assert (w1' = w1) as ->.
  { destruct (str_in _ _).
    - by apply lift_fs_inv_ok in Hdec as [_ ->].
    - apply bind_inv_ok in Hdec as (i & w0 & Hop & Hcv).
      apply lift_fs_inv_ok in Hop as [_ ->].
      destruct (bool_decide _).
      + by apply lift_inv_ok in Hcv as [_ ->].
      + by inversion Hcv. }
  apply bind_inv_ok in H as (img & w0 & Htr & H).
  apply lift_inv_ok in Htr as [Htr ->].
  apply bind_inv_ok in H as ([] & w2 & Hstd & H).
  apply bind_inv_ok in H as (im & w0 & Hth & H).
  apply lift_inv_ok in Hth as [Hth ->].
  apply bind_inv_ok in H as ([] & w3 & Hsave & H).
  apply save_inv_ok in Hsave. inversion H; subst r w3.
  split; [done |]. by exists img0, img, im, w1, w2.
Qed.

Lemma unlink_inv_ok E p w u w' :
  unlink E p w = (Ok u, w') →
  w' = add_event (EvUnlink p) (set_fs (delete p) w).
Proof.
  unfold unlink. intros H.
  destruct (fs w !! p) as [[|c]|]; [done | | done].
  destruct (unlink_error E p (fs w)); by inversion H.
Qed.

Lemma extract_and_resize_inv_ok E p w u w' :
  extract_and_resize E p w = (Ok u, w') →
  ∃ img w3 w4,
    subprocess_run E (thumb_cmd p (temp_thumb_path_of p)) (temp_thumb_path_of p) w
      = (Ok tt, w3) ∧
    is_Some (fs w3 !! temp_thumb_path_of p) ∧
    Image_open E (temp_thumb_path_of p) (fs w3) = inr img ∧
    standard_thumbnails E img (thumb_dir_of p) w3 = (Ok tt, w4) ∧
    w' = add_event (EvUnlink (temp_thumb_path_of p))
           (set_fs (delete (temp_thumb_path_of p)) w4).
Proof.
  unfold extract_and_resize. intros H.
  apply bind_inv_ok in H as ([] & w3 & Hrun & H).
  apply bind_inv_ok in H as (found & w0 & Hex & H).
  unfold path_exists in Hex. inversion Hex; subst found w0. clear Hex.
  destruct (bool_decide (is_Some (fs w3 !! temp_thumb_path_of p))) eqn:Hfound;
    simpl in H; [| done].
  apply bool_decide_eq_true_1 in Hfound.
  apply bind_inv_ok in H as (img & w0 & Hop & H).
  apply lift_fs_inv_ok in Hop as [Hop ->].
  apply bind_inv_ok in H as ([] & w4 & Hstd & H).
  apply unlink_inv_ok in H.
  by exists img, w3, w4.
Qed.

Lemma render_video_inv_ok E p w r w' :
  render_video E p w = (Ok r, w') →
  r = "Video processed: " +:+ PathOps.name p ∧
  ∃ w1 w2 u,
    mkdir_parents E (thumb_dir_of p) w = (Ok tt, w1) ∧
    subprocess_run E
      (flv_cmd p (thumb_dir_of p </> "SYNOPHOTO:FILM.flv"))
      (thumb_dir_of p </> "SYNOPHOTO:FILM.flv") w1 = (Ok tt, w2) ∧
    extract_and_resize E p w2 = (Ok u, w').
Proof.
  unfold render_video. intros H.
  apply bind_inv_ok in H as ([] & w1 & Hmk & H).
  apply bind_inv_ok in H as ([] & w2 & Hflv & H).
  apply bind_inv_ok in H as (u & w3 & Hex & H).
  inversion H; subst r w3. split; [done |]. by exists w1, w2, u.
Qed.

Lemma preview_name_not_standard name :
  name ∈ THUMBNAIL_CONFIG.*1 → "SYNOPHOTO_THUMB_PREVIEW.jpg" ≠ name.
Proof.
  intros Hin.
  repeat (apply elem_of_cons in Hin as [-> | Hin]; [done |]).
  by apply elem_of_nil in Hin.
Qed.

(** After a successful [render_image] every standard thumbnail and the
    preview are in the sidecar directory, all made from one base raster. *)
Lemma render_image_files E p w r w' :
  render_image E p w = (Ok r, w') →
  ∃ img0 img : Image,
    exif_transpose E img0 = inr img ∧
    (∀ name size, (name, size) ∈ THUMBNAIL_CONFIG →
       ∃ im, thumbnail E img size = inr im ∧
             fs w' !! (thumb_dir_of p </> name) = Some (File (Jpeg 95 im))) ∧
    (∃ im, thumbnail E img (120, 120) = inr im ∧
           fs w' !! preview_path p = Some (File (Jpeg 90 (padded im)))).
Proof.
  intros H. apply render_image_inv_ok in H
    as (_ & img0 & img & im & w1 & w2 & _ & Htr & Hstd & Hth & ->).
  exists img0, img. split; [done |]. split.
  - intros name size Hin.
    destruct (standard_thumbnails_ok _ _ _ _ _ _ Hstd name size Hin) as (im' & Him & Hf).
    exists im'. split; [done |]. simpl.
    rewrite lookup_insert_ne; [done |].
    intros Heq. apply child_inj in Heq.
    by apply (preview_name_not_standard name); [apply (list_elem_of_fmap_2 fst _ _ Hin) |].
  - exists im. split; [done |]. simpl. apply lookup_insert_eq.
Qed.

(** After a successful [render_video] every standard thumbnail is in the
    sidecar directory, made from the extracted frame. *)
Lemma render_video_files E p w r w' :
  render_video E p w = (Ok r, w') →
  ∃ (img : Image) w3,
    Image_open E (temp_thumb_path_of p) (fs w3) = inr img ∧
    (∀ name size, (name, size) ∈ THUMBNAIL_CONFIG →
       ∃ im, thumbnail E img size = inr im ∧
             fs w' !! (thumb_dir_of p </> name) = Some (File (Jpeg 95 im))).
Proof.
  intros H. apply render_video_inv_ok in H as (_ & w1 & w2 & u & _ & _ & H).
  apply extract_and_resize_inv_ok in H as (img & w3 & w4 & _ & _ & Hop & Hstd & ->).
  exists img, w3. split; [done |].
  intros name size Hin.
  destruct (standard_thumbnails_ok _ _ _ _ _ _ Hstd name size Hin) as (im' & Him & Hf).
  exists im'. split; [done |]. simpl.
  rewrite lookup_delete_ne; [done |].
  unfold temp_thumb_path_of. intros Heq. apply child_inj in Heq.
  by apply (temp_name_not_standard (PathOps.stem p) name);
    [apply (list_elem_of_fmap_2 fst _ _ Hin) |].
Qed.

Lemma marker_in_config :
  ("SYNOPHOTO_THUMB_XL.jpg", (1280, 1280)) ∈ THUMBNAIL_CONFIG.
Proof. left. Qed.

(** What [call] returns when it returns a "processed" string: the render
    ran to its end. *)
Lemma call_processed_inv E t w r w' :
  call E t w = (Ok r, w') → is_processed t.2 r →
  fs w !! marker_path t.2 = None ∧
  ((t.1 = Fprocess_image ∧ render_image E t.2 w = (Ok r, w')) ∨
   (t.1 = Fprocess_video ∧ render_video E t.2 w = (Ok r, w'))).
Proof.
  destruct t as [[|] p]; cbn [fst snd]; intros H Hr.
  - change (call E (Fprocess_image, p)) with (process_image E p) in H.
    unfold process_image, try_except in H.
    destruct (fs w !! marker_path p) as [n|] eqn:Hm.
    { rewrite process_image_body_skip in H by (by rewrite Hm).
      inversion H; subst. by destruct Hr. }
    split; [done |]. left. split; [done |].
    rewrite process_image_body_render in H by done.
    destruct (render_image E p w) as [[a|e] w1]; [done |].
    simpl in H. inversion H; subst. by destruct Hr.
  - change (call E (Fprocess_video, p)) with (process_video E p) in H.
    unfold process_video, try_except in H.
    destruct (fs w !! marker_path p) as [n|] eqn:Hm.
    { rewrite process_video_body_skip in H by (by rewrite Hm).
      inversion H; subst. by destruct Hr. }
    split; [done |]. right. split; [done |].
    rewrite process_video_body_render in H by done.
    destruct (render_video E p w) as [[a|e] w1]; [done |].
    destruct e; simpl in H; inversion H; subst; by destruct Hr.
Qed.

Lemma call_processed_marker E t w r w' :
  call E t w = (Ok r, w') → is_processed t.2 r →
  is_Some (fs w' !! marker_path t.2).
Proof.
  intros H Hr.
  destruct (call_processed_inv _ _ _ _ _ H Hr) as [_ [[_ Hi] | [_ Hv]]].
  - apply render_image_files in Hi as (_ & img & _ & Hstd & _).
    destruct (Hstd _ _ marker_in_config) as (im & _ & Hf). by eexists.
  - apply render_video_files in Hv as (img & _ & _ & Hstd).
    destruct (Hstd _ _ marker_in_config) as (im & _ & Hf). by eexists.
Qed.

(** C1. When the existence marker [SYNOPHOTO_THUMB_XL.jpg] of a file is in
    its sidecar directory, or when the world is the one an earlier
    processed or skipped run of the same task left, the processor returns
    the Skipped outcome and the world (file system, log, record of effects)
    is exactly the one it started from: no directory made, no file written
    or overwritten.  A second run is therefore Skipped and changes
    nothing. *)
Theorem skip_no_side_effects E t w :
  (is_Some (fs w !! marker_path t.2) ∨
   ∃ E0 w0 r, call E0 t w0 = (Ok r, w) ∧ (is_processed t.2 r ∨ is_skipped t.2 r)) →
  ∃ r', call E t w = (Ok r', w) ∧ is_skipped t.2 r'.
Proof.
  intros H.
  assert (Hm : is_Some (fs w !! marker_path t.2)).
  { destruct H as [H | (E0 & w0 & r & Hrun & [Hp | Hs])]; [done | |].
    - by apply (call_processed_marker E0 t w0 r w).
    - destruct (fs w0 !! marker_path t.2) as [n|] eqn:Hm0.
      + rewrite call_skip in Hrun by (by rewrite Hm0).
        inversion Hrun; subst. by rewrite Hm0.
      + exfalso. unfold is_skipped in Hs. subst r.
        destruct t as [[|] p]; cbn [fst snd] in *.
        * change (call E0 (Fprocess_image, p)) with (process_image E0 p) in Hrun.
          unfold process_image, try_except in Hrun.
          rewrite process_image_body_render in Hrun by done.
          destruct (render_image E0 p w0) as [[a|e] w1] eqn:Hr.
          -- apply render_image_inv_ok in Hr as [-> _]. by inversion Hrun.
          -- simpl in Hrun. by inversion Hrun.
        * change (call E0 (Fprocess_video, p)) with (process_video E0 p) in Hrun.
          unfold process_video, try_except in Hrun.
          rewrite process_video_body_render in Hrun by done.
          destruct (render_video E0 p w0) as [[a|e] w1] eqn:Hr.
          -- apply render_video_inv_ok in Hr as [-> _]. by inversion Hrun.
          -- destruct e; simpl in Hrun; by inversion Hrun. }
  eexists. split; [by apply call_skip | done].
Qed.

(** ** Sizes of the thumbnails *)

Lemma floor_div_bounds a b : 0 < b → b * (a / b) ≤ a < b * (a / b) + b.
Proof.
  intros Hb. pose proof (Z.mul_div_le a b Hb).
  pose proof (Z.mul_succ_div_gt a b Hb). lia.
Qed.

Lemma ceil_div_bounds a b :
  0 < b → a ≤ b * PIL.ceil_div a b < a + b.
Proof.
  intros Hb. unfold PIL.ceil_div.
  pose proof (floor_div_bounds (- a) b Hb). lia.
Qed.

Lemma geb_false a b : (a >=? b) = false → a < b.
Proof. rewrite Z.geb_leb. apply Z.leb_gt. Qed.

(** The fitted size: inside the box, not larger than the image, one side
    equal to the side of the box and the other within one pixel of the
    proportional value. *)
Lemma preserve_aspect_ratio_spec w h x y x' y' :
  0 < w → 0 < h → 0 < x → 0 < y →
  PIL.preserve_aspect_ratio w h x y = Some (x', y') →
  0 < x' ≤ x ∧ 0 < y' ≤ y ∧ x' ≤ w ∧ y' ≤ h ∧
  ((y' = y ∧ Z.abs (x' * h - y * w) < h) ∨
   (x' = x ∧ Z.abs (y' * w - x * h) < w)).
Proof.
  intros Hw Hh Hx Hy. unfold PIL.preserve_aspect_ratio.
  destruct ((x >=? w) && (y >=? h)) eqn:Hfit; [done |].
  apply andb_false_iff in Hfit.
  destruct (x * h >=? w * y) eqn:Hbr.
  - apply Z.geb_le in Hbr.
    pose proof (floor_div_bounds (y * w) h Hh) as Hf.
    pose proof (ceil_div_bounds (y * w) h Hh) as Hc.
    set (f := y * w / h) in *. set (c := PIL.ceil_div (y * w) h) in *.
    assert (Hyh : y < h).
    { destruct Hfit as [H | H]; apply geb_false in H; [nia | lia]. }
    assert (0 ≤ f) by nia. assert (1 ≤ c) by nia.
    assert (c ≤ x) by nia. assert (f ≤ c) by nia.
    assert (c ≤ w) by nia.
    intros H'. inversion H'; subst x' y'. clear H'.
    destruct (Z.abs (w * y - f * h) <=? Z.abs (w * y - c * h));
      (split; [lia |]); (split; [lia |]); (split; [lia |]); (split; [lia |]);
      left; (split; [done |]).
    + destruct (Z.max_spec f 1) as [[? ->] | [? ->]]; nia.
    + destruct (Z.max_spec c 1) as [[? ->] | [? ->]]; nia.
  - apply geb_false in Hbr.
    pose proof (floor_div_bounds (x * h) w Hw) as Hf.
    pose proof (ceil_div_bounds (x * h) w Hw) as Hc.
    set (f := x * h / w) in *. set (c := PIL.ceil_div (x * h) w) in *.
    assert (Hxw : x < w).
    { destruct Hfit as [H | H]; apply geb_false in H; [lia | nia]. }
    assert (0 ≤ f) by nia. assert (1 ≤ c) by nia.
    assert (c ≤ y) by nia. assert (f ≤ c) by nia.
    assert (c ≤ h) by nia.
    intros H'. inversion H'; subst x' y'. clear H'.
    destruct (f =? 0) eqn:Hf0;
      [apply Z.eqb_eq in Hf0
      | destruct (Z.abs (w * f - x * h) * c <=? Z.abs (w * c - x * h) * f)];
      (split; [lia |]); (split; [lia |]); (split; [lia |]); (split; [lia |]);
      right; (split; [done |]).
    + rewrite Hf0 in *. simpl. nia.
    + destruct (Z.max_spec f 1) as [[? ->] | [? ->]]; nia.
    + destruct (Z.max_spec c 1) as [[? ->] | [? ->]]; nia.
Qed.

Lemma thumbnail_fits E img bw bh im :
  0 < width img → 0 < height img → 0 < bw → 0 < bh →
  thumbnail E img (bw, bh) = inr im →
  fits_spec (width img) (height img) bw bh (width im) (height im).
Proof.
  intros Hw Hh Hbw Hbh. unfold thumbnail, fits_spec. cbn [fst snd].
  destruct ((bw >=? width img) && (bh >=? height img)) eqn:Hfit.
  { intros H; inversion H; subst im. apply andb_true_iff in Hfit as [H1 H2].
    apply Z.geb_le in H1, H2. lia. }
  destruct (height img =? 0) eqn:Hz; [done |].
  unfold PIL.thumbnail_size. cbn [fst snd].
  destruct (PIL.preserve_aspect_ratio (width img) (height img) bw bh)
    as [[x' y']|] eqn:Hp.
  - pose proof (preserve_aspect_ratio_spec _ _ _ _ _ _ Hw Hh Hbw Hbh Hp) as Hs.
    cbn [fst snd].
    destruct ((x' =? width img) && (y' =? height img)) eqn:Hsame.
    + apply andb_true_iff in Hsame as [H1 H2].
      apply Z.eqb_eq in H1, H2. intros H; inversion H; subst im. lia.
    + intros H; inversion H; subst im. simpl. lia.
  - unfold PIL.preserve_aspect_ratio in Hp. rewrite Hfit in Hp.
    by destruct (bw * height img >=? width img * bh).
Qed.

Lemma THUMBNAIL_CONFIG_boxes name bw bh :
  (name, (bw, bh)) ∈ THUMBNAIL_CONFIG → 0 < bw ∧ 0 < bh.
Proof.
  intros Hin.
  repeat (apply elem_of_cons in Hin as [Heq | Hin]; [inversion Heq; lia |]).
  by apply elem_of_nil in Hin.
Qed.

(** C7. After [process_image] has processed a file, the preview file is a
    JPEG of quality 90 whose raster is exactly 120 by 120.  It holds a copy
    of the base raster fitted into 120 by 120 (aspect ratio kept, as for
    the standard sizes) at the offset [((120 - w) // 2, (120 - h) // 2)],
    so the margins on opposite sides differ by at most one pixel, and every
    pixel outside that rectangle is the fill colour [(0, 0, 0)]. *)
Theorem preview_is_padded_square E p w r w' :
  process_image E p w = (Ok r, w') →
  r = "Image processed: " +:+ PathOps.name p →
  ∃ img im pad : Image,
    base_raster E (Fprocess_image, p) img ∧
    thumbnail E img (p_size PREVIEW_CONFIG) = inr im ∧
    fs w' !! (thumb_dir_of p </> p_name PREVIEW_CONFIG) = Some (File (Jpeg 90 pad)) ∧
    width pad = 120 ∧ height pad = 120 ∧
    let ox := (120 - width im) / 2 in
    let oy := (120 - height im) / 2 in
    (∀ x y, ox ≤ x < ox + width im → oy ≤ y < oy + height im →
            px pad x y = px im (x - ox) (y - oy)) ∧
    (∀ x y, ¬ (ox ≤ x < ox + width im ∧ oy ≤ y < oy + height im) →
            px pad x y = (0, 0, 0)) ∧
    (0 < width img → 0 < height img →
     fits_spec (width img) (height img) 120 120 (width im) (height im) ∧
     0 ≤ ox ∧ ox + width im ≤ 120 ∧ 0 ≤ (120 - width im - ox) - ox ≤ 1 ∧
     0 ≤ oy ∧ oy + height im ≤ 120 ∧ 0 ≤ (120 - height im - oy) - oy ≤ 1).
Proof.
  intros H Hr.
  destruct (call_processed_inv E (Fprocess_image, p) w r w' H (or_introl Hr))
    as [_ [[_ Hi] | [Ht _]]]; [| done].
  apply render_image_files in Hi as (img0 & img & Htr & _ & im & Hth & Hf).
  exists img, im, (padded im).
  split; [by exists img0 |]. split; [done |]. split; [done |].
  split; [done |]. split; [done |].
  cbn zeta. split; [| split].
  - intros x y Hx Hy. unfold padded, PIL.paste. cbn [px fst snd].
    destruct (Z.leb_spec ((120 - width im) / 2) x); [| lia].
    destruct (Z.ltb_spec x ((120 - width im) / 2 + width im)); [| lia].
    destruct (Z.leb_spec ((120 - height im) / 2) y); [| lia].
    destruct (Z.ltb_spec y ((120 - height im) / 2 + height im)); [| lia].
    done.
  - intros x y Hout. unfold padded, PIL.paste. cbn [px fst snd].
    destruct (Z.leb_spec ((120 - width im) / 2) x); [| done].
    destruct (Z.ltb_spec x ((120 - width im) / 2 + width im)); [| done].
    destruct (Z.leb_spec ((120 - height im) / 2) y); [| done].
    destruct (Z.ltb_spec y ((120 - height im) / 2 + height im)); [| done].
    exfalso. apply Hout. lia.
  - intros Hw Hh.
    pose proof (thumbnail_fits E img 120 120 im Hw Hh ltac:(lia) ltac:(lia) Hth) as Hfit.
    split; [done |]. unfold fits_spec in Hfit.
    pose proof (floor_div_bounds (120 - width im) 2 ltac:(lia)).
    pose proof (floor_div_bounds (120 - height im) 2 ltac:(lia)).
    lia.
Qed.

(** ** The record of effects *)

#[global] Instance trace_by_preorder P : PreOrder (trace_by P).
Proof.
  split.
  - intros w. exists []. by rewrite app_nil_r.
  - intros w1 w2 w3 (e1 & H1 & F1) (e2 & H2 & F2). exists (e1 ++ e2).
    split; [by rewrite H2, H1, app_assoc | by apply Forall_app].
Qed.

Lemma trace_by_one (P : Event → Prop) e w w0 :
  trace w0 = trace w → P e → trace_by P w (add_event e w0).
Proof. intros Ht H. exists [e]. simpl. rewrite Ht. split; [done | by constructor]. Qed.

Section Trace.

Variable E : Env.
Variable P : Event → Prop.

Lemma trace_by_modify (f : World → World) :
  (∀ w, trace (f w) = trace w) → steps (trace_by P) (modify f).
Proof. intros H w. exists []. simpl. by rewrite H, app_nil_r. Qed.

Lemma trace_by_mkdir_one q : P (EvMkdir q) → steps (trace_by P) (mkdir_one E q).
Proof.
  intros HP w. unfold mkdir_one.
  destruct (fs w !! q) as [[|c]|]; simpl; try reflexivity.
  destruct (mkdir_error E q (fs w)); simpl; [reflexivity |].
  by apply trace_by_one.
Qed.

Lemma trace_by_mkdir_parents p :
  (∀ q, P (EvMkdir q)) → steps (trace_by P) (mkdir_parents E p).
Proof.
  intros HP. apply steps_for_each; [apply _ |].
  intros q _. by apply trace_by_mkdir_one.
Qed.

Lemma trace_by_save im p q : P (EvSave p q) → steps (trace_by P) (save E im p q).
Proof.
  intros HP w. unfold save.
  destruct (fs w !! p) as [[|c]|]; simpl; try reflexivity;
    (destruct (save_error E p im (fs w)); simpl; [reflexivity |]);
    by apply trace_by_one.
Qed.

Lemma trace_by_standard_thumbnails img d :
  (∀ x q, P (EvSave x q)) → steps (trace_by P) (standard_thumbnails E img d).
Proof.
  intros HP. apply steps_for_each; [apply _ |].
  intros [name size] _. apply steps_bind; [apply _ | apply steps_lift; apply _ |].
  intros im. by apply trace_by_save.
Qed.

End Trace.

Lemma prefixes_spec (d x : Path) :
  x ∈ prefixes d → x ≠ [] ∧ ∃ rest, d = x ++ rest.
Proof.
  revert x. induction d as [|c d IH]; intros x Hx; simpl in Hx.
  { by apply elem_of_nil in Hx. }
  apply elem_of_cons in Hx as [-> | Hx].
  - split; [done |]. by exists d.
  - apply list_elem_of_fmap in Hx as (y & -> & Hy).
    destruct (IH y Hy) as (_ & rest & ->). split; [done |]. by exists rest.
Qed.

Lemma child_not_prefix (d : Path) c : d </> c ∉ prefixes d.
Proof.
  intros H. apply prefixes_spec in H as (_ & rest & H).
  apply (f_equal List.length) in H. unfold PathOps.child in H.
  rewrite !length_app in H. simpl in H. lia.
Qed.

(** An entry directly inside the sidecar directory is untouched by the
    creation of that directory. *)
Lemma mkdir_parents_same_child E d c w :
  fs (mkdir_parents E d w).2 !! (d </> c) = fs w !! (d </> c).
Proof. apply (same_at_mkdir_parents E (d </> c) d), child_not_prefix. Qed.

(** ** The standard thumbnails *)

(** The decoding step of [render_image] is [decoded] on the file system of
    the moment. *)
Lemma decode_step E p w :
  (if str_in (suffix_lower p) RAW_EXTENSIONS
   then lift_fs (rawpy_imread E p)
   else
     img ← lift_fs (Image_open E p);
     if bool_decide (mode img ≠ "RGB")
     then lift (Image_convert E img)
     else mret img) w
  = match decoded E p (fs w) with
    | inl e => (Raise e, w)
    | inr img => (Ok img, w)
    end.
Proof.
  unfold decoded. destruct (str_in _ _).
  - unfold lift_fs, lift. by destruct (rawpy_imread E p (fs w)).
  - unfold mbind, M_bind, bind, lift_fs, lift.
    destruct (Image_open E p (fs w)) as [e | img]; [done |].
    unfold ret at 1. cbn beta iota.
    destruct (bool_decide _); [| reflexivity].
    by destruct (Image_convert E img).
Qed.

(** A successful [render_image] has made the standard thumbnails from the
    raster decoded from the file. *)
Lemma render_image_source E p w r w' :
  render_image E p w = (Ok r, w') →
  ∃ w1 w2 dec img,
    mkdir_parents E (thumb_dir_of p) w = (Ok tt, w1) ∧
    decoded E p (fs w1) = inr dec ∧
    exif_transpose E dec = inr img ∧
    standard_thumbnails E img (thumb_dir_of p) w1 = (Ok tt, w2) ∧
    ∀ x, x ≠ preview_path p → fs w' !! x = fs w2 !! x.
Proof.
  unfold render_image. intros H.
  apply bind_inv_ok in H as ([] & w1 & Hmk & H).
  apply bind_inv_ok in H as (dec & w1' & Hdec & H).
  rewrite decode_step in Hdec.
  destruct (decoded E p (fs w1)) as [e | dec'] eqn:Hd; [done |].
  inversion Hdec; subst dec' w1'. clear Hdec.
  apply bind_inv_ok in H as (img & w0 & Htr & H).
  apply lift_inv_ok in Htr as [Htr ->].
  apply bind_inv_ok in H as ([] & w2 & Hstd & H).
  apply bind_inv_ok in H as (im & w0 & Hth & H).
  apply lift_inv_ok in Hth as [Hth ->].
  apply bind_inv_ok in H as ([] & w3 & Hsave & H).
  apply save_inv_ok in Hsave. subst w3. inversion H; subst r w'.
  exists w1, w2, dec, img. repeat (split; [done |]).
  intros x Hx. simpl. by rewrite lookup_insert_ne.
Qed.

(** [thumbnail] returns an image unless the height is 0. *)
Lemma thumbnail_total E img size :
  height img ≠ 0 → ∃ im, thumbnail E img size = inr im.
Proof.
  intros Hh. unfold thumbnail.
  destruct (_ && _); [by eexists |].
  destruct (Z.eqb_spec (height img) 0); [done |].
  destruct (_ && _); by eexists.
Qed.

Lemma save_succeeds E im p q w :
  (∀ x i m, save_error E x i m = None) → fs w !! p ≠ Some Dir →
  save E im p q w
    = (Ok tt, add_event (EvSave p q) (set_fs (insert p (File (Jpeg q im))) w)).
Proof.
  intros Hs Hp. unfold save. rewrite Hs.
  by destruct (fs w !! p) as [[|c]|].
Qed.

(** With a raster of nonzero height, an encoder that does not fail and no
    directory in the way, the loop over a table of sizes runs to its
    end. *)
Lemma thumbnail_loop_succeeds E img d (l : list (string * (Z * Z))) w :
  height img ≠ 0 →
  (∀ x i m, save_error E x i m = None) →
  (∀ c, fs w !! (d </> c) ≠ Some Dir) →
  ∃ w', for_each l (fun '(name, size) =>
           img_copy ← lift (thumbnail E img size);
           save E img_copy (d </> name) 95) w = (Ok tt, w') ∧
        ∀ c, fs w' !! (d </> c) ≠ Some Dir.
Proof.
  intros Hh Hs. revert w. induction l as [|[n size] l IH]; intros w Hd.
  { by exists w. }
  destruct (thumbnail_total E img size Hh) as (im & Him).
  destruct (IH (add_event (EvSave (d </> n) 95)
                  (set_fs (insert (d </> n) (File (Jpeg 95 im))) w)))
    as (w' & Hrest & Hd').
  { intros c. simpl. destruct (decide (d </> n = d </> c)) as [Heq | Hne].
    - rewrite Heq, lookup_insert_eq. done.
    - rewrite lookup_insert_ne by done. apply Hd. }
  exists w'. split; [| done].
  cbn [for_each].
  rewrite (bind_ok _ _ w tt (add_event (EvSave (d </> n) 95)
             (set_fs (insert (d </> n) (File (Jpeg 95 im))) w))); [done |].
  rewrite (bind_ok _ _ w im w); [| by unfold lift; rewrite Him].
  by apply save_succeeds.
Qed.

(** The raster of a task is determined by the environment and the world. *)
Lemma source_raster_fun E t w img1 img2 :
  source_raster E t w img1 → source_raster E t w img2 → img1 = img2.
Proof.
  unfold source_raster. destruct (t.1).
  - intros (w1 & d1 & H1 & H2 & H3) (w1' & d2 & H1' & H2' & H3'). congruence.
  - intros (w1 & w2 & w3 & H1 & H2 & H3 & _ & H4)
           (w1' & w2' & w3' & H1' & H2' & H3' & _ & H4'). congruence.
Qed.

(** C6. The standard thumbnails of a processed file are made from the
    raster of the file itself: the image decoded from it and transposed,
    or the frame extracted from the video.  For every entry
    [(name, (bw, bh))] of [THUMBNAIL_CONFIG] the file [name] of the sidecar
    directory is a JPEG of quality 95 that holds what [thumbnail] makes of
    that raster for the box: for a raster of positive size it is at most
    [bw] wide and [bh] high, is not larger than the raster in either
    direction, and keeps its aspect ratio within rounding (either the size
    is unchanged, or one side is the side of the box and the other is
    within one pixel of the proportional value).  And [process_image] does
    write them: when the marker is absent, the sidecar directory can be
    made, the file is decoded to a raster of positive size, the encoder
    does not fail and no directory is in the way of a file to write, it
    returns "Image processed: <name>". *)
Theorem standard_thumbnails_fit_box E t w :
  (∀ r w', call E t w = (Ok r, w') → is_processed t.2 r →
     ∃ img : Image,
       source_raster E t w img ∧
       ∀ name bw bh, (name, (bw, bh)) ∈ THUMBNAIL_CONFIG →
         ∃ im, thumbnail E img (bw, bh) = inr im ∧
               fs w' !! (thumb_dir_of t.2 </> name) = Some (File (Jpeg 95 im)) ∧
               (0 < width img → 0 < height img →
                fits_spec (width img) (height img) bw bh (width im) (height im))) ∧
  (∀ img : Image,
     t.1 = Fprocess_image →
     fs w !! marker_path t.2 = None →
     source_raster E t w img →
     0 < width img → 0 < height img →
     (∀ x i m, save_error E x i m = None) →
     (∀ c, fs w !! (thumb_dir_of t.2 </> c) ≠ Some Dir) →
     ∃ w',
       process_image E t.2 w = (Ok ("Image processed: " +:+ PathOps.name t.2), w') ∧
       ∀ name bw bh, (name, (bw, bh)) ∈ THUMBNAIL_CONFIG →
         ∃ im, thumbnail E img (bw, bh) = inr im ∧
               fs w' !! (thumb_dir_of t.2 </> name) = Some (File (Jpeg 95 im)) ∧
               fits_spec (width img) (height img) bw bh (width im) (height im)).
Proof.
  assert (HA : ∀ r w', call E t w = (Ok r, w') → is_processed t.2 r →
     ∃ img : Image,
       source_raster E t w img ∧
       ∀ name bw bh, (name, (bw, bh)) ∈ THUMBNAIL_CONFIG →
         ∃ im, thumbnail E img (bw, bh) = inr im ∧
               fs w' !! (thumb_dir_of t.2 </> name) = Some (File (Jpeg 95 im)) ∧
               (0 < width img → 0 < height img →
                fits_spec (width img) (height img) bw bh (width im) (height im))).
  { intros r w' H Hr.
    destruct (call_processed_inv _ _ _ _ _ H Hr) as [_ [[Ht Hi] | [Ht Hv]]].
    - apply render_image_source in Hi
        as (w1 & w2 & dec & img & Hmk & Hdec & Htr & Hstd & Hrest).
      exists img. split.
      { unfold source_raster. rewrite Ht. by exists w1, dec. }
      intros name bw bh Hin.
      destruct (standard_thumbnails_ok _ _ _ _ _ _ Hstd name _ Hin) as (im & Hth & Hf).
      exists im. split; [done |]. split.
      + rewrite Hrest; [done |]. unfold preview_path. intros Heq.
        apply child_inj in Heq.
        by apply (preview_name_not_standard name);
          [apply (list_elem_of_fmap_2 fst _ _ Hin) |].
      + intros Hw Hh. destruct (THUMBNAIL_CONFIG_boxes _ _ _ Hin).
        by apply (thumbnail_fits E).
    - apply render_video_inv_ok in Hv as (_ & w1 & w2 & u & Hmk & Hflv & Hv).
      apply extract_and_resize_inv_ok in Hv
        as (img & w3 & w4 & Hrun & Hex & Hop & Hstd & ->).
      exists img. split.
      { unfold source_raster. rewrite Ht. by exists w1, w2, w3. }
      intros name bw bh Hin.
      destruct (standard_thumbnails_ok _ _ _ _ _ _ Hstd name _ Hin) as (im & Hth & Hf).
      exists im. split; [done |]. split.
      + simpl. rewrite lookup_delete_ne; [done |].
        unfold temp_thumb_path_of. intros Heq. apply child_inj in Heq.
        by apply (temp_name_not_standard (PathOps.stem t.2) name);
          [apply (list_elem_of_fmap_2 fst _ _ Hin) |].
      + intros Hw Hh. destruct (THUMBNAIL_CONFIG_boxes _ _ _ Hin).
        by apply (thumbnail_fits E). }
  split; [exact HA |].
  intros img Ht Hm Hsrc Hw Hh Hsave Hdir.
  assert (Hrun : ∃ w', process_image E t.2 w
                       = (Ok ("Image processed: " +:+ PathOps.name t.2), w')).
  { pose proof Hsrc as Hsrc'. unfold source_raster in Hsrc'. rewrite Ht in Hsrc'.
    destruct Hsrc' as (w1 & dec & Hmk & Hdec & Htr).
    assert (Hdir1 : ∀ c, fs w1 !! (thumb_dir_of t.2 </> c) ≠ Some Dir).
    { intros c. pose proof (mkdir_parents_same_child E (thumb_dir_of t.2) c w) as Hs.
      rewrite Hmk in Hs. simpl in Hs. rewrite Hs. apply Hdir. }
    destruct (thumbnail_loop_succeeds E img (thumb_dir_of t.2) THUMBNAIL_CONFIG w1
                ltac:(lia) Hsave Hdir1) as (w2 & Hstd & Hdir2).
    destruct (thumbnail_total E img (p_size PREVIEW_CONFIG) ltac:(lia)) as (im & Him).
    eexists. unfold process_image, try_except.
    rewrite process_image_body_render by done.
    unfold render_image.
    rewrite (bind_ok _ _ w tt w1 Hmk).
    rewrite (bind_ok _ _ w1 dec w1); [| by rewrite decode_step, Hdec].
    rewrite (bind_ok _ _ w1 img w1); [| by unfold lift; rewrite Htr].
    rewrite (bind_ok _ _ w1 tt w2 Hstd).
    cbn zeta.
    rewrite (bind_ok _ _ w2 im w2); [| by unfold lift; rewrite Him].
    rewrite (bind_ok _ _ w2 tt _ (save_succeeds E _ _ 90 w2 Hsave (Hdir2 _))).
    reflexivity. }
  destruct Hrun as (w' & Hrun). exists w'. split; [done |].
  destruct (HA _ w' ltac:(destruct t as [f p]; simpl in Ht; subst f; exact Hrun)
               ltac:(by left)) as (img' & Hsrc' & Hfiles).
  rewrite <- (source_raster_fun E t w img img' Hsrc Hsrc') in Hfiles.
  intros name bw bh Hin. destruct (Hfiles name bw bh Hin) as (im & H1 & H2 & H3).
  exists im. auto.
Qed.

(** ** The log *)

#[global] Instance same_log_preorder : PreOrder same_log.
Proof.
  split.
  - by intros w.
  - intros w1 w2 w3 H1 H2. unfold same_log in *. congruence.
Qed.

Lemma same_log_mkdir_parents E p : steps same_log (mkdir_parents E p).
Proof.
  apply steps_for_each; [apply _ |]. intros q _ w. unfold same_log, mkdir_one.
  destruct (fs w !! q) as [[|c]|]; simpl; try done.
  by destruct (mkdir_error E q (fs w)).
Qed.

Lemma same_log_subprocess_run E cmd out : steps same_log (subprocess_run E cmd out).
Proof.
  intros w. unfold same_log, subprocess_run.
  destruct (ffmpeg E cmd (fs w)) as [msg | rc err [c|]]; simpl; [done | |];
    by destruct (rc =? 0).
Qed.

Lemma trace_by_subprocess_run E P cmd out :
  P (EvRun cmd) → steps (trace_by P) (subprocess_run E cmd out).
Proof.
  intros HP w. unfold subprocess_run.
  destruct (ffmpeg E cmd (fs w)) as [msg | rc err [c|]]; simpl; [reflexivity | |];
    destruct (rc =? 0); simpl; by apply trace_by_one.
Qed.

(** ** Failures of [ffmpeg] in [process_video] *)

Lemma subprocess_run_nonzero E cmd out w rc err written :
  ffmpeg E cmd (fs w) = Exited rc err written → rc ≠ 0 →
  subprocess_run E cmd out w =
    (Raise (CalledProcessError rc cmd err),
     add_event (EvRun cmd)
       (match written with
        | Some c => set_fs (insert out (File c)) w
        | None => w
        end)).
Proof.
  intros H Hrc. unfold subprocess_run. rewrite H.
  by destruct (Z.eqb_spec rc 0).
Qed.

Lemma film_name_not_standard name :
  name ∈ THUMBNAIL_CONFIG.*1 → "SYNOPHOTO:FILM.flv" ≠ name.
Proof.
  intros Hin.
  repeat (apply elem_of_cons in Hin as [-> | Hin]; [done |]).
  by apply elem_of_nil in Hin.
Qed.

Lemma temp_name_not_film stem : stem +:+ "_temp.jpg" ≠ "SYNOPHOTO:FILM.flv".
Proof.
  intros Heq. pose proof (ends_with_app stem "_temp.jpg") as H.
  rewrite Heq in H. by vm_compute in H.
Qed.

(** C8. When the marker is absent, the sidecar directory has been made and
    the filmstrip command exits with a nonzero code, [process_video]
    returns the failure "FFmpeg Error: <name>" with the tool's error text
    logged.  The effects of the whole call are the directory creations
    followed by that one command: the frame extraction never runs, nothing
    is saved, and the standard thumbnails and the temporary frame are as
    they were. *)
Theorem filmstrip_failure_is_fatal E p w w1 rc err out :
  fs w !! marker_path p = None →
  mkdir_parents E (thumb_dir_of p) w = (Ok tt, w1) →
  ffmpeg E (flv_cmd p (film_flv_path_of p)) (fs w1) = Exited rc err out →
  rc ≠ 0 →
  ∃ w' mk,
    process_video E p w = (Ok ("FFmpeg Error: " +:+ PathOps.name p), w') ∧
    trace w' = trace w ++ mk ++ [EvRun (flv_cmd p (film_flv_path_of p))] ∧
    Forall is_mkdir mk ∧
    log w' = log w ++
      [(ERROR, "FFmpeg error while processing video " +:+ PathOps.str p
               +:+ ": " +:+ Str.strip err)] ∧
    (∀ name, name ∈ THUMBNAIL_CONFIG.*1 →
       fs w' !! (thumb_dir_of p </> name) = fs w !! (thumb_dir_of p </> name)) ∧
    fs w' !! temp_thumb_path_of p = fs w !! temp_thumb_path_of p.
Proof.
  intros Hm Hmk Hff Hrc.
  pose proof (trace_by_mkdir_parents E is_mkdir (thumb_dir_of p) ltac:(done) w) as Htr.
  pose proof (same_log_mkdir_parents E (thumb_dir_of p) w) as Hlog.
  rewrite Hmk in Htr, Hlog. destruct Htr as (mk & Htr & Hmkdir).
  unfold same_log in Hlog. simpl in Htr, Hlog.
  pose proof (subprocess_run_nonzero E _ (film_flv_path_of p) w1 rc err out Hff Hrc) as Hrun.
  eexists _, mk. split; [| split; [| split; [done | split; [| split]]]].
  - unfold process_video, try_except.
    rewrite process_video_body_render by done.
    unfold render_video. rewrite (bind_ok _ _ w tt w1 Hmk).
    fold (film_flv_path_of p).
    rewrite (bind_raise _ _ w1 _ _ Hrun). simpl. reflexivity.
  - simpl. destruct out; simpl; by rewrite Htr, <- app_assoc.
  - simpl. destruct out; simpl; by rewrite Hlog.
  - intros name Hin. simpl.
    pose proof (mkdir_parents_same_child E (thumb_dir_of p) name w) as Hs.
    rewrite Hmk in Hs. simpl in Hs. rewrite <- Hs.
    destruct out; simpl; [| done].
    rewrite lookup_insert_ne; [done |].
    unfold film_flv_path_of. intros Heq. apply child_inj in Heq.
    by apply (film_name_not_standard name).
  - simpl.
    pose proof (mkdir_parents_same_child E (thumb_dir_of p)
                  (PathOps.stem p +:+ "_temp.jpg") w) as Hs.
    rewrite Hmk in Hs. simpl in Hs. unfold temp_thumb_path_of. rewrite <- Hs.
    destruct out; simpl; [| done].
    rewrite lookup_insert_ne; [done |].
    unfold film_flv_path_of. intros Heq. apply child_inj in Heq.
    by apply (temp_name_not_film (PathOps.stem p)).
Qed.

(** The run of [process_video] whose frame extraction raises, or returns
    with the temporary frame absent. *)
Lemma extraction_failure_run E p w w1 w2 :
  fs w !! marker_path p = None →
  mkdir_parents E (thumb_dir_of p) w = (Ok tt, w1) →
  subprocess_run E (flv_cmd p (film_flv_path_of p)) (film_flv_path_of p) w1
    = (Ok tt, w2) →
  let run := subprocess_run E (thumb_cmd p (temp_thumb_path_of p))
               (temp_thumb_path_of p) w2 in
  ((∃ rc cmd err, run.1 = Raise (CalledProcessError rc cmd err)) ∨
   (run.1 = Ok tt ∧ fs run.2 !! temp_thumb_path_of p = None)) →
  ∃ r w',
    process_video E p w = (Ok r, w') ∧
    is_failed p r ∧
    (∀ rc cmd err, run.1 = Raise (CalledProcessError rc cmd err) →
       r = "FFmpeg Error: " +:+ PathOps.name p ∧
       log w' = log w ++
         [(ERROR, "FFmpeg error while processing video " +:+ PathOps.str p
                  +:+ ": " +:+ Str.strip err)]) ∧
    (run.1 = Ok tt →
       r = "Error: " +:+ PathOps.name p ∧
       log w' = log w ++
         [(ERROR, "Error processing video " +:+ PathOps.str p
                  +:+ ": FFmpeg failed to extract a thumbnail frame.")]) ∧
    fs w' !! marker_path p = None ∧
    (∀ name, name ∈ THUMBNAIL_CONFIG.*1 →
       fs w' !! (thumb_dir_of p </> name) = fs w !! (thumb_dir_of p </> name)) ∧
    (∃ evs, trace w' = trace w ++ evs ∧ Forall (fun e => ¬ is_save e) evs) ∧
    (∀ E', ∃ r2 w'', process_video E' p w' = (Ok r2, w'') ∧ ¬ is_skipped p r2).
Proof.
  intros Hm Hmk Hflv run Hfail.
  (* the frame of the three steps that ran *)
  assert (Hframe : ∀ name, name ∈ THUMBNAIL_CONFIG.*1 →
            fs run.2 !! (thumb_dir_of p </> name) = fs w !! (thumb_dir_of p </> name)).
  { intros name Hin.
    pose proof (same_at_subprocess_run E (thumb_dir_of p </> name)
                  (thumb_cmd p (temp_thumb_path_of p)) (temp_thumb_path_of p)) as H3.
    pose proof (same_at_subprocess_run E (thumb_dir_of p </> name)
                  (flv_cmd p (film_flv_path_of p)) (film_flv_path_of p)) as H2.
    pose proof (mkdir_parents_same_child E (thumb_dir_of p) name w) as H1.
    rewrite Hmk in H1. simpl in H1.
    specialize (H2 ltac:(intros Heq; apply child_inj in Heq;
                           by apply (film_name_not_standard name)) w1).
    rewrite Hflv in H2. unfold same_at in H2. simpl in H2.
    specialize (H3 ltac:(intros Heq; apply child_inj in Heq;
                           by apply (temp_name_not_standard (PathOps.stem p) name)) w2).
    unfold same_at in H3. fold run in H3. congruence. }
  assert (Hlog : log run.2 = log w).
  { pose proof (same_log_mkdir_parents E (thumb_dir_of p) w) as H1.
    pose proof (same_log_subprocess_run E (flv_cmd p (film_flv_path_of p))
                  (film_flv_path_of p) w1) as H2.
    pose proof (same_log_subprocess_run E (thumb_cmd p (temp_thumb_path_of p))
                  (temp_thumb_path_of p) w2) as H3.
    rewrite Hmk in H1. rewrite Hflv in H2. fold run in H3.
    unfold same_log in *. simpl in *. congruence. }
  assert (Htrace : trace_by (fun e => ¬ is_save e) w run.2).
  { pose proof (trace_by_mkdir_parents E (fun e => ¬ is_save e) (thumb_dir_of p)
                  ltac:(by intros q []) w) as H1.
    pose proof (trace_by_subprocess_run E (fun e => ¬ is_save e)
                  (flv_cmd p (film_flv_path_of p)) (film_flv_path_of p)
                  ltac:(by intros []) w1) as H2.
    pose proof (trace_by_subprocess_run E (fun e => ¬ is_save e)
                  (thumb_cmd p (temp_thumb_path_of p)) (temp_thumb_path_of p)
                  ltac:(by intros []) w2) as H3.
    rewrite Hmk in H1. rewrite Hflv in H2. fold run in H3. simpl in *.
    etrans; [exact H1 |]. etrans; [exact H2 | exact H3]. }
  (* the body raises at the extraction *)
  assert (Hbody : ∃ e, render_video E p w = (Raise e, run.2) ∧
            ((∃ rc cmd err, e = CalledProcessError rc cmd err ∧ run.1 = Raise e) ∨
             (e = PyException "FileNotFoundError"
                    "FFmpeg failed to extract a thumbnail frame." ∧ run.1 = Ok tt))).
  { unfold render_video. rewrite (bind_ok _ _ w tt w1 Hmk).
    fold (film_flv_path_of p). rewrite (bind_ok _ _ w1 tt w2 Hflv).
    destruct Hfail as [(rc & cmd & err & Hr) | [Hr Habs]].
    - exists (CalledProcessError rc cmd err). split; [| left; eauto].
      apply bind_raise. unfold extract_and_resize. apply bind_raise.
      fold run. destruct run as [r0 w3]. simpl in Hr. by subst r0.
    - eexists. split; [| right; eauto].
      apply bind_raise. unfold extract_and_resize.
      rewrite (bind_ok _ _ w2 tt run.2).
      2:{ fold run. destruct run as [r0 w3]. simpl in Hr. by subst r0. }
      rewrite (bind_ok _ _ run.2 false run.2); [done |].
      unfold path_exists. rewrite bool_decide_eq_false_2; [done |].
      rewrite Habs. by intros [? ?]. }
  destruct Hbody as (e & Hbody & He).
  assert (Hrun : process_video E p w = process_video_handler p e run.2).
  { unfold process_video, try_except.
    rewrite process_video_body_render by done. by rewrite Hbody. }
  assert (Hnext : ∀ w', fs w' !! marker_path p = None →
            ∀ E', ∃ r2 w'', process_video E' p w' = (Ok r2, w'') ∧ ¬ is_skipped p r2).
  { intros w' Hm' E'. unfold process_video, try_except.
    rewrite process_video_body_render by done.
    destruct (render_video E' p w') as [[a|e'] w''] eqn:Hr.
    - apply render_video_inv_ok in Hr as [-> _].
      eexists _, _. split; [done |]. unfold is_skipped. discriminate.
    - destruct e'; simpl; eexists _, _; (split; [done |]);
        unfold is_skipped; discriminate. }
  assert (Hmark : fs run.2 !! marker_path p = None).
  { unfold marker_path. rewrite Hframe; [done | left]. }
  destruct Htrace as (evs & Htr1 & Htr2).
  destruct He as [(rc & cmd & err & -> & Hr') | [-> Hr']];
    simpl in Hrun; eexists _, _; (split; [exact Hrun |]).
  - split; [by right |]. split.
    { intros rc0 cmd0 err0 Hr0. rewrite Hr0 in Hr'. inversion Hr'; subst.
      simpl. by rewrite Hlog. }
    split; [intros Hr0; congruence |].
    split; [done |]. split; [done |]. split; [by exists evs |].
    by apply Hnext.
  - split; [by left |]. split; [intros rc0 cmd0 err0 Hr0; congruence |].
    split; [intros _; simpl; by rewrite Hlog |].
    split; [done |]. split; [done |]. split; [by exists evs |].
    by apply Hnext.
Qed.

(** C4 (amended). When the run has reached the frame extraction (marker
    absent, directory made, filmstrip written) and the extraction command
    [ffmpeg -ss 00:00:01 ...] either exits with a nonzero code, or exits
    with code 0 having written no frame where none was, [process_video]
    returns a failure: "FFmpeg Error: <name>" in the first case, the tool's
    error text logged, and "Error: <name>" in the second, with the message
    "FFmpeg failed to extract a thumbnail frame." logged.  In both cases
    nothing has been saved, every standard thumbnail is as it was before
    the call, and the marker is still absent, so a later run does not skip
    the file. *)
Theorem extraction_failure_fails_cleanly E p w w1 w2 rc err out :
  fs w !! marker_path p = None →
  mkdir_parents E (thumb_dir_of p) w = (Ok tt, w1) →
  subprocess_run E (flv_cmd p (film_flv_path_of p)) (film_flv_path_of p) w1
    = (Ok tt, w2) →
  ffmpeg E (thumb_cmd p (temp_thumb_path_of p)) (fs w2) = Exited rc err out →
  rc ≠ 0 ∨ (out = None ∧ fs w2 !! temp_thumb_path_of p = None) →
  ∃ r w',
    process_video E p w = (Ok r, w') ∧
    is_failed p r ∧
    (rc ≠ 0 →
       r = "FFmpeg Error: " +:+ PathOps.name p ∧
       log w' = log w ++
         [(ERROR, "FFmpeg error while processing video " +:+ PathOps.str p
                  +:+ ": " +:+ Str.strip err)]) ∧
    (rc = 0 →
       r = "Error: " +:+ PathOps.name p ∧
       log w' = log w ++
         [(ERROR, "Error processing video " +:+ PathOps.str p
                  +:+ ": FFmpeg failed to extract a thumbnail frame.")]) ∧
    fs w' !! marker_path p = None ∧
    (∀ name, name ∈ THUMBNAIL_CONFIG.*1 →
       fs w' !! (thumb_dir_of p </> name) = fs w !! (thumb_dir_of p </> name)) ∧
    (∃ evs, trace w' = trace w ++ evs ∧ Forall (fun e => ¬ is_save e) evs) ∧
    (∀ E', ∃ r2 w'', process_video E' p w' = (Ok r2, w'') ∧ ¬ is_skipped p r2).
Proof.
  intros Hm Hmk Hflv Hff Hfail.
  pose proof (extraction_failure_run E p w w1 w2 Hm Hmk Hflv) as H.
  cbn zeta in H.
  destruct (Z.eq_dec rc 0) as [-> | Hrc].
  - destruct Hfail as [? | [-> Habs]]; [done |].
    assert (Hrun : subprocess_run E (thumb_cmd p (temp_thumb_path_of p))
                     (temp_thumb_path_of p) w2
                   = (Ok tt, add_event (EvRun (thumb_cmd p (temp_thumb_path_of p))) w2)).
    { unfold subprocess_run. by rewrite Hff. }
    rewrite Hrun in H. simpl in H.
    destruct (H ltac:(by right)) as (r & w' & H1 & H2 & _ & H4 & H5 & H6 & H7 & H8).
    exists r, w'. split; [done |]. split; [done |].
    split; [done |]. split; [intros _; by apply H4 |]. done.
  - rewrite (subprocess_run_nonzero E _ _ w2 rc err out Hff Hrc) in H.
    simpl in H.
    destruct (H ltac:(left; eauto)) as (r & w' & H1 & H2 & H3 & _ & H5 & H6 & H7 & H8).
    exists r, w'. split; [done |]. split; [done |].
    split; [intros _; by apply (H3 rc (thumb_cmd p (temp_thumb_path_of p)) err) |].
    split; [done |]. done.
Qed.

(** ** The marker is the first file written *)

Lemma save_inv_raise E im p q w e w' :
  save E im p q w = (Raise e, w') → w' = w.
Proof.
  unfold save. intros H.
  destruct (fs w !! p) as [[|c]|]; [by inversion H | |];
    destruct (save_error E p im (fs w)); by inversion H.
Qed.

Lemma lift_inv_raise {A} (r : Exn + A) w e w' :
  lift r w = (@Raise A e, w') → w' = w.
Proof. destruct r; simpl; intros H; by inversion H. Qed.

Lemma for_each_cons {A} (x : A) l (body : A → M unit) :
  for_each (x :: l) body = (body x ≫= fun _ => for_each l body).
Proof. reflexivity. Qed.

(** The loop either stops before any file is written, or its first
    recorded effect is the save of the marker, which is then there at the
    end of the loop. *)
Lemma standard_thumbnails_first_save E img d w r w' :
  standard_thumbnails E img d w = (r, w') →
  (w' = w ∧ ∃ e, r = Raise e) ∨
  (∃ rest, trace w' = trace w ++ EvSave (d </> "SYNOPHOTO_THUMB_XL.jpg") 95 :: rest ∧
           is_Some (fs w' !! (d </> "SYNOPHOTO_THUMB_XL.jpg"))).
Proof.
  unfold standard_thumbnails.
  change THUMBNAIL_CONFIG
    with (("SYNOPHOTO_THUMB_XL.jpg", (1280, 1280)) :: List.tl THUMBNAIL_CONFIG).
  rewrite for_each_cons. intros H.
  apply bind_inv in H as [([] & w2 & Hhead & Hrest) | (e & Hhead & ->)].
  - right.
    apply bind_inv_ok in Hhead as (im & w0 & Hth & Hsave).
    apply lift_inv_ok in Hth as [_ ->]. apply save_inv_ok in Hsave.
    set (x := d </> "SYNOPHOTO_THUMB_XL.jpg") in *.
    match type of Hrest with ?c w2 = _ =>
      assert (Hs : steps (same_at x) c);
      [| assert (Ht : steps (trace_by (fun _ => True)) c)] end.
    { apply steps_for_each; [apply _ |]. intros [n s] Hin.
      apply steps_bind; [apply _ | apply steps_lift; apply _ |].
      intros im'. apply same_at_save. unfold x. intros Heq.
      apply child_inj in Heq. subst n. simpl in Hin.
      repeat (apply elem_of_cons in Hin as [Hin | Hin]; [by inversion Hin |]).
      by apply elem_of_nil in Hin. }
    { apply steps_for_each; [apply _ |]. intros [n s] _.
      apply steps_bind; [apply _ | apply steps_lift; apply _ |].
      intros im'. by apply trace_by_save. }
    specialize (Hs w2). specialize (Ht w2). rewrite Hrest in Hs, Ht.
    simpl in Hs, Ht. destruct Ht as (rest & Ht & _). unfold same_at in Hs.
    exists rest. rewrite Ht, Hs, Hsave. simpl. rewrite lookup_insert_eq.
    split; [by rewrite <- app_assoc | by eexists].
  - left. split; [| by eexists].
    apply bind_inv in Hhead as [(im & w0 & Hth & Hsave) | (e' & Hth & _)].
    + apply lift_inv_ok in Hth as [_ ->]. by apply save_inv_raise in Hsave.
    + by apply lift_inv_raise in Hth.
Qed.

Lemma render_image_first_save E p w r w' :
  render_image E p w = (r, w') →
  ∃ mk, Forall is_mkdir mk ∧
    ((trace w' = trace w ++ mk ∧ ∃ e, r = Raise e) ∨
     (∃ rest, trace w' = trace w ++ mk ++ EvSave (marker_path p) 95 :: rest ∧
              is_Some (fs w' !! marker_path p))).
Proof.
  unfold render_image. intros H.
  pose proof (trace_by_mkdir_parents E is_mkdir (thumb_dir_of p) ltac:(done) w) as Hmk.
  apply bind_inv in H as [([] & w1 & Hdir & H) | (e & Hdir & ->)]; rewrite Hdir in Hmk;
    destruct Hmk as (mk & Hmk & Hfa); simpl in Hmk; exists mk; (split; [done |]).
  2:{ left. split; [done | by eexists]. }
  apply bind_inv in H as [(img0 & w0 & Hdec & H) | (e & Hdec & ->)].
  2:{ left. split; [| by eexists].
      assert (w' = w1) as ->; [| done].
      destruct (str_in _ _).
      - unfold lift_fs in Hdec. by apply lift_inv_raise in Hdec.
      - apply bind_inv in Hdec as [(i & w0 & Hop & Hcv) | (e' & Hop & _)].
        + apply lift_fs_inv_ok in Hop as [_ ->].
          destruct (bool_decide _); [by apply lift_inv_raise in Hcv | done].
        + unfold lift_fs in Hop. by apply lift_inv_raise in Hop. }
  assert (w0 = w1) as ->.
  { destruct (str_in _ _).
    - by apply lift_fs_inv_ok in Hdec as [_ ->].
    - apply bind_inv_ok in Hdec as (i & w0' & Hop & Hcv).
      apply lift_fs_inv_ok in Hop as [_ ->].
      destruct (bool_decide _).
      + by apply lift_inv_ok in Hcv as [_ ->].
      + by inversion Hcv. }
  apply bind_inv in H as [(img & w0 & Htr & H) | (e & Htr & ->)].
  2:{ left. apply lift_inv_raise in Htr. subst w'. split; [done | by eexists]. }
  apply lift_inv_ok in Htr as [_ ->].
  apply bind_inv in H as [([] & w2 & Hstd & H) | (e & Hstd & ->)].
  2:{ apply standard_thumbnails_first_save in Hstd as [[-> _] | (rest & Ht & Hx)].
      - left. split; [done | by eexists].
      - right. exists rest. split; [| done].
        rewrite Ht, Hmk. by rewrite <- app_assoc. }
  apply standard_thumbnails_first_save in Hstd as [[_ [e He]] | (rest & Ht & Hx)];
    [done |].
  right.
  match type of H with ?c w2 = _ =>
    assert (Hs : steps (same_at (marker_path p)) c);
    [| assert (Ht' : steps (trace_by (fun _ => True)) c)] end.
  { apply steps_bind; [apply _ | apply steps_lift; apply _ |]. intros im.
    apply steps_bind; [apply _ | | intros _; apply steps_ret; apply _].
    apply same_at_save. unfold marker_path. intros Heq.
    by apply child_inj in Heq. }
  { apply steps_bind; [apply _ | apply steps_lift; apply _ |]. intros im.
    apply steps_bind; [apply _ | | intros _; apply steps_ret; apply _].
    by apply trace_by_save. }
  specialize (Hs w2). specialize (Ht' w2). rewrite H in Hs, Ht'.
  simpl in Hs, Ht'. destruct Ht' as (rest' & Ht' & _). unfold same_at in Hs.
  exists (rest ++ rest'). split.
  - rewrite Ht', Ht, Hmk. by rewrite <- !app_assoc.
  - unfold marker_path in *. by rewrite Hs.
Qed.

(** C10. The file the skip test looks at is the first standard thumbnail
    written: whenever a run of [process_image] fails after having saved
    anything, the effects recorded for it are directory creations followed
    by the save of [SYNOPHOTO_THUMB_XL.jpg], the first key of
    [THUMBNAIL_CONFIG].  Every later run, whatever the environment, then
    returns Skipped and leaves the world as it is, so what is missing is
    never generated. *)
Theorem marker_written_first_blocks_retry E p w r w' evs :
  process_image E p w = (Ok r, w') →
  is_failed p r →
  trace w' = trace w ++ evs →
  (∃ x q, EvSave x q ∈ evs) →
  (List.hd "" THUMBNAIL_CONFIG.*1 = "SYNOPHOTO_THUMB_XL.jpg" ∧
   ∃ mk rest, evs = mk ++ EvSave (marker_path p) 95 :: rest ∧ Forall is_mkdir mk) ∧
  ∀ Es, run_again Es p w' =
        (List.map (fun _ => Ok ("Skipped (already exists): " +:+ PathOps.name p)) Es,
         w').
Proof.
  intros Hrun Hfail Htrace (x & q & Hsave).
  unfold process_image, try_except in Hrun.
  destruct (fs w !! marker_path p) as [n|] eqn:Hm.
  { rewrite process_image_body_skip in Hrun by (by rewrite Hm).
    inversion Hrun; subst. by destruct Hfail. }
  rewrite process_image_body_render in Hrun by done.
  destruct (render_image E p w) as [[a|e] w0] eqn:Hr.
  { apply render_image_inv_ok in Hr as [-> _]. inversion Hrun; subst.
    by destruct Hfail. }
  simpl in Hrun. inversion Hrun; subst r w'. simpl in Htrace. clear Hrun.
  apply render_image_first_save in Hr as (mk & Hmk & [[Ht _] | (rest & Ht & Hx)]).
  { rewrite Ht in Htrace. apply app_inv_head in Htrace. subst evs.
    rewrite Forall_forall in Hmk. by destruct (Hmk _ Hsave). }
  rewrite Ht in Htrace. apply app_inv_head in Htrace. subst evs.
  split; [split; [done | by exists mk, rest] |].
  intros Es. induction Es as [|E' Es IH]; [done |]. simpl.
  unfold process_image at 1, try_except.
  rewrite process_image_body_skip by done. by rewrite IH.
Qed.

(** ** Exceptions stay inside the task *)

Lemma try_body_ok_outcome E t w a w1 :
  try_body E t w = (Ok a, w1) → is_skipped t.2 a ∨ is_processed t.2 a.
Proof.
  destruct t as [[|] p]; unfold try_body; cbn [fst snd]; intros H.
  - destruct (fs w !! marker_path p) as [n|] eqn:Hm.
    + rewrite process_image_body_skip in H by (by rewrite Hm).
      left. by inversion H.
    + rewrite process_image_body_render in H by done.
      apply render_image_inv_ok in H as [-> _]. right. by left.
  - destruct (fs w !! marker_path p) as [n|] eqn:Hm.
    + rewrite process_video_body_skip in H by (by rewrite Hm).
      left. by inversion H.
    + rewrite process_video_body_render in H by done.
      apply render_video_inv_ok in H as [-> _]. right. by right.
Qed.

Lemma call_try_body E t w :
  call E t w =
    match try_body E t w with
    | (Ok a, w1) => (Ok a, w1)
    | (Raise e, w1) =>
        match t.1 with
        | Fprocess_image =>
            (Ok ("Error: " +:+ PathOps.name t.2),
             add_log ERROR ("Error processing image " +:+ PathOps.str t.2
                            +:+ ": " +:+ exn_str e) w1)
        | Fprocess_video => process_video_handler t.2 e w1
        end
    end.
Proof.
  destruct t as [[|] p]; unfold try_body; cbn [fst snd].
  - change (call E (Fprocess_image, p)) with (process_image E p).
    unfold process_image, try_except.
    by destruct (process_image_body E p w) as [[a|e] w1].
  - change (call E (Fprocess_video, p)) with (process_video E p).
    unfold process_video, try_except.
    by destruct (process_video_body E p w) as [[a|e] w1].
Qed.

(** Every call of a processor returns one of the outcome strings. *)
Lemma call_total E t w :
  ∃ r w', call E t w = (Ok r, w') ∧
          (is_skipped t.2 r ∨ is_processed t.2 r ∨ is_failed t.2 r).
Proof.
  rewrite call_try_body.
  destruct (try_body E t w) as [[a|e] w1] eqn:Hb.
  - exists a, w1. split; [done |].
    apply try_body_ok_outcome in Hb. tauto.
  - destruct t as [[|] p]; cbn [fst snd].
    + eexists _, _. split; [done |]. right. right. by left.
    + destruct e; simpl; eexists _, _; (split; [done |]); right; right;
        [by right | by left].
Qed.

(** All the futures of a pool hold a value, one per submitted task. *)
Lemma run_futures_ok E ts w :
  ∃ rs w', run_futures E ts w = (Ok (Ok <$> rs), w') ∧
           Forall2 (fun t r => is_skipped t.2 r ∨ is_processed t.2 r ∨ is_failed t.2 r)
                   ts rs.
Proof.
  revert w. induction ts as [|t ts IH]; intros w.
  { exists [], w. by split; [| constructor]. }
  destruct (call_total E t w) as (r & w1 & Hc & Ho).
  destruct (IH w1) as (rs & w' & Hrs & Hfa).
  exists (r :: rs), w'. split; [| by constructor].
  cbn [run_futures].
  rewrite (bind_ok (run_future E t) _ w (Ok r) w1).
  2:{ unfold run_future. by rewrite Hc. }
  by rewrite (bind_ok (run_futures E ts) _ w1 (Ok <$> rs) w' Hrs).
Qed.

(** C3. A processor never raises: whatever the codec, the RAW library,
    [ffmpeg] or the file system do, the call returns one of the outcome
    strings.  When the [try] block raises [e], the result is a failure
    string, the recorded effects are those the block left, so is every
    entry of the file system other than a log file, and one ERROR record
    is logged, which the handler appends to the log file: it ends with the
    text of the exception.  Apart from the log file the call changes no
    entry outside the file's own sidecar directory, and in a pool every
    future holds a value, so the failure of one task reaches neither the
    scheduler nor another task. *)
Theorem processors_never_raise E t w :
  ∃ r w',
    call E t w = (Ok r, w') ∧
    (is_skipped t.2 r ∨ is_processed t.2 r ∨ is_failed t.2 r) ∧
    (∀ e w1, try_body E t w = (Raise e, w1) →
       is_failed t.2 r ∧
       (∀ x, ¬ is_log_file x → fs w' !! x = fs w1 !! x) ∧
       trace w' = trace w1 ∧
       ∃ label, log w' = log w1 ++
         [(ERROR, label +:+ PathOps.str t.2 +:+ ": " +:+ summary_of t.1 e)]) ∧
    (∀ x, outside (thumb_dir_of t.2) x → ¬ is_log_file x →
          fs w' !! x = fs w !! x) ∧
    (∀ ts w0, ∃ rs w1, run_futures E ts w0 = (Ok (Ok <$> rs), w1) ∧
                       List.length rs = List.length ts).
Proof.
  destruct (call_total E t w) as (r & w' & Hc & Ho).
  exists r, w'. split; [done |]. split; [done |]. split; [| split].
  - intros e w1 Hb. rewrite call_try_body, Hb in Hc.
    destruct t as [[|] p]; cbn [fst snd] in *.
    + inversion Hc; subst r w'. split; [by left |]. split; [done |].
      split; [done |]. by exists "Error processing image ".
    + destruct e; simpl in Hc; inversion Hc; subst r w'.
      * split; [by right |]. split; [done |]. split; [done |].
        by exists "FFmpeg error while processing video ".
      * split; [by left |]. split; [done |]. split; [done |].
        by exists "Error processing video ".
  - intros x Hx _. pose proof (same_at_call E x t Hx w) as Hs.
    by rewrite Hc in Hs.
  - intros ts w0. destruct (run_futures_ok E ts w0) as (rs & w1 & Hrs & Hfa).
    exists rs, w1. split; [done |]. symmetry. exact (Forall2_length _ _ _ Hfa).
Qed.

(** ** The scheduler *)

(** A relation that every primitive effect respects is respected by the
    processors. *)
Section Generic.

Variable E : Env.
Context (T : relation World) `{!PreOrder T}.
Hypothesis T_mkdir : ∀ q, steps T (mkdir_one E q).
Hypothesis T_save : ∀ im p q, steps T (save E im p q).
Hypothesis T_run : ∀ cmd out, steps T (subprocess_run E cmd out).
Hypothesis T_unlink : ∀ p, steps T (unlink E p).
Hypothesis T_error : ∀ msg, steps T (logging_error msg).

Lemma steps_standard_thumbnails img d : steps T (standard_thumbnails E img d).
Proof.
  apply steps_for_each; [done |]. intros [name size] _.
  apply steps_bind; [done | by apply steps_lift |]. intros im. apply T_save.
Qed.

Lemma steps_process_image p : steps T (process_image E p).
Proof.
  apply steps_try_except; [done | |].
  - apply steps_bind; [done | by apply steps_first_key |]. intros marker.
    apply steps_bind; [done | by apply steps_path_exists |]. intros [|].
    { by apply steps_ret. }
    unfold render_image.
    apply steps_bind; [done | by apply steps_for_each |]. intros _.
    apply steps_bind; [done | |].
    { case_match; [by apply steps_lift_fs |].
      apply steps_bind; [done | by apply steps_lift_fs |]. intros img.
      case_match; [by apply steps_lift | by apply steps_ret]. }
    intros img0.
    apply steps_bind; [done | by apply steps_lift |]. intros img.
    apply steps_bind; [done | apply steps_standard_thumbnails |]. intros _.
    apply steps_bind; [done | by apply steps_lift |]. intros im.
    apply steps_bind; [done | apply T_save |]. intros _.
    by apply steps_ret.
  - intros e. apply steps_bind; [done | apply T_error |]. intros _.
    by apply steps_ret.
Qed.

Lemma steps_process_video p : steps T (process_video E p).
Proof.
  apply steps_try_except; [done | |].
  - apply steps_bind; [done | by apply steps_first_key |]. intros marker.
    apply steps_bind; [done | by apply steps_path_exists |]. intros [|].
    { by apply steps_ret. }
    unfold render_video.
    apply steps_bind; [done | by apply steps_for_each |]. intros _.
    apply steps_bind; [done | apply T_run |]. intros _.
    apply steps_bind; [done | | intros _; by apply steps_ret].
    unfold extract_and_resize.
    apply steps_bind; [done | apply T_run |]. intros _.
    apply steps_bind; [done | by apply steps_path_exists |]. intros [|]; simpl.
    + apply steps_bind; [done | by apply steps_lift_fs |]. intros img.
      apply steps_bind; [done | apply steps_standard_thumbnails |]. intros _.
      apply T_unlink.
    + by apply steps_raise.
  - intros e. destruct e; simpl;
      (apply steps_bind; [done | apply T_error |]); intros _; by apply steps_ret.
Qed.

Lemma steps_call t : steps T (call E t).
Proof.
  destruct t as [[|] p].
  - apply steps_process_image.
  - apply steps_process_video.
Qed.

End Generic.

#[global] Instance quiet_preorder : PreOrder quiet.
Proof.
  split.
  - by intros w.
  - intros w1 w2 w3 [H1 H1'] [H2 H2']. unfold quiet in *. split; congruence.
Qed.

Lemma quiet_call E t : steps quiet (call E t).
Proof.
  apply steps_call; [apply _ | | | | |].
  - intros q w. unfold mkdir_one.
    destruct (fs w !! q) as [[|c]|]; simpl; try done.
    by destruct (mkdir_error E q (fs w)).
  - intros im p q w. unfold save.
    destruct (fs w !! p) as [[|c]|]; simpl; try done;
      by destruct (save_error E p im (fs w)).
  - intros cmd out w. unfold subprocess_run.
    destruct (ffmpeg E cmd (fs w)) as [msg | rc err [c|]]; simpl; [done | |];
      by destruct (rc =? 0).
  - intros p w. unfold unlink.
    destruct (fs w !! p) as [[|c]|]; simpl; try done.
    by destruct (unlink_error E p (fs w)).
  - intros msg w. split; [| done]. simpl. unfold info_records.
    rewrite omap_app. simpl. by rewrite app_nil_r.
Qed.

Lemma quiet_run_futures E ts : steps quiet (run_futures E ts).
Proof.
  induction ts as [|t ts IH]; simpl.
  { apply steps_ret; apply _. }
  apply steps_bind; [apply _ | |].
  - intros w. unfold run_future. pose proof (quiet_call E t w) as H.
    by destruct (call E t w).
  - intros r. apply steps_bind; [apply _ | done |]. intros rs.
    apply steps_ret; apply _.
Qed.

Lemma collect_values rs w :
  collect (Ok <$> rs) w = (Ok tt, forwarded rs w).
Proof.
  revert w. induction rs as [|r rs IH]; intros w; [done |].
  unfold collect in *. simpl.
  rewrite (bind_ok _ _ w tt (add_pbar 1 (add_log INFO r w))); [apply IH | done].
Qed.

Lemma forwarded_spec rs w :
  fs (forwarded rs w) = fs w ∧
  trace (forwarded rs w) = trace w ∧
  info_records (log (forwarded rs w)) = info_records (log w) ++ rs ∧
  pbar (forwarded rs w) = (pbar w + List.length rs)%nat.
Proof.
  revert w. induction rs as [|r rs IH]; intros w; simpl.
  { by rewrite app_nil_r, Nat.add_0_r. }
  destruct (IH (add_pbar 1 (add_log INFO r w))) as (H1 & H2 & H3 & H4).
  rewrite H1, H2, H3, H4. simpl. unfold info_records. rewrite omap_app. simpl.
  split; [done |]. split; [done |]. split; [by rewrite <- app_assoc | lia].
Qed.

Lemma make_tasks_paths files : (make_tasks files).*2 = files.
Proof.
  unfold make_tasks. induction files as [|f files IH]; [done |].
  cbn. f_equal; [| exact IH]. unfold task_of. by destruct (str_in _ _).
Qed.

(** C2. Whatever order the pool runs and completes the tasks in, [main]
    ends normally, and the results it forwards to the log and to the
    progress bar are exactly one outcome (skipped, processed or failed) per
    discovered file: the tasks that ran are a permutation of the discovered
    files, each has its outcome in the log, in order of completion, between
    the opening and the closing records, and the progress bar has advanced
    by the number of files.  With no file discovered the run exits with
    code 0 and forwards nothing. *)
Theorem one_outcome_per_file E root schedule w :
  (∀ l : list Task, schedule l ≡ₚ l) →
  let files := media_files root (fs w) in
  let ran := schedule (make_tasks files) in
  ∃ outs w',
    main E root schedule w
      = (Ok (if bool_decide (files = []) then SysExit 0 else Completed), w') ∧
    ran.*2 ≡ₚ files ∧
    Forall2 outcome_of ran outs ∧
    pbar w' = (pbar w + List.length files)%nat ∧
    info_records (log w') = info_records (log w) ++
      (if bool_decide (files = []) then ["No media files found."]
       else ["Found " +:+ pretty (List.length files) +:+ " media files to process.";
             "Using " +:+ pretty (max_workers E) +:+ " threads."]
            ++ outs ++ ["Script finished successfully."]).
Proof.
  intros Hperm files ran.
  assert (Hran : ran.*2 ≡ₚ files).
  { unfold ran. rewrite (Hperm (make_tasks files)). by rewrite make_tasks_paths. }
  unfold main. fold files.
  rewrite (bind_ok _ _ w files w) by done.
  destruct (bool_decide (files = [])) eqn:Hempty.
  - apply bool_decide_eq_true_1 in Hempty.
    exists [], (add_log INFO "No media files found." w).
    split; [done |]. split; [done |]. split.
    { assert (ran = []) as ->; [| constructor].
      rewrite Hempty in Hran. apply Permutation_nil_r in Hran.
      by apply fmap_nil_inv in Hran. }
    split; [rewrite Hempty; simpl; lia |].
    simpl. unfold info_records. by rewrite omap_app.
  - fold ran.
    set (w1 := add_log INFO ("Using " +:+ pretty (max_workers E) +:+ " threads.")
                 (add_log INFO ("Found " +:+ pretty (List.length files)
                                +:+ " media files to process.") w)).
    destruct (run_futures_ok E ran w1) as (outs & w2 & Hrun & Hout).
    exists outs, (add_log INFO "Script finished successfully." (forwarded outs w2)).
    split.
    { rewrite (bind_ok _ _ w tt (add_log INFO ("Found " +:+ pretty (List.length files)
                                +:+ " media files to process.") w)) by done.
      rewrite (bind_ok _ _ _ tt w1) by done.
      rewrite (bind_ok _ _ w1 _ w2 Hrun).
      by rewrite (bind_ok _ _ w2 tt (forwarded outs w2) (collect_values outs w2)). }
    split; [done |]. split; [done |].
    pose proof (forwarded_spec outs w2) as (_ & _ & Hinfo & Hpb).
    assert (Hq : quiet w1 w2).
    { pose proof (quiet_run_futures E ran w1) as H. by rewrite Hrun in H. }
    destruct Hq as [Hq1 Hq2].
    split.
    + simpl. rewrite Hpb, Hq2. simpl.
      rewrite <- (Forall2_length _ _ _ Hout).
      rewrite <- (length_fmap snd ran). by rewrite Hran.
    + simpl. unfold info_records in *. rewrite omap_app. simpl.
      rewrite Hinfo, Hq1. simpl. rewrite !omap_app. simpl.
      by rewrite <- !app_assoc.
Qed.

(** ** Discovery *)

Lemma is_prefix_app n s : Str.is_prefix n (n +:+ s) = true.
Proof. induction n as [|a n IH]; [done |]. simpl. by rewrite Ascii.eqb_refl. Qed.

Lemma is_prefix_app_r n s t :
  Str.is_prefix n s = true → Str.is_prefix n (s +:+ t) = true.
Proof.
  revert s. induction n as [|a n IH]; intros s H; [done |].
  destruct s as [|b s]; [done |]. simpl in *.
  apply andb_true_iff in H as [-> H]. by apply IH.
Qed.

Lemma contains_cons n a u :
  Str.contains n (String a u) = Str.is_prefix n (String a u) || Str.contains n u.
Proof. reflexivity. Qed.

Lemma contains_app_l n s t :
  Str.contains n s = true → Str.contains n (s +:+ t) = true.
Proof.
  induction s as [|a s IH]; intros H.
  - destruct n; [by destruct t | done].
  - change (String a s +:+ t) with (String a (s +:+ t)).
    rewrite contains_cons in *. apply orb_true_iff.
    apply orb_true_iff in H as [H | H].
    + left. exact (is_prefix_app_r n (String a s) t H).
    + right. by apply IH.
Qed.

Lemma contains_app_r n s t :
  Str.contains n t = true → Str.contains n (s +:+ t) = true.
Proof.
  intros H. induction s as [|a s IH]; [done |].
  change (String a s +:+ t) with (String a (s +:+ t)).
  rewrite contains_cons, IH. apply orb_true_r.
Qed.

Lemma app_empty_r (s : string) : s +:+ "" = s.
Proof.
  induction s as [|b s IH]; [done |].
  change (String b s +:+ "") with (String b (s +:+ "")). by rewrite IH.
Qed.

Lemma contains_refl n : Str.contains n n = true.
Proof.
  pose proof (is_prefix_app n "") as H. rewrite app_empty_r in H.
  destruct n as [|a n]; [done |]. by rewrite contains_cons, H.
Qed.

(** A component of a path occurs in the text of the path. *)
Lemma contains_component c (l : Path) :
  c ∈ l → Str.contains c (PathOps.str l) = true.
Proof.
  intros Hin. assert (Str.contains c (Str.join "/" l) = true) as H.
  { induction l as [|x l IH]; [by apply elem_of_nil in Hin |].
    apply elem_of_cons in Hin as [-> | Hin].
    - destruct l as [|y l]; simpl; [apply contains_refl |].
      apply contains_app_l, contains_refl.
    - specialize (IH Hin). destruct l as [|y l]; [by apply elem_of_nil in Hin |].
      change (Str.join "/" (x :: y :: l))
        with (x +:+ "/" +:+ Str.join "/" (y :: l)).
      by apply contains_app_r, contains_app_r. }
  destruct l; [by apply elem_of_nil in Hin | done].
Qed.

Lemma elem_of_rglob root m f :
  f ∈ rglob root m ↔ is_Some (m !! f) ∧ root `prefix_of` f ∧ f ≠ root.
Proof.
  unfold rglob. rewrite list_elem_of_In, filter_In, <- list_elem_of_In.
  rewrite andb_true_iff, negb_true_iff, bool_decide_eq_true, bool_decide_eq_false.
  rewrite list_elem_of_fmap. split.
  - intros [([k v] & -> & Hin) [Hp Hne]]. apply elem_of_map_to_list in Hin.
    simpl in *. split; [by eexists | done].
  - intros ([v Hv] & Hp & Hne). split; [| done].
    exists (f, v). split; [done |]. by apply elem_of_map_to_list.
Qed.

Lemma elem_of_media_files root m f :
  f ∈ media_files root m ↔ f ∈ rglob root m ∧ is_media f = true.
Proof.
  unfold media_files. rewrite list_elem_of_In, filter_In, <- list_elem_of_In. done.
Qed.

Lemma media_files_iff root m f :
  f ∈ media_files root m ↔
    is_Some (m !! f) ∧ root `prefix_of` f ∧ f ≠ root ∧
    suffix_lower f ∈ all_extensions ∧
    Str.contains "@eaDir" (PathOps.str (PathOps.parent f)) = false.
Proof.
  rewrite elem_of_media_files, elem_of_rglob. unfold is_media, str_in.
  rewrite andb_true_iff, negb_true_iff, bool_decide_eq_true. tauto.
Qed.

(** C5 (amended). The discoverer yields, each once, exactly the entries
    below the root whose lower-cased extension is in one of the three sets
    and whose parent path, written as text, does not contain [@eaDir].
    Hence no entry with a directory named [@eaDir] on its path is yielded,
    and every path yielded that is a file is one of the specification's. *)
Theorem media_files_spec root m :
  NoDup (media_files root m) ∧
  (∀ f, f ∈ media_files root m ↔
        is_Some (m !! f) ∧ root `prefix_of` f ∧ f ≠ root ∧
        suffix_lower f ∈ all_extensions ∧
        Str.contains "@eaDir" (PathOps.str (PathOps.parent f)) = false) ∧
  (∀ f, "@eaDir" ∈ PathOps.parent f → f ∉ media_files root m) ∧
  (∀ f c, f ∈ media_files root m → m !! f = Some (File c) →
          spec_discovered root m f).
Proof.
  pose proof (media_files_iff root m) as Hiff.
  split; [| split; [done | split]].
  - unfold media_files, rglob.
    apply NoDup_ListNoDup, List.NoDup_filter, List.NoDup_filter, NoDup_ListNoDup.
    apply NoDup_fst_map_to_list.
  - intros f Hin Hf. apply Hiff in Hf as (_ & _ & _ & _ & Hc).
    by rewrite (contains_component _ _ Hin) in Hc.
  - intros f c Hf Hc. apply Hiff in Hf as (_ & Hp & Hne & Hext & Hno).
    split; [by exists c |]. split; [done |]. split; [done |]. split; [done |].
    intros Hin. by rewrite (contains_component _ _ Hin) in Hno.
Qed.

(** C5, as stated, fails: a JPEG in a directory named [@eaDir_old] is a
    file of the specification (no directory on its path is named [@eaDir])
    and is not yielded. *)
Lemma discoverer_counterexample :
  let m : gmap Path Node :=
    {[ ["photos"] := Dir;
       ["photos"; "@eaDir_old"] := Dir;
       ["photos"; "@eaDir_old"; "z.jpg"] := File (Blob "") ]} in
  let f := ["photos"; "@eaDir_old"; "z.jpg"] in
  spec_discovered ["photos"] m f ∧ f ∉ media_files ["photos"] m.
Proof.
  cbn zeta. split.
  - split; [by exists (Blob "") |]. split; [by exists ["@eaDir_old"; "z.jpg"] |].
    split; [done |]. split.
    + apply (bool_decide_unpack _). by vm_compute.
    + intros H. simpl in H.
      repeat (apply elem_of_cons in H as [H | H]; [done |]).
      by apply elem_of_nil in H.
  - intros H. apply media_files_iff in H as (_ & _ & _ & _ & H).
    by vm_compute in H.
Qed.

(** ** Classification and files that are not media *)

Lemma suffix_lower_name f g :
  PathOps.name f = PathOps.name g → suffix_lower f = suffix_lower g.
Proof. unfold suffix_lower, PathOps.suffix. by intros ->. Qed.

Lemma is_media_inv g :
  is_media g = true →
  suffix_lower g ∈ all_extensions ∧ "@eaDir" ∉ PathOps.parent g.
Proof.
  unfold is_media, str_in.
  rewrite andb_true_iff, negb_true_iff, bool_decide_eq_true.
  intros [He Hc]. split; [done |]. intros Hin.
  by rewrite (contains_component _ _ Hin) in Hc.
Qed.

(** The sidecar directory of a file that is not media is none of the paths
    the task of a discovered file can touch. *)
Lemma sidecar_outside g f :
  is_media g = true → suffix_lower f ∉ all_extensions →
  outside (thumb_dir_of g) (thumb_dir_of f).
Proof.
  intros Hg Hf. apply is_media_inv in Hg as [Hext Hno].
  unfold thumb_dir_of, PathOps.child. split.
  - intros H. apply prefixes_spec in H as (_ & rest & H).
    destruct rest as [|r rest _] using rev_ind.
    + rewrite app_nil_r in H. apply app_inj_tail in H as [_ Hn].
      apply Hf. by rewrite <- (suffix_lower_name g f Hn).
    + rewrite app_assoc in H. apply app_inj_tail in H as [H _].
      apply Hno. destruct rest as [|r' rest _] using rev_ind.
      * rewrite app_nil_r in H. apply app_inj_tail in H as [-> _].
        apply elem_of_app. right. left.
      * rewrite app_assoc in H. apply app_inj_tail in H as [-> _].
        rewrite !elem_of_app. left. left. right. left.
  - intros c H. apply app_inj_tail in H as [H _].
    apply app_inj_tail in H as [_ Hn].
    unfold suffix_lower, PathOps.suffix in Hext. rewrite <- Hn in Hext.
    vm_compute in Hext.
    repeat (apply elem_of_cons in Hext as [Hext | Hext]; [done |]).
    by apply elem_of_nil in Hext.
Qed.

Lemma same_at_run_futures E x ts :
  (∀ t, t ∈ ts → outside (thumb_dir_of t.2) x) →
  steps (same_at x) (run_futures E ts).
Proof.
  induction ts as [|t ts IH]; intros H; simpl.
  { apply steps_ret; apply _. }
  apply steps_bind; [apply _ | |].
  - intros w. unfold run_future.
    pose proof (same_at_call E x t (H t ltac:(left)) w) as Hs.
    by destruct (call E t w).
  - intros r. apply steps_bind; [apply _ | |].
    + apply IH. intros t' Ht'. apply H. by right.
    + intros rs. apply steps_ret; apply _.
Qed.

Lemma same_at_collect x futures : steps (same_at x) (collect futures).
Proof.
  apply steps_for_each; [apply _ |]. intros fut _.
  apply steps_bind; [apply _ | apply steps_future_result; apply _ |]. intros r.
  apply steps_bind; [apply _ | apply same_at_logging_info |]. intros _.
  by apply same_at_modify_log.
Qed.

Lemma same_at_main E x root schedule w :
  (∀ t, t ∈ schedule (make_tasks (media_files root (fs w))) →
        outside (thumb_dir_of t.2) x) →
  fs (main E root schedule w).2 !! x = fs w !! x.
Proof.
  intros H. unfold main.
  rewrite (bind_ok _ _ w (media_files root (fs w)) w) by done.
  destruct (bool_decide (media_files root (fs w) = [])); [done |].
  match goal with |- fs (?c w).2 !! x = _ =>
    assert (Hs : steps (same_at x) c); [| exact (Hs w)] end.
  apply steps_bind; [apply _ | apply same_at_logging_info |]. intros _.
  apply steps_bind; [apply _ | apply same_at_logging_info |]. intros _.
  apply steps_bind; [apply _ | by apply same_at_run_futures |]. intros futs.
  apply steps_bind; [apply _ | apply same_at_collect |]. intros _.
  apply steps_bind; [apply _ | apply same_at_logging_info |]. intros _.
  apply steps_ret; apply _.
Qed.

Lemma extension_sets_disjoint e :
  ¬ (e ∈ IMAGE_EXTENSIONS ∧ e ∈ RAW_EXTENSIONS) ∧
  ¬ (e ∈ IMAGE_EXTENSIONS ∧ e ∈ VIDEO_EXTENSIONS) ∧
  ¬ (e ∈ RAW_EXTENSIONS ∧ e ∈ VIDEO_EXTENSIONS).
Proof.
  assert (H : ∀ l1 l2 : list string,
            bool_decide (Forall (fun a => a ∉ l2) l1) = true →
            ¬ (e ∈ l1 ∧ e ∈ l2)).
  { intros l1 l2 Hd [H1 H2]. apply bool_decide_eq_true_1 in Hd.
    rewrite Forall_forall in Hd. by apply (Hd e). }
  split; [| split]; apply H; by vm_compute.
Qed.

Lemma processor_of_task E f :
  suffix_lower f ∈ all_extensions → processor_of E f = Some (call E (task_of f)).
Proof.
  intros Hext. unfold processor_of, task_of, str_in.
  destruct (bool_decide (suffix_lower f ∈ VIDEO_EXTENSIONS)) eqn:Hv; [done |].
  rewrite bool_decide_eq_true_2; [done |].
  apply bool_decide_eq_false_1 in Hv. unfold all_extensions in Hext.
  rewrite !elem_of_app in Hext. rewrite elem_of_app. tauto.
Qed.

(** The pool runs, for each task of the discovered files, the processor of
    the file's extension. *)
Lemma run_futures_run_each E ts w :
  (∀ t, t ∈ ts → t = task_of t.2 ∧ suffix_lower t.2 ∈ all_extensions) →
  run_futures E ts w = (Ok (run_each E ts.*2 w).1, (run_each E ts.*2 w).2).
Proof.
  revert w. induction ts as [|t ts IH]; intros w H; [done |].
  destruct (H t ltac:(left)) as [Ht Hext].
  assert (IH' := fun w1 => IH w1 (fun t' Ht' => H t' (list_elem_of_further _ _ _ Ht'))).
  cbn [run_futures fmap list_fmap run_each].
  rewrite (processor_of_task E t.2 Hext), <- Ht.
  rewrite (bind_ok (run_future E t) _ w (call E t w).1 (call E t w).2).
  2:{ unfold run_future. by destruct (call E t w). }
  rewrite (bind_ok (run_futures E ts) _ _ _ _ (IH' _)).
  destruct (call E t w) as [r w1]. simpl.
  by destruct (run_each E ts.*2 w1).
Qed.

(** C9. The three extension sets are pairwise disjoint, and the processor
    of a task depends on the lower-cased extension only.  [main] hands every
    discovered file to the task of its lower-cased extension, and the call
    of that task is the call of the video processor for an extension of
    the video set and of the image processor for one of the plain or RAW
    sets: a run of [main] over a library with media is the run, in the
    order of completion, of each discovered file through the processor of
    its extension, its results forwarded between the opening and the
    closing records.  A file whose extension is in none of the sets has no
    processor and is not among the discovered files, so no task is made for
    it in any schedule, and the run leaves the entry at its sidecar
    directory as it was: none is made. *)
Theorem classification_by_extension E root schedule w :
  (∀ l : list Task, schedule l ≡ₚ l) →
  let files := media_files root (fs w) in
  let ran := schedule (make_tasks files) in
  (∀ e, ¬ (e ∈ IMAGE_EXTENSIONS ∧ e ∈ RAW_EXTENSIONS) ∧
        ¬ (e ∈ IMAGE_EXTENSIONS ∧ e ∈ VIDEO_EXTENSIONS) ∧
        ¬ (e ∈ RAW_EXTENSIONS ∧ e ∈ VIDEO_EXTENSIONS)) ∧
  (∀ f g, suffix_lower f = suffix_lower g → (task_of f).1 = (task_of g).1) ∧
  (∀ f, suffix_lower f ∈ VIDEO_EXTENSIONS →
        processor_of E f = Some (process_video E f) ∧
        call E (task_of f) = process_video E f) ∧
  (∀ f, suffix_lower f ∈ IMAGE_EXTENSIONS ++ RAW_EXTENSIONS →
        processor_of E f = Some (process_image E f) ∧
        call E (task_of f) = process_image E f) ∧
  (∀ f, f ∈ files →
        task_of f ∈ ran ∧
        (suffix_lower f ∈ VIDEO_EXTENSIONS ∨
         suffix_lower f ∈ IMAGE_EXTENSIONS ++ RAW_EXTENSIONS)) ∧
  (files ≠ [] →
   ∃ outs w2,
     ran.*2 ≡ₚ files ∧
     run_each E ran.*2
       (add_log INFO ("Using " +:+ pretty (max_workers E) +:+ " threads.")
          (add_log INFO ("Found " +:+ pretty (List.length files)
                         +:+ " media files to process.") w))
       = (Ok <$> outs, w2) ∧
     List.length outs = List.length files ∧
     main E root schedule w =
       (Ok Completed,
        add_log INFO "Script finished successfully." (forwarded outs w2))) ∧
  (∀ f, suffix_lower f ∉ all_extensions →
     processor_of E f = None ∧
     (f ∉ files) ∧
     (∀ func, (func, f) ∉ ran) ∧
     fs (main E root schedule w).2 !! thumb_dir_of f = fs w !! thumb_dir_of f).
Proof.
  intros Hperm files ran.
  assert (Hvideo : ∀ f, suffix_lower f ∈ VIDEO_EXTENSIONS →
            processor_of E f = Some (process_video E f) ∧
            call E (task_of f) = process_video E f).
  { intros f Hv. unfold processor_of, task_of, str_in.
    by rewrite !bool_decide_eq_true_2. }
  assert (Himage : ∀ f, suffix_lower f ∈ IMAGE_EXTENSIONS ++ RAW_EXTENSIONS →
            processor_of E f = Some (process_image E f) ∧
            call E (task_of f) = process_image E f).
  { intros f Hi.
    assert (Hnv : suffix_lower f ∉ VIDEO_EXTENSIONS).
    { intros Hv. destruct (extension_sets_disjoint (suffix_lower f)) as (_ & H1 & H2).
      apply elem_of_app in Hi as [Hi | Hi]; [by apply H1 | by apply H2]. }
    unfold processor_of, task_of, str_in.
    by rewrite (bool_decide_eq_false_2 _ Hnv), (bool_decide_eq_true_2 _ Hi). }
  assert (Htasks : ∀ t, t ∈ ran → t.2 ∈ files ∧ t = task_of t.2).
  { intros t Ht. unfold ran in Ht. rewrite (Hperm _) in Ht. split.
    - apply (list_elem_of_fmap_2 snd) in Ht. by rewrite make_tasks_paths in Ht.
    - unfold make_tasks in Ht. apply list_elem_of_fmap in Ht as (f & -> & _).
      unfold task_of.
      destruct (str_in (suffix_lower f) VIDEO_EXTENSIONS) eqn:Hd;
        cbn [snd]; by rewrite Hd. }
  assert (Hran : ran.*2 ≡ₚ files).
  { unfold ran. rewrite (Hperm (make_tasks files)). by rewrite make_tasks_paths. }
  split; [apply extension_sets_disjoint |].
  split; [intros f g Heq; unfold task_of; rewrite Heq; by destruct (str_in _ _) |].
  split; [done |]. split; [done |]. split; [| split].
  - intros f Hf. split.
    + unfold ran. rewrite (Hperm _). unfold make_tasks.
      by apply list_elem_of_fmap_2.
    + apply media_files_iff in Hf as (_ & _ & _ & Hext & _).
      unfold all_extensions in Hext. rewrite !elem_of_app in Hext.
      rewrite elem_of_app. tauto.
  - intros Hne.
    set (w1 := add_log INFO ("Using " +:+ pretty (max_workers E) +:+ " threads.")
                 (add_log INFO ("Found " +:+ pretty (List.length files)
                                +:+ " media files to process.") w)).
    destruct (run_futures_ok E ran w1) as (outs & w2 & Hrun & Hout).
    exists outs, w2. split; [done |].
    assert (Heach : run_futures E ran w1
                    = (Ok (run_each E ran.*2 w1).1, (run_each E ran.*2 w1).2)).
    { apply run_futures_run_each. intros t Ht.
      destruct (Htasks t Ht) as [Hin Heq]. split; [done |].
      apply media_files_iff in Hin. tauto. }
    rewrite Hrun in Heach. inversion Heach as [[H1 H2]].
    split; [by rewrite H1; destruct (run_each E ran.*2 w1) |].
    split.
    { rewrite <- (Forall2_length _ _ _ Hout), <- (length_fmap snd ran).
      by rewrite Hran. }
    unfold main. fold files.
    rewrite (bind_ok _ _ w files w) by done.
    rewrite bool_decide_eq_false_2 by done. fold ran.
    rewrite (bind_ok _ _ w tt (add_log INFO ("Found " +:+ pretty (List.length files)
                                +:+ " media files to process.") w)) by done.
    rewrite (bind_ok _ _ _ tt w1) by done.
    rewrite (bind_ok _ _ w1 _ w2 Hrun).
    rewrite <- H2.
    by rewrite (bind_ok _ _ w2 tt (forwarded outs w2) (collect_values outs w2)).
  - intros f Hf.
    assert (Hnot : f ∉ files).
    { intros Hin. apply media_files_iff in Hin. tauto. }
    split.
    { unfold all_extensions in Hf. rewrite !elem_of_app in Hf.
      assert (Hnv : suffix_lower f ∉ VIDEO_EXTENSIONS) by tauto.
      assert (Hni : suffix_lower f ∉ IMAGE_EXTENSIONS ++ RAW_EXTENSIONS).
      { rewrite elem_of_app. tauto. }
      unfold processor_of.
      by rewrite (bool_decide_eq_false_2 _ Hnv), (bool_decide_eq_false_2 _ Hni). }
    split; [done |]. split.
    + intros func Hin. by apply Hnot, (Htasks (func, f)).
    + apply same_at_main. intros t Ht. apply sidecar_outside; [| done].
      apply Htasks in Ht as [Ht _]. by apply elem_of_media_files in Ht as [_ ?].
Qed.

(** * Concrete runs *)

Lemma run_eq {A} (c : M A) (w : World) r :
  (c w).1 = r → c w = (r, (c w).2).
Proof. intros <-. by destruct (c w). Qed.

Lemma skip_no_side_effects_witness :
  let t := (Fprocess_image, a_jpg) in
  let w1 := (call E_ok t w0).2 in
  ∃ r', call E_ok t w1 = (Ok r', w1) ∧ is_skipped t.2 r'.
Proof.
  cbn zeta. apply skip_no_side_effects. right.
  exists E_ok, w0, "Image processed: a.jpg". split.
  - apply run_eq. vm_compute. reflexivity.
  - left. left. reflexivity.
Defined.

Lemma one_outcome_per_file_witness :
  let files := media_files ["photos"] (fs w0) in
  let ran := reverse (make_tasks files) in
  ∃ outs w',
    main E_ok ["photos"] reverse w0
      = (Ok (if bool_decide (files = []) then SysExit 0 else Completed), w') ∧
    ran.*2 ≡ₚ files ∧
    Forall2 outcome_of ran outs ∧
    pbar w' = (pbar w0 + List.length files)%nat ∧
    info_records (log w') = info_records (log w0) ++
      (if bool_decide (files = []) then ["No media files found."]
       else ["Found " +:+ pretty (List.length files) +:+ " media files to process.";
             "Using " +:+ pretty (max_workers E_ok) +:+ " threads."]
            ++ outs ++ ["Script finished successfully."]).
Proof.
  apply (one_outcome_per_file E_ok ["photos"] reverse w0).
  intros l. apply reverse_Permutation.
Defined.

Lemma standard_thumbnails_fit_box_witness :
  ∃ w',
    process_image E_ok a_jpg w0 = (Ok ("Image processed: " +:+ PathOps.name a_jpg), w') ∧
    ∀ name bw bh, (name, (bw, bh)) ∈ THUMBNAIL_CONFIG →
      ∃ im, thumbnail E_ok img_2000x1000 (bw, bh) = inr im ∧
            fs w' !! (thumb_dir_of a_jpg </> name) = Some (File (Jpeg 95 im)) ∧
            fits_spec 2000 1000 bw bh (width im) (height im).
Proof.
  cbn zeta.
  apply (proj2 (standard_thumbnails_fit_box E_ok (Fprocess_image, a_jpg) w0)
           img_2000x1000).
  - reflexivity.
  - vm_compute. reflexivity.
  - exists (mkdir_parents E_ok (thumb_dir_of a_jpg) w0).2, img_2000x1000.
    split; [apply run_eq; vm_compute; reflexivity |].
    split; [vm_compute; reflexivity | reflexivity].
  - simpl. lia.
  - simpl. lia.
  - reflexivity.
  - intros c. change (thumb_dir_of a_jpg </> c)
      with (["photos"; "@eaDir"; "a.jpg"; c] : Path).
    unfold w0, fs, a_jpg, c_mp4.
    rewrite !lookup_insert_ne by done. by rewrite lookup_singleton_ne.
Defined.

Lemma preview_is_padded_square_witness :
  let w' := (process_image E_ok a_jpg w0).2 in
  ∃ img im pad : Image,
    base_raster E_ok (Fprocess_image, a_jpg) img ∧
    thumbnail E_ok img (p_size PREVIEW_CONFIG) = inr im ∧
    fs w' !! (thumb_dir_of a_jpg </> p_name PREVIEW_CONFIG)
      = Some (File (Jpeg 90 pad)) ∧
    width pad = 120 ∧ height pad = 120 ∧
    let ox := (120 - width im) / 2 in
    let oy := (120 - height im) / 2 in
    (∀ x y, ox ≤ x < ox + width im → oy ≤ y < oy + height im →
            px pad x y = px im (x - ox) (y - oy)) ∧
    (∀ x y, ¬ (ox ≤ x < ox + width im ∧ oy ≤ y < oy + height im) →
            px pad x y = (0, 0, 0)) ∧
    (0 < width img → 0 < height img →
     fits_spec (width img) (height img) 120 120 (width im) (height im) ∧
     0 ≤ ox ∧ ox + width im ≤ 120 ∧ 0 ≤ (120 - width im - ox) - ox ≤ 1 ∧
     0 ≤ oy ∧ oy + height im ≤ 120 ∧ 0 ≤ (120 - height im - oy) - oy ≤ 1).
Proof.
  cbn zeta.
  apply (preview_is_padded_square E_ok a_jpg w0 "Image processed: a.jpg").
  - apply run_eq. vm_compute. reflexivity.
  - reflexivity.
Defined.

Lemma filmstrip_failure_is_fatal_witness :
  let w1 := (mkdir_parents E_film_fails (thumb_dir_of c_mp4) w0).2 in
  ∃ w' mk,
    process_video E_film_fails c_mp4 w0 = (Ok "FFmpeg Error: c.mp4", w') ∧
    trace w' = trace w0 ++ mk ++ [EvRun (flv_cmd c_mp4 (film_flv_path_of c_mp4))] ∧
    Forall is_mkdir mk ∧
    log w' = log w0 ++
      [(ERROR, "FFmpeg error while processing video " +:+ PathOps.str c_mp4
               +:+ ": " +:+ Str.strip "moov atom not found")] ∧
    (∀ name, name ∈ THUMBNAIL_CONFIG.*1 →
       fs w' !! (thumb_dir_of c_mp4 </> name) = fs w0 !! (thumb_dir_of c_mp4 </> name)) ∧
    fs w' !! temp_thumb_path_of c_mp4 = fs w0 !! temp_thumb_path_of c_mp4.
Proof.
  cbn zeta.
  apply (filmstrip_failure_is_fatal E_film_fails c_mp4 w0
           (mkdir_parents E_film_fails (thumb_dir_of c_mp4) w0).2
           1 "moov atom not found" None).
  - vm_compute. reflexivity.
  - apply run_eq. vm_compute. reflexivity.
  - reflexivity.
  - lia.
Defined.

Lemma extraction_failure_fails_cleanly_witness :
  let E := E_extraction (Exited 1 "Invalid data found" None) in
  let p := c_mp4 in
  ∃ r w',
    process_video E p w0 = (Ok r, w') ∧
    is_failed p r ∧
    ((1 : Z) ≠ 0 →
       r = "FFmpeg Error: " +:+ PathOps.name p ∧
       log w' = log w0 ++
         [(ERROR, "FFmpeg error while processing video " +:+ PathOps.str p
                  +:+ ": " +:+ Str.strip "Invalid data found")]) ∧
    ((1 : Z) = 0 →
       r = "Error: " +:+ PathOps.name p ∧
       log w' = log w0 ++
         [(ERROR, "Error processing video " +:+ PathOps.str p
                  +:+ ": FFmpeg failed to extract a thumbnail frame.")]) ∧
    fs w' !! marker_path p = None ∧
    (∀ name, name ∈ THUMBNAIL_CONFIG.*1 →
       fs w' !! (thumb_dir_of p </> name) = fs w0 !! (thumb_dir_of p </> name)) ∧
    (∃ evs, trace w' = trace w0 ++ evs ∧ Forall (fun e => ¬ is_save e) evs) ∧
    (∀ E', ∃ r2 w'', process_video E' p w' = (Ok r2, w'') ∧ ¬ is_skipped p r2).
Proof.
  cbn zeta.
  set (E := E_extraction (Exited 1 "Invalid data found" None)).
  apply (extraction_failure_fails_cleanly E c_mp4 w0
           (mkdir_parents E (thumb_dir_of c_mp4) w0).2
           (subprocess_run E (flv_cmd c_mp4 (film_flv_path_of c_mp4))
              (film_flv_path_of c_mp4)
              (mkdir_parents E (thumb_dir_of c_mp4) w0).2).2
           1 "Invalid data found" None).
  - vm_compute. reflexivity.
  - apply run_eq. vm_compute. reflexivity.
  - apply run_eq. vm_compute. reflexivity.
  - reflexivity.
  - left. lia.
Defined.

(** C4, as stated, fails: the outcome and the log record of a failed frame
    extraction are those of a failed filmstrip with the same error text,
    and the two ways the extraction can fail give two different outcomes,
    the second being the one every other exception gives (here a frame
    that cannot be decoded).  No outcome singles out a failed extraction. *)
Lemma extraction_failure_kind_counterexample :
  let film := process_video E_film_fails c_mp4 w0 in
  let nonzero :=
    process_video (E_extraction (Exited 1 "moov atom not found" None)) c_mp4 w0 in
  let absent := process_video (E_extraction (Exited 0 "" None)) c_mp4 w0 in
  let undecodable := process_video E_bad_frame c_mp4 w0 in
  (film.1 = Ok "FFmpeg Error: c.mp4" ∧ nonzero.1 = Ok "FFmpeg Error: c.mp4" ∧
   log film.2 = log nonzero.2) ∧
  (absent.1 = Ok "Error: c.mp4" ∧ undecodable.1 = Ok "Error: c.mp4") ∧
  nonzero.1 ≠ absent.1.
Proof.
  cbn zeta. split; [| split].
  - vm_compute. done.
  - vm_compute. done.
  - vm_compute. discriminate.
Defined.

Lemma marker_written_first_blocks_retry_witness :
  let p := a_jpg in
  let w' := (process_image E_disk_full p w0).2 in
  let evs := [EvMkdir ["photos"; "@eaDir"]; EvMkdir ["photos"; "@eaDir"; "a.jpg"];
              EvSave (marker_path p) 95] in
  (List.hd "" THUMBNAIL_CONFIG.*1 = "SYNOPHOTO_THUMB_XL.jpg" ∧
   ∃ mk rest, evs = mk ++ EvSave (marker_path p) 95 :: rest ∧ Forall is_mkdir mk) ∧
  ∀ Es, run_again Es p w' =
        (List.map (fun _ => Ok ("Skipped (already exists): " +:+ PathOps.name p)) Es,
         w').
Proof.
  cbn zeta.
  apply (marker_written_first_blocks_retry E_disk_full a_jpg w0 "Error: a.jpg").
  - apply run_eq. vm_compute. reflexivity.
  - left. reflexivity.
  - vm_compute. reflexivity.
  - exists (marker_path a_jpg), 95. right. right. left.
Defined.

Lemma classification_by_extension_witness :
  let E := E_ok in
  let root : Path := ["photos"] in
  let w := w0 in
  let files := media_files root (fs w) in
  let ran := reverse (make_tasks files) in
  (∀ e, ¬ (e ∈ IMAGE_EXTENSIONS ∧ e ∈ RAW_EXTENSIONS) ∧
        ¬ (e ∈ IMAGE_EXTENSIONS ∧ e ∈ VIDEO_EXTENSIONS) ∧
        ¬ (e ∈ RAW_EXTENSIONS ∧ e ∈ VIDEO_EXTENSIONS)) ∧
  (∀ f g, suffix_lower f = suffix_lower g → (task_of f).1 = (task_of g).1) ∧
  (∀ f, suffix_lower f ∈ VIDEO_EXTENSIONS →
        processor_of E f = Some (process_video E f) ∧
        call E (task_of f) = process_video E f) ∧
  (∀ f, suffix_lower f ∈ IMAGE_EXTENSIONS ++ RAW_EXTENSIONS →
        processor_of E f = Some (process_image E f) ∧
        call E (task_of f) = process_image E f) ∧
  (∀ f, f ∈ files →
        task_of f ∈ ran ∧
        (suffix_lower f ∈ VIDEO_EXTENSIONS ∨
         suffix_lower f ∈ IMAGE_EXTENSIONS ++ RAW_EXTENSIONS)) ∧
  (files ≠ [] →
   ∃ outs w2,
     ran.*2 ≡ₚ files ∧
     run_each E ran.*2
       (add_log INFO ("Using " +:+ pretty (max_workers E) +:+ " threads.")
          (add_log INFO ("Found " +:+ pretty (List.length files)
                         +:+ " media files to process.") w))
       = (Ok <$> outs, w2) ∧
     List.length outs = List.length files ∧
     main E root reverse w =
       (Ok Completed,
        add_log INFO "Script finished successfully." (forwarded outs w2))) ∧
  (∀ f, suffix_lower f ∉ all_extensions →
     processor_of E f = None ∧
     (f ∉ files) ∧
     (∀ func, (func, f) ∉ ran) ∧
     fs (main E root reverse w).2 !! thumb_dir_of f = fs w !! thumb_dir_of f).
Proof.
  cbn zeta.
  apply (classification_by_extension E_ok ["photos"] reverse w0).
  intros l. apply reverse_Permutation.
Defined.

(** A video whose extension is written with the KELVIN SIGN is a video:
    its lower-cased extension is [.mkv], it is discovered and handed to the
    video processor. *)
Example kelvin_sign_extension :
  suffix_lower clip_kelvin = ".mkv" ∧
  is_media clip_kelvin = true ∧
  task_of clip_kelvin = (Fprocess_video, clip_kelvin) ∧
  media_files ["photos"]
    {[ (["photos"] : Path) := Dir; clip_kelvin := File (Blob "mkv data") ]}
    = [clip_kelvin].
Proof. by vm_compute. Qed.

(** The scenario of the specification: a 2000 by 1000 source gives an XL
    thumbnail of 1280 by 640 and a preview content of 120 by 60. *)
Example thumbnail_size_2000x1000 :
  PIL.thumbnail_size 2000 1000 (1280, 1280) = (1280, 640) ∧
  PIL.thumbnail_size 2000 1000 (120, 120) = (120, 60) ∧
  PIL.thumbnail_size 100 50 (160, 160) = (100, 50).
Proof. by vm_compute. Qed.

(** Extensions are matched without regard to case; the text file and the
    entries of a sidecar directory are not media. *)
Example suffix_examples :
  suffix_lower ["photos"; "IMG_0001.NEF"] = ".nef" ∧
  suffix_lower ["photos"; ".hidden"] = "" ∧
  is_media ["photos"; "IMG_0001.NEF"] = true ∧
  is_media ["photos"; "notes.txt"] = false ∧
  is_media ["photos"; "@eaDir"; "a.jpg"; "SYNOPHOTO_THUMB_XL.jpg"] = false.
Proof. by vm_compute. Qed.

(** A whole run over the library [w0], the tasks completing in reverse
    order of submission. *)
Example main_run :
  let r := main E_ok ["photos"] reverse w0 in
  r.1 = Ok Completed ∧
  log r.2 = [(INFO, "Found 2 media files to process.");
             (INFO, "Using 8 threads.");
             (INFO, "Video processed: c.mp4");
             (INFO, "Image processed: a.jpg");
             (INFO, "Script finished successfully.")] ∧
  pbar r.2 = 2%nat.
Proof. by vm_compute. Qed.

(** * Further properties of the script *)

(** ** Pool size, report lines, file names *)

(** X1. The pool has between 5 and 32 workers whatever [os.cpu_count()]
    returns: an unknown or zero count is taken as one processor, and up to
    28 processors the pool has four workers more than processors. *)
Theorem max_workers_bounds E :
  (5 ≤ max_workers E ≤ 32)%nat ∧
  (cpu_count E = None ∨ cpu_count E = Some 0%nat → max_workers E = 5%nat) ∧
  (∀ n, cpu_count E = Some n → (1 ≤ n ≤ 28)%nat → max_workers E = (n + 4)%nat) ∧
  (∀ n, cpu_count E = Some n → (28 ≤ n)%nat → max_workers E = 32%nat).
Proof.
  unfold max_workers. destruct (cpu_count E) as [[|n]|].
  - split; [lia |]. split; [done |]. split; intros m Hm; inversion Hm; lia.
  - split; [lia |]. split; [by intros [|] |].
    split; intros m Hm; inversion Hm; lia.
  - split; [lia |]. split; [done |]. split; intros m Hm; inversion Hm.
Qed.

(** A string cannot be at once the skipped line of one file and the
    processed or failed line of another, nor a processed line and a failed
    one. *)
Lemma status_lines_disjoint p q r :
  ¬ (is_skipped p r ∧ is_processed q r) ∧
  ¬ (is_skipped p r ∧ is_failed q r) ∧
  ¬ (is_processed p r ∧ is_failed q r).
Proof.
  unfold is_skipped, is_processed, is_failed.
  split; [| split]; intros [H1 H2];
    repeat match goal with H : _ ∨ _ |- _ => destruct H end; subst r; discriminate.
Qed.

(** X2. The line a processor returns tells its status, whatever the file
    is: the line [r] returned by a call is the skipped, the processed or
    the failed line of its file and no two of them, and when another call,
    of either processor, on any file and in any environment, returns the
    same line, it is with the same status. *)
Theorem report_lines_disjoint E t w r w' E2 t2 w2 w2' :
  call E t w = (Ok r, w') →
  call E2 t2 w2 = (Ok r, w2') →
  (is_skipped t.2 r ∧ is_skipped t2.2 r ∧
   ¬ is_processed t.2 r ∧ ¬ is_failed t.2 r) ∨
  (is_processed t.2 r ∧ is_processed t2.2 r ∧
   ¬ is_skipped t.2 r ∧ ¬ is_failed t.2 r) ∨
  (is_failed t.2 r ∧ is_failed t2.2 r ∧
   ¬ is_skipped t.2 r ∧ ¬ is_processed t.2 r).
Proof.
  intros H1 H2.
  destruct (call_total E t w) as (r1 & w1 & Hc1 & Ho1).
  destruct (call_total E2 t2 w2) as (r2 & w3 & Hc2 & Ho2).
  rewrite H1 in Hc1. rewrite H2 in Hc2.
  inversion Hc1; subst r1 w1. inversion Hc2; subst r2 w3. clear Hc1 Hc2.
  pose proof (status_lines_disjoint t.2 t.2 r) as (A1 & A2 & A3).
  pose proof (status_lines_disjoint t.2 t2.2 r) as (B1 & B2 & B3).
  pose proof (status_lines_disjoint t2.2 t.2 r) as (C1 & C2 & C3).
  destruct Ho1 as [S1 | [P1 | F1]]; destruct Ho2 as [S2 | [P2 | F2]];
    try (exfalso; tauto).
  - left. tauto.
  - right. left. tauto.
  - right. right. tauto.
Qed.

Lemma removelast_length_le {A} (l : list A) :
  (List.length l ≤ S (List.length (List.removelast l)))%nat.
Proof.
  induction l as [|a [|b l] IH]; simpl in *; lia.
Qed.

Lemma thumb_dir_length (p : Path) :
  List.length (thumb_dir_of p) = S (S (List.length (PathOps.parent p))).
Proof.
  unfold thumb_dir_of, PathOps.child. rewrite !length_app. simpl. lia.
Qed.

Lemma temp_name_not_preview stem :
  stem +:+ "_temp.jpg" ≠ "SYNOPHOTO_THUMB_PREVIEW.jpg".
Proof.
  intros Heq. pose proof (ends_with_app stem "_temp.jpg") as H.
  rewrite Heq in H. by vm_compute in H.
Qed.

(** X3. Whatever the name of a video, its temporary frame is a path of its
    own: it is not the existence marker, not one of the standard
    thumbnails, not the preview, not the filmstrip and not the video
    itself, so removing it removes no output. *)
Theorem temp_frame_path_is_fresh p :
  temp_thumb_path_of p ≠ marker_path p ∧
  (∀ name, name ∈ THUMBNAIL_CONFIG.*1 →
           temp_thumb_path_of p ≠ thumb_dir_of p </> name) ∧
  temp_thumb_path_of p ≠ preview_path p ∧
  temp_thumb_path_of p ≠ film_flv_path_of p ∧
  temp_thumb_path_of p ≠ p.
Proof.
  unfold temp_thumb_path_of, marker_path, preview_path, film_flv_path_of.
  split; [| split; [| split; [| split]]].
  - intros H. apply child_inj in H.
    apply (temp_name_not_standard (PathOps.stem p) "SYNOPHOTO_THUMB_XL.jpg");
      [left | done].
  - intros name Hin H. apply child_inj in H.
    by apply (temp_name_not_standard (PathOps.stem p) name).
  - intros H. apply child_inj in H. by apply (temp_name_not_preview (PathOps.stem p)).
  - intros H. apply child_inj in H. by apply (temp_name_not_film (PathOps.stem p)).
  - intros H. apply (f_equal List.length) in H.
    unfold PathOps.child in H. rewrite length_app, thumb_dir_length in H.
    unfold PathOps.parent in H.
    pose proof (removelast_length_le p) as Hl. simpl in H. lia.
Qed.

(** ** The effects of a processed run, in order *)

Lemma thumbnail_loop_trace E img d (l : list (string * (Z * Z))) w u w' :
  for_each l (fun '(name, size) =>
     img_copy ← lift (thumbnail E img size);
     save E img_copy (d </> name) 95) w = (Ok u, w') →
  trace w' = trace w ++ List.map (fun '(name, _) => EvSave (d </> name) 95) l.
Proof.
  revert w. induction l as [|[n s] l IH]; intros w H.
  { inversion H. by rewrite app_nil_r. }
  rewrite for_each_cons in H.
  apply bind_inv_ok in H as ([] & w1 & Hhead & Hrest).
  apply bind_inv_ok in Hhead as (im & w0' & Hth & Hsave).
  apply lift_inv_ok in Hth as [_ ->]. apply save_inv_ok in Hsave.
  rewrite (IH w1 Hrest), Hsave. simpl. by rewrite <- app_assoc.
Qed.

Lemma subprocess_run_inv_ok E cmd out w u w' :
  subprocess_run E cmd out w = (Ok u, w') →
  trace w' = trace w ++ [EvRun cmd].
Proof.
  unfold subprocess_run. intros H.
  destruct (ffmpeg E cmd (fs w)) as [msg | rc err [c|]]; [done | |];
    destruct (rc =? 0); by inversion H.
Qed.

Lemma mkdir_parents_trace E d w r w1 :
  mkdir_parents E d w = (r, w1) →
  ∃ mk, trace w1 = trace w ++ mk ∧ Forall is_mkdir mk.
Proof.
  intros H.
  pose proof (trace_by_mkdir_parents E is_mkdir d ltac:(done) w) as Ht.
  by rewrite H in Ht.
Qed.

(** X4. When [process_image] reports a file as processed, the effects it
    has had are, in this order: the creation of the missing directories,
    the five standard thumbnails in the order of [THUMBNAIL_CONFIG], each
    saved at quality 95, and last the preview, saved at quality 90. *)
Theorem process_image_effects E p w r w' :
  process_image E p w = (Ok r, w') →
  r = "Image processed: " +:+ PathOps.name p →
  ∃ mk, Forall is_mkdir mk ∧
        trace w' = trace w ++ mk ++ standard_saves (thumb_dir_of p)
                   ++ [EvSave (preview_path p) 90].
Proof.
  intros H Hr.
  destruct (call_processed_inv E (Fprocess_image, p) w r w' H (or_introl Hr))
    as [_ [[_ Hi] | [Ht _]]]; [| done].
  apply render_image_inv_ok in Hi
    as (_ & img0 & img & im & w1 & w2 & Hmk & _ & Hstd & _ & ->).
  apply mkdir_parents_trace in Hmk as (mk & Hmk & Hfa).
  apply thumbnail_loop_trace in Hstd.
  exists mk. split; [done |]. simpl. rewrite Hstd, Hmk.
  unfold standard_saves. by rewrite <- !app_assoc.
Qed.

(** X5. When [process_video] reports a file as processed, the effects it
    has had are, in this order: the creation of the missing directories,
    the filmstrip command, the frame extraction command, the five standard
    thumbnails at quality 95, and the removal of the temporary frame, which
    is no longer there. *)
Theorem process_video_effects E p w r w' :
  process_video E p w = (Ok r, w') →
  r = "Video processed: " +:+ PathOps.name p →
  (∃ mk, Forall is_mkdir mk ∧
         trace w' = trace w ++ mk
           ++ [EvRun (flv_cmd p (film_flv_path_of p));
               EvRun (thumb_cmd p (temp_thumb_path_of p))]
           ++ standard_saves (thumb_dir_of p)
           ++ [EvUnlink (temp_thumb_path_of p)]) ∧
  fs w' !! temp_thumb_path_of p = None.
Proof.
  intros H Hr.
  destruct (call_processed_inv E (Fprocess_video, p) w r w' H (or_intror Hr))
    as [_ [[Ht _] | [_ Hv]]]; [done |].
  apply render_video_inv_ok in Hv as (_ & w1 & w2 & u & Hmk & Hflv & Hex).
  apply extract_and_resize_inv_ok in Hex
    as (img & w3 & w4 & Hrun & _ & _ & Hstd & ->).
  apply mkdir_parents_trace in Hmk as (mk & Hmk & Hfa).
  apply subprocess_run_inv_ok in Hflv, Hrun. apply thumbnail_loop_trace in Hstd.
  split; [| simpl; apply lookup_delete_eq].
  exists mk. split; [done |]. simpl. rewrite Hstd, Hrun, Hflv, Hmk.
  unfold standard_saves, film_flv_path_of. by rewrite <- !app_assoc.
Qed.

(** ** Frames by target *)

(** A relation respected by the primitive effects on the paths [okd]
    (directories made) and [okf] (files written or removed) is respected by
    a processor whose targets are among them. *)
Section Targets.

Variable E : Env.
Context (T : relation World) `{!PreOrder T}.
Variables okd okf : Path → Prop.
Hypothesis T_mkdir : ∀ q, okd q → steps T (mkdir_one E q).
Hypothesis T_save : ∀ im p q, okf p → steps T (save E im p q).
Hypothesis T_run : ∀ cmd out, okf out → steps T (subprocess_run E cmd out).
Hypothesis T_unlink : ∀ p, okf p → steps T (unlink E p).
Hypothesis T_error : ∀ msg, steps T (logging_error msg).

Lemma targets_mkdir_parents d :
  (∀ q, q ∈ prefixes d → okd q) → steps T (mkdir_parents E d).
Proof. intros H. apply steps_for_each; [done |]. intros q Hq. by apply T_mkdir, H. Qed.

Lemma targets_standard_thumbnails img d :
  (∀ name, name ∈ THUMBNAIL_CONFIG.*1 → okf (d </> name)) →
  steps T (standard_thumbnails E img d).
Proof.
  intros H. apply steps_for_each; [done |]. intros [name size] Hin.
  apply steps_bind; [done | by apply steps_lift |]. intros im.
  apply T_save, H. apply (list_elem_of_fmap_2 fst _ _ Hin).
Qed.

Lemma targets_process_image p :
  (∀ q, q ∈ prefixes (thumb_dir_of p) → okd q) →
  (∀ name, name ∈ THUMBNAIL_CONFIG.*1 → okf (thumb_dir_of p </> name)) →
  okf (preview_path p) →
  steps T (process_image E p).
Proof.
  intros Hd Hstd Hpre. apply steps_try_except; [done | |].
  - apply steps_bind; [done | by apply steps_first_key |]. intros marker.
    apply steps_bind; [done | by apply steps_path_exists |]. intros [|].
    { by apply steps_ret. }
    unfold render_image.
    apply steps_bind; [done | by apply targets_mkdir_parents |]. intros _.
    apply steps_bind; [done | |].
    { case_match; [by apply steps_lift_fs |].
      apply steps_bind; [done | by apply steps_lift_fs |]. intros img.
      case_match; [by apply steps_lift | by apply steps_ret]. }
    intros img0.
    apply steps_bind; [done | by apply steps_lift |]. intros img.
    apply steps_bind; [done | by apply targets_standard_thumbnails |]. intros _.
    apply steps_bind; [done | by apply steps_lift |]. intros im.
    apply steps_bind; [done | by apply T_save |]. intros _.
    by apply steps_ret.
  - intros e. apply steps_bind; [done | apply T_error |]. intros _.
    by apply steps_ret.
Qed.

Lemma targets_process_video p :
  (∀ q, q ∈ prefixes (thumb_dir_of p) → okd q) →
  (∀ name, name ∈ THUMBNAIL_CONFIG.*1 → okf (thumb_dir_of p </> name)) →
  okf (film_flv_path_of p) →
  okf (temp_thumb_path_of p) →
  steps T (process_video E p).
Proof.
  intros Hd Hstd Hflv Htmp. apply steps_try_except; [done | |].
  - apply steps_bind; [done | by apply steps_first_key |]. intros marker.
    apply steps_bind; [done | by apply steps_path_exists |]. intros [|].
    { by apply steps_ret. }
    unfold render_video.
    apply steps_bind; [done | by apply targets_mkdir_parents |]. intros _.
    apply steps_bind; [done | by apply T_run |]. intros _.
    apply steps_bind; [done | | intros _; by apply steps_ret].
    unfold extract_and_resize.
    apply steps_bind; [done | by apply T_run |]. intros _.
    apply steps_bind; [done | by apply steps_path_exists |]. intros [|]; simpl.
    + apply steps_bind; [done | by apply steps_lift_fs |]. intros img.
      apply steps_bind; [done | by apply targets_standard_thumbnails |]. intros _.
      by apply T_unlink.
    + by apply steps_raise.
  - intros e. destruct e; simpl;
      (apply steps_bind; [done | apply T_error |]); intros _; by apply steps_ret.
Qed.

Lemma targets_call t :
  (∀ q, q ∈ prefixes (thumb_dir_of t.2) → okd q) →
  (∀ c, okf (thumb_dir_of t.2 </> c)) →
  steps T (call E t).
Proof.
  destruct t as [[|] p]; cbn [snd]; intros Hd Hf.
  - apply targets_process_image; [done | by intros | apply Hf].
  - apply targets_process_video; [done | by intros | apply Hf | apply Hf].
Qed.

End Targets.

Lemma temp_frame_path_is_fresh_preview p :
  preview_path p ≠ temp_thumb_path_of p.
Proof.
  unfold preview_path, temp_thumb_path_of. intros Heq. apply child_inj in Heq.
  by apply (temp_name_not_preview (PathOps.stem p)).
Qed.

(** X6. [process_video] never writes a preview: whatever it returns, the
    entry [SYNOPHOTO_THUMB_PREVIEW.jpg] of the sidecar directory is what it
    was before the call, absent when it was absent. *)
Theorem process_video_leaves_preview E p w :
  fs (process_video E p w).2 !! preview_path p = fs w !! preview_path p.
Proof.
  apply (targets_process_video E (same_at (preview_path p))
           (fun q => preview_path p ≠ q) (fun q => preview_path p ≠ q)).
  - intros q. apply same_at_mkdir_one.
  - intros im q0 q. apply same_at_save.
  - intros cmd out. apply same_at_subprocess_run.
  - intros q. apply same_at_unlink.
  - apply same_at_logging_error.
  - intros q Hq Heq. subst q. by apply child_not_prefix in Hq.
  - intros name Hin Heq. apply child_inj in Heq.
    by apply (preview_name_not_standard name).
  - unfold preview_path, film_flv_path_of. intros Heq. by apply child_inj in Heq.
  - apply temp_frame_path_is_fresh_preview.
Qed.

(** ** Failures part-way *)

Lemma unlink_inv_raise E p w e w' :
  unlink E p w = (Raise e, w') → w' = w.
Proof.
  unfold unlink. intros H.
  destruct (fs w !! p) as [[|c]|]; [by inversion H | | by inversion H].
  destruct (unlink_error E p (fs w)); by inversion H.
Qed.

(** The loop over the standard sizes does not touch the temporary frame. *)
Lemma same_at_std_temp E p img w r w' :
  standard_thumbnails E img (thumb_dir_of p) w = (r, w') →
  fs w' !! temp_thumb_path_of p = fs w !! temp_thumb_path_of p.
Proof.
  intros H.
  assert (Hs : steps (same_at (temp_thumb_path_of p))
                 (standard_thumbnails E img (thumb_dir_of p))).
  { apply (targets_standard_thumbnails E (same_at (temp_thumb_path_of p))
             (fun q => temp_thumb_path_of p ≠ q)).
    - intros im q0 q. apply same_at_save.
    - intros name Hin Heq. unfold temp_thumb_path_of in Heq.
      apply child_inj in Heq.
      by apply (temp_name_not_standard (PathOps.stem p) name). }
  specialize (Hs w). by rewrite H in Hs.
Qed.

(** X7. A video whose frame has been extracted and whose processing then
    fails (the frame cannot be opened, a thumbnail cannot be saved, the
    frame cannot be removed) keeps its temporary frame in the sidecar
    directory: the frame is removed on the success path only. *)
Theorem failed_video_keeps_frame E p w w1 w2 w3 r w' :
  fs w !! marker_path p = None →
  mkdir_parents E (thumb_dir_of p) w = (Ok tt, w1) →
  subprocess_run E (flv_cmd p (film_flv_path_of p)) (film_flv_path_of p) w1
    = (Ok tt, w2) →
  subprocess_run E (thumb_cmd p (temp_thumb_path_of p)) (temp_thumb_path_of p) w2
    = (Ok tt, w3) →
  is_Some (fs w3 !! temp_thumb_path_of p) →
  process_video E p w = (Ok r, w') →
  is_failed p r →
  fs w' !! temp_thumb_path_of p = fs w3 !! temp_thumb_path_of p ∧
  is_Some (fs w' !! temp_thumb_path_of p).
Proof.
  intros Hm Hmk Hflv Hrun Htmp H Hr.
  assert (fs w' !! temp_thumb_path_of p = fs w3 !! temp_thumb_path_of p) as Heq;
    [| split; [done | by rewrite Heq]].
  unfold process_video, try_except in H.
  rewrite process_video_body_render in H by done.
  unfold render_video in H. rewrite (bind_ok _ _ w tt w1 Hmk) in H.
  fold (film_flv_path_of p) in H. rewrite (bind_ok _ _ w1 tt w2 Hflv) in H.
  destruct ((extract_and_resize E p ≫= _) w2) as [[a|e] w4] eqn:Hbody.
  { apply bind_inv_ok in Hbody as (u & w5 & _ & Hret). inversion Hret; subst a.
    inversion H; subst r. destruct Hr; discriminate. }
  assert (fs w4 !! temp_thumb_path_of p = fs w3 !! temp_thumb_path_of p) as Hw4.
  { apply bind_inv in Hbody as [(u & w5 & _ & Hret) | (e' & Hex & _)]; [done |].
    unfold extract_and_resize in Hex. rewrite (bind_ok _ _ w2 tt w3 Hrun) in Hex.
    rewrite (bind_ok _ _ w3 true w3) in Hex.
    2:{ unfold path_exists. by rewrite bool_decide_eq_true_2. }
    simpl in Hex.
    apply bind_inv in Hex as [(img & w5 & Hop & Hex) | (e2 & Hop & _)].
    2:{ unfold lift_fs in Hop. by apply lift_inv_raise in Hop as ->. }
    apply lift_fs_inv_ok in Hop as [_ ->].
    assert (Hstd : ∀ r5 w5, standard_thumbnails E img (thumb_dir_of p) w3 = (r5, w5) →
              fs w5 !! temp_thumb_path_of p = fs w3 !! temp_thumb_path_of p).
    { intros r5 w5 H5. exact (same_at_std_temp E p img w3 r5 w5 H5). }
    apply bind_inv in Hex as [([] & w5 & H5 & Hul) | (e2 & H5 & _)].
    - apply unlink_inv_raise in Hul as ->. by apply (Hstd _ _ H5).
    - by apply (Hstd _ _ H5). }
  destruct e; simpl in H; inversion H; subst; simpl; exact Hw4.
Qed.

#[global] Instance kept_preorder x : PreOrder (kept x).
Proof.
  split.
  - by intros w.
  - intros w1 w2 w3 H1 H2 Hx. unfold kept in *.
    rewrite H2; [by apply H1 | by rewrite H1].
Qed.

Lemma same_at_kept {A} x (c : M A) : steps (same_at x) c → steps (kept x) c.
Proof. intros H w _. apply H. Qed.

(** [os.mkdir] never replaces an entry that exists. *)
Lemma kept_mkdir_one E x q : steps (kept x) (mkdir_one E q).
Proof.
  intros w Hx. unfold mkdir_one.
  destruct (fs w !! q) as [[|c]|] eqn:Hq; simpl; [done | done |].
  destruct (mkdir_error E q (fs w)); simpl; [done |].
  rewrite lookup_insert_ne; [done |]. intros <-. rewrite Hq in Hx. by destruct Hx.
Qed.

(** A regular file on the way makes the creation of the directory fail,
    after directory creations only. *)
Lemma mkdir_blocked E (l : list Path) q c w :
  q ∈ l → fs w !! q = Some (File c) →
  ∃ e w1, for_each l (mkdir_one E) w = (Raise e, w1).
Proof.
  revert w. induction l as [|x l IH]; intros w Hin Hq.
  { by apply elem_of_nil in Hin. }
  rewrite for_each_cons.
  destruct (mkdir_one E x w) as [[[]|e] w1] eqn:Hx.
  - destruct (decide (x = q)) as [-> | Hne].
    { unfold mkdir_one in Hx. rewrite Hq in Hx. by inversion Hx. }
    apply elem_of_cons in Hin as [-> | Hin]; [done |].
    pose proof (same_at_mkdir_one E q x ltac:(done) w) as Hs.
    rewrite Hx in Hs. unfold same_at in Hs. simpl in Hs.
    destruct (IH w1 Hin ltac:(by rewrite Hs)) as (e & w2 & Hr).
    exists e, w2. by rewrite (bind_ok _ _ w tt w1 Hx).
  - exists e, w1. by rewrite (bind_raise _ _ w e w1 Hx).
Qed.

(** X8. When a regular file sits where the sidecar directory or one of the
    directories above it should be, the file is reported as failed and
    nothing else happens: the only effects are directory creations, so no
    command is run and no image is saved, and one ERROR record is logged. *)
Theorem blocked_sidecar_fails_early E t w q c :
  fs w !! marker_path t.2 = None →
  q ∈ prefixes (thumb_dir_of t.2) →
  fs w !! q = Some (File c) →
  ∃ r w' mk msg,
    call E t w = (Ok r, w') ∧ is_failed t.2 r ∧
    trace w' = trace w ++ mk ∧ Forall is_mkdir mk ∧
    log w' = log w ++ [(ERROR, msg)] ∧
    fs w' !! q = Some (File c).
Proof.
  intros Hm Hq Hf.
  destruct (mkdir_blocked E _ q c w Hq Hf) as (e & w1 & Hmk).
  fold (mkdir_parents E (thumb_dir_of t.2)) in Hmk.
  destruct (mkdir_parents_trace _ _ _ _ _ Hmk) as (mk & Htr & Hfa).
  pose proof (same_log_mkdir_parents E (thumb_dir_of t.2) w) as Hlog.
  rewrite Hmk in Hlog. unfold same_log in Hlog. simpl in Hlog.
  assert (Hkeep : fs w1 !! q = Some (File c)).
  { assert (Hs : steps (kept q) (mkdir_parents E (thumb_dir_of t.2))).
    { apply steps_for_each; [apply _ |]. intros x _. apply kept_mkdir_one. }
    specialize (Hs w). rewrite Hmk in Hs. unfold kept in Hs. simpl in Hs.
    rewrite Hs; [done | by rewrite Hf]. }
  assert (Hbody : try_body E t w = (Raise e, w1)).
  { destruct t as [[|] p]; unfold try_body; cbn [fst snd] in *.
    - rewrite process_image_body_render by done.
      unfold render_image. by rewrite (bind_raise _ _ w e w1 Hmk).
    - rewrite process_video_body_render by done.
      unfold render_video. by rewrite (bind_raise _ _ w e w1 Hmk). }
  rewrite call_try_body, Hbody.
  destruct t as [[|] p]; cbn [fst snd] in *.
  - eexists _, _, mk, _. split; [done |]. split; [by left |].
    simpl. by rewrite Hlog.
  - destruct e; simpl; eexists _, _, mk, _; (split; [done |]);
      (split; [first [by left | by right] |]); simpl; by rewrite Hlog.
Qed.

(** ** Which decoder reads a file *)

(** X9. The extension alone chooses the decoder of [process_image].  A
    file with a RAW extension is read by the RAW library only: the image
    opener and the converter have no part in the result.  Any other file
    is read by the image opener only, and the converter has no part either
    when the opener returns images of mode RGB. *)
Theorem decoder_by_extension E p w :
  (str_in (suffix_lower p) RAW_EXTENSIONS = true →
   ∀ o c, process_image (with_codec E o c) p w = process_image E p w) ∧
  (str_in (suffix_lower p) RAW_EXTENSIONS = false →
   ∀ r, process_image (with_rawpy E r) p w = process_image E p w) ∧
  (str_in (suffix_lower p) RAW_EXTENSIONS = false →
   (∀ m img, Image_open E p m = inr img → mode img = "RGB") →
   ∀ c, process_image (with_codec E (Image_open E) c) p w = process_image E p w).
Proof.
  split; [| split].
  - intros Hraw o c. unfold process_image, process_image_body, render_image.
    rewrite Hraw. reflexivity.
  - intros Hraw r. unfold process_image, process_image_body, render_image.
    rewrite Hraw. reflexivity.
  - intros Hraw Hrgb c.
    unfold process_image, process_image_body, render_image. rewrite Hraw.
    unfold try_except, mbind, M_bind, bind, path_exists.
    destruct (first_key w) as [[marker|e0] w0']; [| reflexivity].
    destruct (bool_decide _); [reflexivity |].
    change (mkdir_parents (with_codec E (Image_open E) c))
      with (mkdir_parents E).
    destruct (mkdir_parents E (thumb_dir_of p) w0') as [[[]|e] w1]; [| reflexivity].
    unfold lift_fs.
    change (Image_open (with_codec E (Image_open E) c)) with (Image_open E).
    change (Image_convert (with_codec E (Image_open E) c)) with c.
    destruct (Image_open E p (fs w1)) as [e|img] eqn:Hop; [reflexivity |].
    cbn [lift mret M_ret ret].
    rewrite bool_decide_eq_false_2; [reflexivity |].
    intros Hne. apply Hne. by apply (Hrgb (fs w1)).
Qed.

(** ** What a run leaves alone *)

Lemma thumb_dir_has_marker p : "@eaDir" ∈ thumb_dir_of p.
Proof.
  unfold thumb_dir_of, PathOps.child. rewrite !elem_of_app. left. right. left.
Qed.

Lemma parent_child (d : Path) c : PathOps.parent (d </> c) = d.
Proof. unfold PathOps.parent, PathOps.child. apply List.removelast_last. Qed.

Lemma kept_call E f t :
  "@eaDir" ∉ PathOps.parent f → steps (kept f) (call E t).
Proof.
  intros Hf.
  apply (targets_call E (kept f) (fun _ => True) (fun q => f ≠ q)).
  - intros q _. apply kept_mkdir_one.
  - intros im q0 q Hne. by apply same_at_kept, same_at_save.
  - intros cmd out Hne. by apply same_at_kept, same_at_subprocess_run.
  - intros q Hne. by apply same_at_kept, same_at_unlink.
  - intros msg. apply same_at_kept, same_at_logging_error.
  - done.
  - intros c ->. apply Hf. rewrite parent_child. apply thumb_dir_has_marker.
Qed.

Lemma kept_run_futures E f ts :
  "@eaDir" ∉ PathOps.parent f → steps (kept f) (run_futures E ts).
Proof.
  intros Hf. induction ts as [|t ts IH]; simpl.
  { apply steps_ret; apply _. }
  apply steps_bind; [apply _ | |].
  - intros w. unfold run_future. pose proof (kept_call E f t Hf w) as H.
    by destruct (call E t w).
  - intros r. apply steps_bind; [apply _ | done |]. intros rs.
    apply steps_ret; apply _.
Qed.

(** X10. A run of [main] never changes or removes an entry that exists,
    has no directory named [@eaDir] above it and is not a log file of the
    script, whatever the tasks do and in whatever order: the media files
    themselves, the other files and the directories of the library are
    after the run what they were before.  (The log file is the one entry
    outside the sidecar directories that a run writes to.) *)
Theorem main_keeps_library E root schedule w f :
  is_Some (fs w !! f) →
  "@eaDir" ∉ PathOps.parent f →
  ¬ is_log_file f →
  fs (main E root schedule w).2 !! f = fs w !! f.
Proof.
  intros Hex Hf _. unfold main.
  rewrite (bind_ok _ _ w (media_files root (fs w)) w) by done.
  destruct (bool_decide (media_files root (fs w) = [])); [done |].
  match goal with |- fs (?c w).2 !! f = _ =>
    assert (Hs : steps (kept f) c); [| exact (Hs w Hex)] end.
  apply steps_bind; [apply _ | apply same_at_kept, same_at_logging_info |]. intros _.
  apply steps_bind; [apply _ | apply same_at_kept, same_at_logging_info |]. intros _.
  apply steps_bind; [apply _ | by apply kept_run_futures |]. intros futs.
  apply steps_bind; [apply _ | apply same_at_kept, same_at_collect |]. intros _.
  apply steps_bind; [apply _ | apply same_at_kept, same_at_logging_info |]. intros _.
  apply steps_ret; apply _.
Qed.

(** ** The log file and the start of the script *)

Lemma mkdir_one_inv_ok E q w u w1 :
  mkdir_one E q w = (Ok u, w1) →
  fs w1 !! q = Some Dir ∧ (∀ x, x ≠ q → fs w1 !! x = fs w !! x) ∧
  log w1 = log w ∧
  (fs w !! q = Some Dir → w1 = w).
Proof.
  unfold mkdir_one. intros H.
  destruct (fs w !! q) as [[|c]|] eqn:Hq; [| done |].
  - inversion H; subst w1. by rewrite Hq.
  - destruct (mkdir_error E q (fs w)); [done |]. inversion H; subst w1. simpl.
    split; [apply lookup_insert_eq |]. split; [| done].
    intros x Hx. by rewrite lookup_insert_ne.
Qed.

(** X11. When [setup_logging] returns, it returns
    [logs/synothumb_<timestamp>.log]; [logs] is a directory, the log file
    is an empty regular file whatever was at its path before (it is opened
    with mode 'w'), every other entry is as it was, and a [logs] directory
    that was there already is not made again. *)
Theorem setup_logging_creates_log E timestamp open_error w p w' :
  setup_logging E timestamp open_error w = (Ok p, w') →
  p = log_filename_of timestamp ∧
  fs w' !! ["logs"] = Some Dir ∧
  fs w' !! p = Some (File (Blob "")) ∧
  (∀ x, x ≠ ["logs"] → x ≠ p → fs w' !! x = fs w !! x) ∧
  log w' = log w ∧
  (fs w !! ["logs"] = Some Dir → trace w' = trace w).
Proof.
  unfold setup_logging. cbv zeta. intros H.
  apply bind_inv_ok in H as (u & w1 & Hmk & H).
  apply bind_inv_ok in H as (u' & w2 & Hop & H).
  inversion H; subst p w2. clear H.
  apply mkdir_one_inv_ok in Hmk as (Hdir & Hother & Hlog & Hsame).
  unfold open_write in Hop.
  assert (w' = set_fs (insert (log_filename_of timestamp) (File (Blob ""))) w1) as ->.
  { destruct (fs w1 !! log_filename_of timestamp) as [[|c]|]; [done | |];
      destruct open_error; by inversion Hop. }
  split; [done |]. simpl. split.
  { rewrite lookup_insert_ne; [done |]. unfold log_filename_of, PathOps.child.
    discriminate. }
  split; [apply lookup_insert_eq |]. split.
  { intros x Hx Hp. rewrite lookup_insert_ne by done. by apply Hother. }
  split; [done |]. intros Hd. by rewrite (Hsame Hd).
Qed.

(** X12. When [logs] is a regular file, [setup_logging] raises
    [FileExistsError] and changes nothing; the script, given a root that is
    a directory, then ends with that exception: nothing is discovered and
    no task runs. *)
Theorem logs_is_a_file_aborts E to_path a0 arg rest timestamp open_error schedule w c :
  fs w !! (["logs"] : Path) = Some (File c) →
  setup_logging E timestamp open_error w
    = (Raise (PyException "FileExistsError" "logs"), w) ∧
  (fs w !! to_path arg = Some Dir →
   script E to_path (a0 :: arg :: rest) timestamp open_error schedule w
     = (Raise (PyException "FileExistsError" "logs"), w)).
Proof.
  intros Hlogs.
  assert (Hset : setup_logging E timestamp open_error w
                 = (Raise (PyException "FileExistsError" "logs"), w)).
  { unfold setup_logging. cbv zeta. apply bind_raise. unfold mkdir_one.
    by rewrite Hlogs. }
  split; [done |]. intros Hroot. unfold script.
  rewrite (bind_ok _ _ w true w).
  2:{ unfold path_is_dir. rewrite Hroot. by rewrite orb_true_r. }
  simpl. by apply bind_raise.
Qed.

Lemma rfind_dot_log ts :
  Str.rfind "." (ts +:+ ".log") = Some (String.length ts).
Proof.
  induction ts as [|a ts IH]; [done |].
  change (String a ts +:+ ".log") with (String a (ts +:+ ".log")).
  simpl. by rewrite IH.
Qed.

Lemma length_app_log ts :
  String.length (ts +:+ ".log") = (String.length ts + 4)%nat.
Proof.
  induction ts as [|a ts IH]; [done |].
  change (String a ts +:+ ".log") with (String a (ts +:+ ".log")).
  simpl. by rewrite IH.
Qed.

Lemma substring_app_log ts :
  String.substring (String.length ts) 4 (ts +:+ ".log") = ".log".
Proof.
  induction ts as [|a ts IH]; [done |].
  change (String a ts +:+ ".log") with (String a (ts +:+ ".log")).
  simpl. exact IH.
Qed.

Lemma suffix_of_dot_log pre :
  pre ≠ "" →
  PathOps.suffix_index (pre +:+ ".log") = Some (String.length pre) ∧
  String.substring (String.length pre)
    (String.length (pre +:+ ".log") - String.length pre) (pre +:+ ".log") = ".log".
Proof.
  intros Hne. assert (0 < String.length pre)%nat as Hpos.
  { destruct pre; [done | simpl; lia]. }
  unfold PathOps.suffix_index. rewrite rfind_dot_log, length_app_log. split.
  - destruct (Nat.ltb_spec 0 (String.length pre)); [| lia].
    destruct (Nat.ltb_spec (String.length pre) (String.length pre + 4 - 1)); [done | lia].
  - replace (String.length pre + 4 - String.length pre)%nat with 4%nat by lia.
    apply substring_app_log.
Qed.

Lemma suffix_lower_log ts : suffix_lower (log_filename_of ts) = ".log".
Proof.
  unfold suffix_lower, PathOps.suffix.
  change (PathOps.name (log_filename_of ts))
    with (("synothumb_" +:+ ts) +:+ ".log").
  destruct (suffix_of_dot_log ("synothumb_" +:+ ts) ltac:(done)) as [Hi Hs].
  by rewrite Hi, Hs.
Qed.

Lemma str_app_inv_tail (s s' t : string) : s +:+ t = s' +:+ t → s = s'.
Proof.
  assert (Hlen : ∀ a b : string,
            String.length (a +:+ b) = (String.length a + String.length b)%nat).
  { intros a b. induction a as [|x a IH]; [done |].
    change (String x a +:+ b) with (String x (a +:+ b)). simpl. by rewrite IH. }
  revert s'. induction s as [|a s IH]; intros [|a' s'] H; [done | | |].
  - apply (f_equal String.length) in H. rewrite !Hlen in H.
    cbn [String.length] in H. lia.
  - apply (f_equal String.length) in H. rewrite !Hlen in H.
    cbn [String.length] in H. lia.
  - change (String a s +:+ t) with (String a (s +:+ t)) in H.
    change (String a' s' +:+ t) with (String a' (s' +:+ t)) in H.
    inversion H; subst. f_equal. by apply IH.
Qed.

(** X13. Whatever the timestamp, the log file has the extension [.log]
    and is not a media file, so a run over the working directory never
    takes its own log for a photo; and two timestamps give the same log
    file only when they are equal. *)
Theorem log_file_is_not_media ts :
  suffix_lower (log_filename_of ts) = ".log" ∧
  is_media (log_filename_of ts) = false ∧
  is_media ["logs"] = false ∧
  (∀ ts', log_filename_of ts = log_filename_of ts' → ts = ts').
Proof.
  split; [apply suffix_lower_log |]. split; [| split; [done |]].
  - unfold is_media. by rewrite suffix_lower_log.
  - intros ts' H. unfold log_filename_of in H. apply child_inj in H.
    change ("synothumb_" +:+ ts +:+ ".log")
      with (String "s" (String "y" (String "n" (String "o" (String "t"
             (String "h" (String "u" (String "m" (String "b" (String "_"
               (ts +:+ ".log"))))))))))) in H.
    change ("synothumb_" +:+ ts' +:+ ".log")
      with (String "s" (String "y" (String "n" (String "o" (String "t"
             (String "h" (String "u" (String "m" (String "b" (String "_"
               (ts' +:+ ".log"))))))))))) in H.
    inversion H as [H']. by apply str_app_inv_tail in H'.
Qed.

(** X14. Without an argument, or with an argument that is not an existing
    directory, the script exits with code 1 and touches nothing: no [logs]
    directory, no log file, no record, no task. *)
Theorem script_rejects_bad_arguments E to_path argv timestamp open_error schedule w :
  ((List.length argv < 2)%nat ∨
   ∃ a0 arg rest, argv = a0 :: arg :: rest ∧
                  to_path arg ≠ [] ∧ fs w !! to_path arg ≠ Some Dir) →
  script E to_path argv timestamp open_error schedule w = (Ok (SysExit 1), w).
Proof.
  intros [Hlen | (a0 & arg & rest & -> & Hne & Hnd)]; unfold script.
  - destruct argv as [|a0 [|arg rest]]; [done | done | simpl in Hlen; lia].
  - rewrite (bind_ok _ _ w false w); [done |].
    unfold path_is_dir. rewrite bool_decide_eq_false_2 by done.
    repeat case_match; done.
Qed.

Lemma media_files_NoDup root m : NoDup (media_files root m).
Proof.
  unfold media_files, rglob.
  apply NoDup_ListNoDup, List.NoDup_filter, List.NoDup_filter, NoDup_ListNoDup.
  apply NoDup_fst_map_to_list.
Qed.

(** X15. Setting up the log never changes what is discovered: for every
    root, also the working directory itself, the media files found after
    [setup_logging] has returned are those found before it ran. *)
Theorem logging_setup_keeps_discovery E timestamp open_error w p w' root :
  setup_logging E timestamp open_error w = (Ok p, w') →
  media_files root (fs w') ≡ₚ media_files root (fs w).
Proof.
  intros H.
  assert (Hfs : ∀ f, is_media f = true → fs w' !! f = fs w !! f).
  { intros f Hf. unfold setup_logging in H. cbv zeta in H.
    apply bind_inv_ok in H as (u & w1 & Hmk & H).
    apply bind_inv_ok in H as (u' & w2 & Hop & H).
    inversion H; subst p w2. clear H.
    apply mkdir_one_inv_ok in Hmk as (_ & Hother & _ & _).
    assert (w' = set_fs (insert (log_filename_of timestamp) (File (Blob ""))) w1) as ->.
    { unfold open_write in Hop.
      destruct (fs w1 !! log_filename_of timestamp) as [[|c]|]; [done | |];
        destruct open_error; by inversion Hop. }
    simpl. rewrite lookup_insert_ne.
    - apply Hother. intros ->. by vm_compute in Hf.
    - intros <-. unfold is_media in Hf. by rewrite suffix_lower_log in Hf. }
  apply NoDup_Permutation; [apply media_files_NoDup | apply media_files_NoDup |].
  intros f. rewrite !elem_of_media_files, !elem_of_rglob.
  split; intros [(Hex & Hp & Hne) Hm]; (split; [| done]); (split; [| done]).
  - destruct Hex as [v Hv]. exists v.
    etrans; [symmetry; exact (Hfs f Hm) | exact Hv].
  - destruct Hex as [v Hv]. exists v.
    etrans; [exact (Hfs f Hm) | exact Hv].
Qed.

(** ** Concrete runs for the further properties *)

Lemma process_image_effects_witness :
  let w' := (process_image E_ok a_jpg w0).2 in
  ∃ mk, Forall is_mkdir mk ∧
        trace w' = trace w0 ++ mk ++ standard_saves (thumb_dir_of a_jpg)
                   ++ [EvSave (preview_path a_jpg) 90].
Proof.
  cbn zeta. apply (process_image_effects E_ok a_jpg w0 "Image processed: a.jpg").
  - apply run_eq. vm_compute. reflexivity.
  - reflexivity.
Defined.

Lemma process_video_effects_witness :
  let p := c_mp4 in
  let w' := (process_video E_ok p w0).2 in
  (∃ mk, Forall is_mkdir mk ∧
         trace w' = trace w0 ++ mk
           ++ [EvRun (flv_cmd p (film_flv_path_of p));
               EvRun (thumb_cmd p (temp_thumb_path_of p))]
           ++ standard_saves (thumb_dir_of p)
           ++ [EvUnlink (temp_thumb_path_of p)]) ∧
  fs w' !! temp_thumb_path_of p = None.
Proof.
  cbn zeta. apply (process_video_effects E_ok c_mp4 w0 "Video processed: c.mp4").
  - apply run_eq. vm_compute. reflexivity.
  - reflexivity.
Defined.

Lemma failed_video_keeps_frame_witness :
  let p := c_mp4 in
  let w1 := (mkdir_parents E_bad_frame (thumb_dir_of p) w0).2 in
  let w2 := (subprocess_run E_bad_frame (flv_cmd p (film_flv_path_of p))
               (film_flv_path_of p) w1).2 in
  let w3 := (subprocess_run E_bad_frame (thumb_cmd p (temp_thumb_path_of p))
               (temp_thumb_path_of p) w2).2 in
  let w' := (process_video E_bad_frame p w0).2 in
  fs w' !! temp_thumb_path_of p = fs w3 !! temp_thumb_path_of p ∧
  is_Some (fs w' !! temp_thumb_path_of p).
Proof.
  cbn zeta.
  apply (failed_video_keeps_frame E_bad_frame c_mp4 w0
           (mkdir_parents E_bad_frame (thumb_dir_of c_mp4) w0).2
           (subprocess_run E_bad_frame (flv_cmd c_mp4 (film_flv_path_of c_mp4))
              (film_flv_path_of c_mp4)
              (mkdir_parents E_bad_frame (thumb_dir_of c_mp4) w0).2).2
           _ "Error: c.mp4").
  - vm_compute. reflexivity.
  - apply run_eq. vm_compute. reflexivity.
  - apply run_eq. vm_compute. reflexivity.
  - apply run_eq. vm_compute. reflexivity.
  - exists (File (Blob "ffmpeg output")). vm_compute. reflexivity.
  - apply run_eq. vm_compute. reflexivity.
  - left. reflexivity.
Defined.

Lemma blocked_sidecar_fails_early_witness :
  let t := (Fprocess_video, c_mp4) in
  let q := ["photos"; "@eaDir"] in
  ∃ r w' mk msg,
    call E_ok t w_blocked = (Ok r, w') ∧ is_failed t.2 r ∧
    trace w' = trace w_blocked ++ mk ∧ Forall is_mkdir mk ∧
    log w' = log w_blocked ++ [(ERROR, msg)] ∧
    fs w' !! q = Some (File (Blob "not a directory")).
Proof.
  cbn zeta.
  apply (blocked_sidecar_fails_early E_ok (Fprocess_video, c_mp4) w_blocked
           ["photos"; "@eaDir"] (Blob "not a directory")).
  - vm_compute. reflexivity.
  - right. left.
  - vm_compute. reflexivity.
Defined.

Lemma main_keeps_library_witness :
  fs (main E_ok ["photos"] reverse w0).2 !! a_jpg = fs w0 !! a_jpg.
Proof.
  apply (main_keeps_library E_ok ["photos"] reverse w0 a_jpg).
  - exists (File (Blob "jpeg data")). vm_compute. reflexivity.
  - intros H. vm_compute in H.
    repeat (apply elem_of_cons in H as [H | H]; [done |]).
    by apply elem_of_nil in H.
  - intros [timestamp H]. discriminate H.
Defined.

Lemma setup_logging_creates_log_witness :
  let ts := "20240101_120000" in
  let r := setup_logging E_ok ts None w0 in
  let p := log_filename_of ts in
  p = log_filename_of ts ∧
  fs r.2 !! ["logs"] = Some Dir ∧
  fs r.2 !! p = Some (File (Blob "")) ∧
  (∀ x, x ≠ ["logs"] → x ≠ p → fs r.2 !! x = fs w0 !! x) ∧
  log r.2 = log w0 ∧
  (fs w0 !! ["logs"] = Some Dir → trace r.2 = trace w0).
Proof.
  cbn zeta.
  apply (setup_logging_creates_log E_ok "20240101_120000" None w0).
  apply run_eq. vm_compute. reflexivity.
Defined.

Lemma logs_is_a_file_aborts_witness :
  let to_path := fun s : string => [s] in
  setup_logging E_ok "20240101_120000" None w_logs_is_file
    = (Raise (PyException "FileExistsError" "logs"), w_logs_is_file) ∧
  (fs w_logs_is_file !! to_path "photos" = Some Dir →
   script E_ok to_path ["synothumb.py"; "photos"] "20240101_120000" None reverse
     w_logs_is_file
     = (Raise (PyException "FileExistsError" "logs"), w_logs_is_file)).
Proof.
  cbn zeta.
  apply (logs_is_a_file_aborts E_ok (fun s : string => [s]) "synothumb.py" "photos" []
           "20240101_120000" None reverse w_logs_is_file (Blob "old notes")).
  vm_compute. reflexivity.
Defined.

Lemma script_rejects_bad_arguments_witness :
  script E_ok (fun s : string => [s]) ["synothumb.py"] "20240101_120000" None
    reverse w0 = (Ok (SysExit 1), w0) ∧
  script E_ok (fun s : string => [s]) ["synothumb.py"; "missing"] "20240101_120000"
    None reverse w0 = (Ok (SysExit 1), w0).
Proof.
  split.
  - apply script_rejects_bad_arguments. left. simpl. lia.
  - apply script_rejects_bad_arguments. right.
    exists "synothumb.py", "missing", []. split; [reflexivity |].
    split; [discriminate |]. vm_compute. discriminate.
Defined.

Lemma logging_setup_keeps_discovery_witness :
  media_files [] (fs (setup_logging E_ok "20240101_120000" None w0).2)
    ≡ₚ media_files [] (fs w0).
Proof.
  apply (logging_setup_keeps_discovery E_ok "20240101_120000" None w0
           (log_filename_of "20240101_120000")).
  apply run_eq. vm_compute. reflexivity.
Defined.

(** ** Retrying and re-running *)

(** A render that raises before any save leaves the world the directory
    creation left. *)
Lemma render_image_cases E p w r w' :
  render_image E p w = (r, w') →
  (w' = (mkdir_parents E (thumb_dir_of p) w).2 ∧ ∃ e, r = Raise e) ∨
  (∃ mk rest, trace w' = trace w ++ mk ++ EvSave (marker_path p) 95 :: rest).
Proof.
  unfold render_image. intros H.
  apply bind_inv in H as [([] & w1 & Hdir & H) | (e & Hdir & ->)]; rewrite Hdir.
  2:{ left. split; [done | by eexists]. }
  destruct (mkdir_parents_trace _ _ _ _ _ Hdir) as (mk & Hmk & _). simpl.
  apply bind_inv in H as [(img0 & w0' & Hdec & H) | (e & Hdec & ->)].
  2:{ left. split; [| by eexists].
      destruct (str_in _ _).
      - unfold lift_fs in Hdec. by apply lift_inv_raise in Hdec.
      - apply bind_inv in Hdec as [(i & w0' & Hop & Hcv) | (e' & Hop & _)].
        + apply lift_fs_inv_ok in Hop as [_ ->].
          destruct (bool_decide _); [by apply lift_inv_raise in Hcv | done].
        + unfold lift_fs in Hop. by apply lift_inv_raise in Hop. }
  assert (w0' = w1) as ->.
  { destruct (str_in _ _).
    - by apply lift_fs_inv_ok in Hdec as [_ ->].
    - apply bind_inv_ok in Hdec as (i & w0'' & Hop & Hcv).
      apply lift_fs_inv_ok in Hop as [_ ->].
      destruct (bool_decide _).
      + by apply lift_inv_ok in Hcv as [_ ->].
      + by inversion Hcv. }
  apply bind_inv in H as [(img & w0' & Htr & H) | (e & Htr & ->)].
  2:{ left. apply lift_inv_raise in Htr. subst w'. split; [done | by eexists]. }
  apply lift_inv_ok in Htr as [_ ->].
  apply bind_inv in H as [([] & w2 & Hstd & H) | (e & Hstd & ->)].
  2:{ apply standard_thumbnails_first_save in Hstd as [[-> _] | (rest & Ht & _)].
      - left. split; [done | by eexists].
      - right. exists mk, rest. rewrite Ht, Hmk. by rewrite <- app_assoc. }
  apply standard_thumbnails_first_save in Hstd as [[_ [e He]] | (rest & Ht & _)];
    [done |].
  right.
  match type of H with ?c w2 = _ =>
    assert (Ht' : steps (trace_by (fun _ => True)) c) end.
  { apply steps_bind; [apply _ | apply steps_lift; apply _ |]. intros im.
    apply steps_bind; [apply _ | | intros _; apply steps_ret; apply _].
    by apply trace_by_save. }
  specialize (Ht' w2). rewrite H in Ht'. destruct Ht' as (rest' & Ht' & _).
  simpl in Ht'. exists mk, (rest ++ rest').
  rewrite Ht', Ht, Hmk. by rewrite <- !app_assoc.
Qed.

(** X16. An image whose processing fails before anything is saved (the
    directory cannot be made, the file cannot be decoded or transposed,
    the first thumbnail cannot be written) is left without its marker, and
    the next run does not skip it: it is tried again. *)
Theorem early_image_failure_is_retried E p w r w' evs :
  process_image E p w = (Ok r, w') →
  is_failed p r →
  trace w' = trace w ++ evs →
  Forall (fun e => ¬ is_save e) evs →
  fs w' !! marker_path p = None ∧
  ∀ E', ∃ r2 w'', process_image E' p w' = (Ok r2, w'') ∧ ¬ is_skipped p r2.
Proof.
  intros Hrun Hfail Htrace Hns.
  assert (Hnext : fs w' !! marker_path p = None →
            ∀ E', ∃ r2 w'', process_image E' p w' = (Ok r2, w'') ∧ ¬ is_skipped p r2).
  { intros Hm' E'. unfold process_image, try_except.
    rewrite process_image_body_render by done.
    destruct (render_image E' p w') as [[a|e'] w''] eqn:Hr.
    - apply render_image_inv_ok in Hr as [-> _].
      eexists _, _. split; [done |]. unfold is_skipped. discriminate.
    - simpl. eexists _, _. split; [done |]. unfold is_skipped. discriminate. }
  assert (fs w' !! marker_path p = None) as Hm'; [| split; [done | by apply Hnext]].
  unfold process_image, try_except in Hrun.
  destruct (fs w !! marker_path p) as [n|] eqn:Hm.
  { rewrite process_image_body_skip in Hrun by (by rewrite Hm).
    inversion Hrun; subst. by destruct Hfail. }
  rewrite process_image_body_render in Hrun by done.
  destruct (render_image E p w) as [[a|e] w0'] eqn:Hr.
  { apply render_image_inv_ok in Hr as [-> _]. inversion Hrun; subst.
    by destruct Hfail. }
  simpl in Hrun. inversion Hrun; subst r w'. simpl in *. clear Hrun.
  apply render_image_cases in Hr as [[-> _] | (mk & rest & Ht)].
  - unfold marker_path. rewrite mkdir_parents_same_child. exact Hm.
  - rewrite Ht in Htrace. apply app_inv_head in Htrace. subst evs.
    apply Forall_app in Hns as [_ Hns]. apply Forall_cons in Hns as [Hns _].
    by destruct Hns.
Qed.

Lemma run_futures_all_skipped E ts w :
  (∀ t, t ∈ ts → is_Some (fs w !! marker_path t.2)) →
  run_futures E ts w =
    (Ok (Ok <$> ((fun t : Task => "Skipped (already exists): " +:+ PathOps.name t.2)
                 <$> ts)), w).
Proof.
  induction ts as [|t ts IH]; intros H; [done |].
  cbn [run_futures].
  rewrite (bind_ok (run_future E t) _ w
             (Ok ("Skipped (already exists): " +:+ PathOps.name t.2)) w).
  2:{ unfold run_future. rewrite call_skip; [done |]. apply H. left. }
  assert (Hts := IH (fun t' Ht' => H t' (list_elem_of_further _ _ _ Ht'))).
  by rewrite (bind_ok (run_futures E ts) _ w _ w Hts).
Qed.

(** X17. A run over a library in which every discovered file has its
    marker writes nothing but its log: every entry of the file system
    other than a log file is unchanged, no effect is recorded, and the
    results forwarded are the skipped lines of the discovered files, in
    the order of completion. *)
Theorem main_on_processed_library E root schedule w :
  (∀ l : list Task, schedule l ≡ₚ l) →
  (∀ f, f ∈ media_files root (fs w) → is_Some (fs w !! marker_path f)) →
  let w' := (main E root schedule w).2 in
  (∀ x, ¬ is_log_file x → fs w' !! x = fs w !! x) ∧ trace w' = trace w ∧
  (media_files root (fs w) ≠ [] →
   info_records (log w') = info_records (log w) ++
     ["Found " +:+ pretty (List.length (media_files root (fs w)))
        +:+ " media files to process.";
      "Using " +:+ pretty (max_workers E) +:+ " threads."]
     ++ ((fun t : Task => "Skipped (already exists): " +:+ PathOps.name t.2)
         <$> schedule (make_tasks (media_files root (fs w))))
     ++ ["Script finished successfully."]).
Proof.
  intros Hperm Hall. cbn zeta. unfold main.
  rewrite (bind_ok _ _ w (media_files root (fs w)) w) by done.
  destruct (bool_decide (media_files root (fs w) = [])) eqn:Hempty.
  { apply bool_decide_eq_true_1 in Hempty. simpl. by rewrite Hempty. }
  set (files := media_files root (fs w)) in *.
  set (w1 := add_log INFO ("Using " +:+ pretty (max_workers E) +:+ " threads.")
               (add_log INFO ("Found " +:+ pretty (List.length files)
                              +:+ " media files to process.") w)).
  rewrite (bind_ok _ _ w tt (add_log INFO ("Found " +:+ pretty (List.length files)
                              +:+ " media files to process.") w)) by done.
  rewrite (bind_ok _ _ _ tt w1) by done.
  rewrite (bind_ok _ _ w1 _ w1
             (run_futures_all_skipped E (schedule (make_tasks files)) w1
                ltac:(intros t Ht; rewrite (Hperm _) in Ht;
                      apply (list_elem_of_fmap_2 snd) in Ht;
                      rewrite make_tasks_paths in Ht; exact (Hall _ Ht)))).
  rewrite (bind_ok _ _ w1 tt _ (collect_values _ w1)).
  simpl.
  pose proof (forwarded_spec
                ((fun t : Task => "Skipped (already exists): " +:+ PathOps.name t.2)
                 <$> schedule (make_tasks files)) w1) as (Hfs & Htr & Hinfo & _).
  split; [intros x _; by rewrite Hfs |]. split; [by rewrite Htr |].
  intros _. unfold info_records in *. rewrite omap_app. simpl.
  rewrite Hinfo. simpl. rewrite !omap_app. simpl. by rewrite <- !app_assoc.
Qed.

Lemma early_image_failure_is_retried_witness :
  let E := with_codec E_ok
             (fun _ _ => inl (PyException "UnidentifiedImageError"
                                "cannot identify image file"))
             (Image_convert E_ok) in
  let w' := (process_image E a_jpg w0).2 in
  fs w' !! marker_path a_jpg = None ∧
  ∀ E', ∃ r2 w'', process_image E' a_jpg w' = (Ok r2, w'') ∧ ¬ is_skipped a_jpg r2.
Proof.
  cbn zeta.
  apply (early_image_failure_is_retried
           (with_codec E_ok
              (fun _ _ => inl (PyException "UnidentifiedImageError"
                                 "cannot identify image file"))
              (Image_convert E_ok))
           a_jpg w0 "Error: a.jpg" _
           [EvMkdir ["photos"; "@eaDir"]; EvMkdir ["photos"; "@eaDir"; "a.jpg"]]).
  - apply run_eq. vm_compute. reflexivity.
  - left. reflexivity.
  - vm_compute. reflexivity.
  - repeat constructor; by intros [].
Defined.

Lemma main_on_processed_library_witness :
  let w1 := (main E_ok ["photos"] reverse w0).2 in
  let w' := (main E_ok ["photos"] reverse w1).2 in
  (∀ x, ¬ is_log_file x → fs w' !! x = fs w1 !! x) ∧ trace w' = trace w1 ∧
  (media_files ["photos"] (fs w1) ≠ [] →
   info_records (log w') = info_records (log w1) ++
     ["Found " +:+ pretty (List.length (media_files ["photos"] (fs w1)))
        +:+ " media files to process.";
      "Using " +:+ pretty (max_workers E_ok) +:+ " threads."]
     ++ ((fun t : Task => "Skipped (already exists): " +:+ PathOps.name t.2)
         <$> reverse (make_tasks (media_files ["photos"] (fs w1))))
     ++ ["Script finished successfully."]).
Proof.
  cbn zeta.
  apply (main_on_processed_library E_ok ["photos"] reverse
           (main E_ok ["photos"] reverse w0).2).
  - intros l. apply reverse_Permutation.
  - apply Forall_forall. apply (bool_decide_unpack _). vm_compute. reflexivity.
Defined.

Lemma report_lines_disjoint_witness :
  let t := (Fprocess_image, a_jpg) in
  let t2 := (Fprocess_image, ["album"; "a.jpg"]) in
  let r := "Image processed: a.jpg" in
  (is_skipped t.2 r ∧ is_skipped t2.2 r ∧
   ¬ is_processed t.2 r ∧ ¬ is_failed t.2 r) ∨
  (is_processed t.2 r ∧ is_processed t2.2 r ∧
   ¬ is_skipped t.2 r ∧ ¬ is_failed t.2 r) ∨
  (is_failed t.2 r ∧ is_failed t2.2 r ∧
   ¬ is_skipped t.2 r ∧ ¬ is_processed t.2 r).
Proof.
  cbn zeta.
  apply (report_lines_disjoint E_ok (Fprocess_image, a_jpg) w0
           "Image processed: a.jpg"
           (call E_ok (Fprocess_image, a_jpg) w0).2
           E_film_fails (Fprocess_image, ["album"; "a.jpg"]) w0
           (call E_film_fails (Fprocess_image, ["album"; "a.jpg"]) w0).2).
  - apply run_eq. vm_compute. reflexivity.
  - apply run_eq. vm_compute. reflexivity.
Defined.
